(** * Server-side mailslot management: a model of [server/mailslot.c]

    The wineserver is a single-threaded request loop working on a graph of
    reference-counted objects.  The model below keeps that shape: one
    [server] record holds the object heap, the named-object directory, the
    handle table of the current process, the error of the current thread,
    the APCs queued so far and the state of the unix sockets behind the
    mailslots; every C function is a computation over that record. *)

From Stdlib Require Import ZArith List Lia Bool.
From stdpp Require Import base gmap list.

Local Open Scope Z_scope.

(** ** Constants taken from the platform headers

    [windef.h], [winbase.h], [winnt.h], [poll.h] and [sys/socket.h] are not
    part of the modelled file; the values are the ones fixed by the Windows
    and Linux ABIs. *)

Definition GENERIC_READ : Z := 0x80000000.
Definition GENERIC_WRITE : Z := 0x40000000.
Definition FILE_SHARE_READ : Z := 0x1.
Definition FILE_SHARE_WRITE : Z := 0x2.
Definition MAILSLOT_NO_MESSAGE : Z := 0xFFFFFFFF.
Definition MAILSLOT_WAIT_FOREVER : Z := 0xFFFFFFFF.
Definition MAILSLOT_SET_READ_TIMEOUT : Z := 0x1.
Definition ASYNC_TYPE_READ : Z := 0x1.
Definition FD_FLAG_TIMEOUT : Z := 0x02.
Definition FD_FLAG_AVAILABLE : Z := 0x10.
Definition POLLIN : Z := 0x1.
Definition POLLERR : Z := 0x8.
Definition POLLNVAL : Z := 0x20.
Definition MSG_PEEK : Z := 0x2.
Definition MSG_TRUNC : Z := 0x20.

(** The NTSTATUS codes the file sets, as an enumeration. *)
Inductive ntstatus : Set :=
  | STATUS_SUCCESS
  | STATUS_ALERTED
  | STATUS_TIMEOUT
  | STATUS_CANCELLED
  | STATUS_INVALID_PARAMETER
  | STATUS_INVALID_HANDLE
  | STATUS_ACCESS_DENIED
  | STATUS_NO_MEMORY
  | STATUS_NO_SUCH_FILE
  | STATUS_IO_TIMEOUT
  | STATUS_SHARING_VIOLATION
  | STATUS_OBJECT_NAME_INVALID
  | STATUS_OBJECT_NAME_COLLISION
  | STATUS_OBJECT_NAME_NOT_FOUND
  | STATUS_OBJECT_TYPE_MISMATCH
  | STATUS_TOO_MANY_OPENED_FILES.

#[global] Instance ntstatus_eq_dec : EqDecision ntstatus.
Proof. solve_decision. Defined.

(** ** Data *)

(** A C pointer to a server object; [NULL] is [None] of [option ptr]. *)
Definition ptr : Set := positive.

(** A 16-bit character of a name. *)
Definition WCHAR : Set := Z.

(** The [ops] tables that tag an object, and the ones that tag a [struct fd]. *)
Inductive object_ops : Set := mailslot_ops | mail_writer_ops | fd_object_ops | foreign_ops.
Inductive fd_ops : Set := mailslot_fd_ops | mail_writer_fd_ops.

#[global] Instance object_ops_eq_dec : EqDecision object_ops.
Proof. solve_decision. Defined.
#[global] Instance fd_ops_eq_dec : EqDecision fd_ops.
Proof. solve_decision. Defined.

(** [struct async]: the thread that waits, its completion target and the
    deadline armed for it (none when the wait is unbounded). *)
Record struct_async : Set := {
  async_thread : Z;
  async_apc : Z;
  async_user : Z;
  async_sb : Z;
  async_timeout : option Z
}.

(** [struct mailslot].  The two [struct list] heads are the lists
    themselves: [writers] links the writer objects through their [entry]
    field, [read_q] links the pending asyncs, head first. *)
Record struct_mailslot : Set := {
  fd : option ptr;
  write_fd : option ptr;
  max_msgsize : Z;
  read_timeout : Z;
  writers : list ptr;
  read_q : list struct_async
}.

(** [struct mail_writer]; [entry] is its membership in [writers]. *)
Record struct_mail_writer : Set := {
  writer_mailslot : option ptr;
  access : Z;
  sharing : Z
}.

(** [struct fd], from [file.h]: the operations table, the unix descriptor,
    the object that owns it and the poll events it is armed for. *)
Record struct_fd : Set := {
  fd_fd_ops : fd_ops;
  fd_unix_fd : Z;
  fd_user : option ptr;
  fd_poll_events : Z
}.

Inductive object_body : Set :=
  | Mailslot (m : struct_mailslot)
  | MailWriter (w : struct_mail_writer)
  | Fd (f : struct_fd)
  | Foreign.

(** [struct object] header followed by the body of the concrete kind. *)
Record struct_object : Set := {
  refcount : nat;
  obj_name : option (list WCHAR);
  body : object_body
}.

Definition obj_ops (o : struct_object) : object_ops :=
  match body o with
  | Mailslot _ => mailslot_ops
  | MailWriter _ => mail_writer_ops
  | Fd _ => fd_object_ops
  | Foreign => foreign_ops
  end.

(** One slot of the handle table of the current process. *)
Record handle_entry : Set := {
  entry_ptr : ptr;
  entry_access : Z;
  entry_inherit : bool
}.

(** What the kernel keeps for an open unix socket: the sizes of the
    datagrams queued for reading, oldest first, and [O_NONBLOCK]. *)
Record unix_socket : Set := {
  sock_queued : list N;
  sock_nonblock : bool
}.

Record server : Type := {
  heap : gmap ptr struct_object;
  mem_free : nat;
  sync_namespace : gmap (list WCHAR) ptr;
  handles : list handle_entry;
  error : ntstatus;
  apcs : list (struct_async * ntstatus);
  sockets : gmap Z unix_socket;
  fds_free : nat;
  current : Z
}.

Definition set_heap (f : gmap ptr struct_object → gmap ptr struct_object) (s : server) : server :=
  {| heap := f (heap s); mem_free := mem_free s; sync_namespace := sync_namespace s;
     handles := handles s; error := error s; apcs := apcs s;
     sockets := sockets s; fds_free := fds_free s; current := current s |}.

Definition set_mem_free (n : nat) (s : server) : server :=
  {| heap := heap s; mem_free := n; sync_namespace := sync_namespace s;
     handles := handles s; error := error s; apcs := apcs s;
     sockets := sockets s; fds_free := fds_free s; current := current s |}.

Definition set_namespace (f : gmap (list WCHAR) ptr → gmap (list WCHAR) ptr) (s : server) : server :=
  {| heap := heap s; mem_free := mem_free s; sync_namespace := f (sync_namespace s);
     handles := handles s; error := error s; apcs := apcs s;
     sockets := sockets s; fds_free := fds_free s; current := current s |}.

Definition set_handles (h : list handle_entry) (s : server) : server :=
  {| heap := heap s; mem_free := mem_free s; sync_namespace := sync_namespace s;
     handles := h; error := error s; apcs := apcs s;
     sockets := sockets s; fds_free := fds_free s; current := current s |}.

Definition set_error_field (e : ntstatus) (s : server) : server :=
  {| heap := heap s; mem_free := mem_free s; sync_namespace := sync_namespace s;
     handles := handles s; error := e; apcs := apcs s;
     sockets := sockets s; fds_free := fds_free s; current := current s |}.

Definition set_apcs (l : list (struct_async * ntstatus)) (s : server) : server :=
  {| heap := heap s; mem_free := mem_free s; sync_namespace := sync_namespace s;
     handles := handles s; error := error s; apcs := l;
     sockets := sockets s; fds_free := fds_free s; current := current s |}.

Definition set_sockets (f : gmap Z unix_socket → gmap Z unix_socket) (n : nat) (s : server) : server :=
  {| heap := heap s; mem_free := mem_free s; sync_namespace := sync_namespace s;
     handles := handles s; error := error s; apcs := apcs s;
     sockets := f (sockets s); fds_free := n; current := current s |}.

(** ** Computations

    A C function either returns, leaving a new server state, or stops the
    server: a failed [assert], a pointer that does not point to an object of
    the expected kind, or a system call that blocks. *)

Inductive fault : Set := AssertionFailed | BadPointer | WouldBlock.

Inductive outcome (A : Type) : Type :=
  | Done (a : A) (s : server)
  | Fault (f : fault).
Arguments Done {A} a s.
Arguments Fault {A} f.

Definition M (A : Type) : Type := server → outcome A.

Definition ret {A} (a : A) : M A := fun s => Done a s.

Definition bind {A B} (m : M A) (k : A → M B) : M B :=
  fun s => match m s with
           | Done a s' => k a s'
           | Fault f => Fault f
           end.

Notation "x <- m ;; k" := (bind m (fun x => k))
  (at level 100, m at next level, right associativity).
Notation "m ;;; k" := (bind m (fun _ => k))
  (at level 100, right associativity).

Definition get_state : M server := fun s => Done s s.
Definition modify (f : server → server) : M unit := fun s => Done tt (f s).
Definition raise {A} (f : fault) : M A := fun _ => Fault f.

(** [assert( p )] for a pointer that must not be [NULL]. *)
Definition assert_ptr (p : option ptr) : M ptr :=
  match p with
  | Some q => ret q
  | None => raise AssertionFailed
  end.

(** ** The environment of the file

    None of the functions of this part is defined in [mailslot.c]: they are
    the object, handle, fd and async layers of the server and the system
    calls.  Each is written out from what the specification says of it. *)

Section Mailslot.

(** Modelled from the spec: [tolowerW] of [wine/unicode.h], the case folding
    behind "case-insensitively prefixed"; its table is not part of the file,
    so it stays a parameter. *)
Variable tolowerW : WCHAR → WCHAR.

(** Modelled from the spec: [set_error], [get_error] and [clear_error] of
    [thread.h]; they write and read the error that the request reports
    "synchronously to the immediate caller". *)
Definition set_error (e : ntstatus) : M unit := modify (set_error_field e).
Definition get_error : M ntstatus := fun s => Done (error s) s.
Definition clear_error : M unit := set_error STATUS_SUCCESS.

(** Reading and writing through an object pointer. *)
Definition deref (p : ptr) : M struct_object :=
  fun s => match heap s !! p with
           | Some o => Done o s
           | None => Fault BadPointer
           end.

Definition store (p : ptr) (o : struct_object) : M unit :=
  modify (set_heap <[p := o]>).

Definition with_body (o : struct_object) (b : object_body) : struct_object :=
  {| refcount := refcount o; obj_name := obj_name o; body := b |}.

Definition with_refcount (o : struct_object) (n : nat) : struct_object :=
  {| refcount := n; obj_name := obj_name o; body := body o |}.

(** The cast of an object pointer to a mailslot pointer, followed by a read. *)
Definition get_mailslot (p : ptr) : M struct_mailslot :=
  o <- deref p ;;
  match body o with
  | Mailslot m => ret m
  | _ => raise BadPointer
  end.

Definition put_mailslot (p : ptr) (m : struct_mailslot) : M unit :=
  o <- deref p ;;
  match body o with
  | Mailslot _ => store p (with_body o (Mailslot m))
  | _ => raise BadPointer
  end.

Definition get_mail_writer (p : ptr) : M struct_mail_writer :=
  o <- deref p ;;
  match body o with
  | MailWriter w => ret w
  | _ => raise BadPointer
  end.

Definition put_mail_writer (p : ptr) (w : struct_mail_writer) : M unit :=
  o <- deref p ;;
  match body o with
  | MailWriter _ => store p (with_body o (MailWriter w))
  | _ => raise BadPointer
  end.

Definition get_struct_fd (p : ptr) : M struct_fd :=
  o <- deref p ;;
  match body o with
  | Fd f => ret f
  | _ => raise BadPointer
  end.

(** Modelled from the spec: the allocator behind [mem_alloc] and
    [alloc_object] of [object.c], "the generic reference-counted object base
    type and its allocation/destruction machinery".  [mem_free] counts the
    allocations that will still succeed; a refused one sets the error. *)
Definition mem_alloc : M bool :=
  fun s => match mem_free s with
           | O => Done false (set_error_field STATUS_NO_MEMORY s)
           | S n => Done true (set_mem_free n s)
           end.

Definition zero_body (ops : object_ops) : object_body :=
  match ops with
  | mailslot_ops =>
      Mailslot {| fd := None; write_fd := None; max_msgsize := 0; read_timeout := 0;
                  writers := []; read_q := [] |}
  | mail_writer_ops =>
      MailWriter {| writer_mailslot := None; access := 0; sharing := 0 |}
  | fd_object_ops =>
      Fd {| fd_fd_ops := mail_writer_fd_ops; fd_unix_fd := -1; fd_user := None;
            fd_poll_events := 0 |}
  | foreign_ops => Foreign
  end.

(** Modelled from the spec: [alloc_object]; a new object starts with one
    reference and no name. *)
Definition alloc_object (ops : object_ops) : M (option ptr) :=
  ok <- mem_alloc ;;
  if ok : bool then
    s <- get_state ;;
    let p := fresh (dom (heap s)) in
    store p {| refcount := 1; obj_name := None; body := zero_body ops |} ;;;
    ret (Some p)
  else ret None.

(** Modelled from the spec: [grab_object], one more reference. *)
Definition grab_object (p : ptr) : M ptr :=
  o <- deref p ;;
  store p (with_refcount o (S (refcount o))) ;;;
  ret p.

(** Modelled from the spec: the end of [release_object], where the name
    leaves the directory ("removes the name from the Directory Binding") and
    the memory goes back to the allocator. *)
Definition free_object (p : ptr) : M unit :=
  o <- deref p ;;
  modify (fun s =>
    set_mem_free (S (mem_free s))
      (set_namespace (match obj_name o with
                      | Some n => delete n
                      | None => fun ns => ns
                      end)
         (set_heap (delete p) s))).

(** Modelled from the spec: [release_object], here with the [destroy]
    operation of the object's kind as an argument: the count drops, and
    "when its last reference ... is released" the object is destroyed. *)
Definition release_with (destroy : ptr → M unit) (p : ptr) : M unit :=
  o <- deref p ;;
  match refcount o with
  | O => raise AssertionFailed
  | S O => store p (with_refcount o O) ;;; destroy p ;;; free_object p
  | S n => store p (with_refcount o n)
  end.

(** *** System calls *)

(** [poll] of one descriptor with a zero timeout: the number of descriptors
    with events and the events.  A descriptor that is not open reports
    [POLLNVAL]. *)
Definition poll (unix_fd events : Z) : M (Z * Z) :=
  fun s => match sockets s !! unix_fd with
           | None => Done (1, POLLNVAL) s
           | Some sock =>
               match sock_queued sock with
               | [] => Done (0, 0) s
               | _ :: _ =>
                   if Z.eqb (Z.land events POLLIN) 0 then Done (0, 0) s
                   else Done (1, POLLIN) s
               end
           end.

(** [recv] on a datagram socket: the size of the oldest datagram (cut to
    [len] without [MSG_TRUNC]); the datagram leaves the socket unless
    [MSG_PEEK] is given.  With nothing queued a non-blocking socket
    answers -1 and a blocking one blocks. *)
Definition recv (unix_fd len flags : Z) : M Z :=
  fun s => match sockets s !! unix_fd with
           | None => Done (-1) s
           | Some sock =>
               match sock_queued sock with
               | [] => if sock_nonblock sock then Done (-1) s else Fault WouldBlock
               | size :: rest =>
                   let r := if Z.eqb (Z.land flags MSG_TRUNC) 0 then Z.min (Z.of_N size) len
                            else Z.of_N size in
                   if Z.eqb (Z.land flags MSG_PEEK) 0
                   then Done r (set_sockets
                                  <[unix_fd := {| sock_queued := rest;
                                                  sock_nonblock := sock_nonblock sock |}]>
                                  (fds_free s) s)
                   else Done r s
               end
           end.

(** [socketpair( PF_UNIX, SOCK_DGRAM, 0, fds )]: two new descriptors with
    nothing queued, or a failure when the descriptor table is full. *)
Definition socketpair : M (option (Z * Z)) :=
  fun s => match fds_free s with
           | S (S n) =>
               let a := fresh (dom (sockets s)) in
               let b := fresh ({[a]} ∪ dom (sockets s)) in
               let empty := {| sock_queued := []; sock_nonblock := false |} in
               Done (Some (a, b)) (set_sockets (fun k => <[b := empty]> (<[a := empty]> k)) n s)
           | _ => Done None s
           end.

(** [fcntl( fd, F_SETFL, O_NONBLOCK )]. *)
Definition fcntl_nonblock (unix_fd : Z) : M unit :=
  fun s => match sockets s !! unix_fd with
           | None => Done tt s
           | Some sock =>
               Done tt (set_sockets <[unix_fd := {| sock_queued := sock_queued sock;
                                                    sock_nonblock := true |}]>
                                    (fds_free s) s)
           end.

(** [close( fd )]. *)
Definition close (unix_fd : Z) : M unit :=
  fun s => match sockets s !! unix_fd with
           | None => Done tt s
           | Some _ => Done tt (set_sockets (delete unix_fd) (S (fds_free s)) s)
           end.

(** Modelled from the spec: [file_set_error] of [file.h], the
    "transport-allocation condition" derived from [errno]. *)
Definition file_set_error : M unit := set_error STATUS_TOO_MANY_OPENED_FILES.

(** A pointer that is dereferenced: [NULL] ends the server. *)
Definition nonnull (p : option ptr) : M ptr :=
  match p with
  | Some q => ret q
  | None => raise BadPointer
  end.

(** [assert( obj->ops == &mailslot_ops )]. *)
Definition assert_mailslot_ops (p : ptr) : M unit :=
  o <- deref p ;;
  if decide (obj_ops o = mailslot_ops) then ret tt else raise AssertionFailed.

(** *** The fd layer (declared in [file.h]) *)

(** Modelled from the spec: [create_anonymous_fd], which wraps a unix
    descriptor in a [struct fd] owned by [user]; when the object cannot be
    allocated the descriptor is closed. *)
Definition create_anonymous_fd (fd_user_ops : fd_ops) (unix_fd : Z) (user : ptr)
  : M (option ptr) :=
  r <- alloc_object fd_object_ops ;;
  match r with
  | Some p =>
      o <- deref p ;;
      store p (with_body o (Fd {| fd_fd_ops := fd_user_ops; fd_unix_fd := unix_fd;
                                  fd_user := Some user; fd_poll_events := 0 |})) ;;;
      ret (Some p)
  | None => close unix_fd ;;; ret None
  end.

(** Modelled from the spec: [get_unix_fd] and [get_fd_user], the two
    accessors of a [struct fd]. *)
Definition get_unix_fd (fd : ptr) : M Z :=
  f <- get_struct_fd fd ;; ret (fd_unix_fd f).

Definition get_fd_user (fd : ptr) : M ptr :=
  f <- get_struct_fd fd ;; nonnull (fd_user f).

(** Modelled from the spec: [set_fd_events], which arms the "poll
    interests" of the descriptor in the main loop. *)
Definition set_fd_events (fd : ptr) (events : Z) : M unit :=
  o <- deref fd ;;
  match body o with
  | Fd f => store fd (with_body o (Fd {| fd_fd_ops := fd_fd_ops f; fd_unix_fd := fd_unix_fd f;
                                         fd_user := fd_user f; fd_poll_events := events |}))
  | _ => raise BadPointer
  end.

(** Modelled from the spec: [check_fd_events], the "non-blocking poll with
    zero timeout" that tells which of [events] are pending right now. *)
Definition check_fd_events (fd : ptr) (events : Z) : M Z :=
  f <- get_struct_fd fd ;;
  if Z.eqb (fd_unix_fd f) (-1) then ret POLLERR
  else
    r <- poll (fd_unix_fd f) events ;;
    if Z.leb (fst r) 0 then ret 0 else ret (snd r).

(** Modelled from the spec: the [destroy] operation of a [struct fd], which
    gives the descriptor back to the kernel. *)
Definition fd_destroy (fd : ptr) : M unit :=
  f <- get_struct_fd fd ;;
  if Z.eqb (fd_unix_fd f) (-1) then ret tt else close (fd_unix_fd f).

(** [release_object] applied to a [struct fd *]. *)
Definition release_fd (fd : ptr) : M unit :=
  get_struct_fd fd ;;; release_with fd_destroy fd.

(** *** The async layer (declared in [file.h]) *)

Definition with_read_q (m : struct_mailslot) (q : list struct_async) : struct_mailslot :=
  {| fd := fd m; write_fd := write_fd m; max_msgsize := max_msgsize m;
     read_timeout := read_timeout m; writers := writers m; read_q := q |}.

Definition with_writers (m : struct_mailslot) (w : list ptr) : struct_mailslot :=
  {| fd := fd m; write_fd := write_fd m; max_msgsize := max_msgsize m;
     read_timeout := read_timeout m; writers := w; read_q := read_q m |}.

Definition with_read_timeout (m : struct_mailslot) (t : Z) : struct_mailslot :=
  {| fd := fd m; write_fd := write_fd m; max_msgsize := max_msgsize m;
     read_timeout := t; writers := writers m; read_q := read_q m |}.

Definition with_fd (m : struct_mailslot) (p : option ptr) : struct_mailslot :=
  {| fd := p; write_fd := write_fd m; max_msgsize := max_msgsize m;
     read_timeout := read_timeout m; writers := writers m; read_q := read_q m |}.

Definition with_write_fd (m : struct_mailslot) (p : option ptr) : struct_mailslot :=
  {| fd := fd m; write_fd := p; max_msgsize := max_msgsize m;
     read_timeout := read_timeout m; writers := writers m; read_q := read_q m |}.

(** Modelled from the spec: [thread_queue_apc], the delivery of a terminal
    status "via the completion target". *)
Definition thread_queue_apc (a : struct_async) (status : ntstatus) : M unit :=
  modify (fun s => set_apcs (apcs s ++ [(a, status)]) s).

(** Modelled from the spec: [create_async].  "Accepted requests append to
    the tail of the queue"; the deadline is the one handed in, none for an
    unbounded wait.  The queue is named by the mailslot that embeds it. *)
Definition create_async (thread : Z) (timeout : option Z) (queue : ptr) (apc user sb : Z)
  : M (option struct_async) :=
  ok <- mem_alloc ;;
  if ok : bool then
    let a := {| async_thread := thread; async_apc := apc; async_user := user;
                async_sb := sb; async_timeout := timeout |} in
    m <- get_mailslot queue ;;
    put_mailslot queue (with_read_q m (read_q m ++ [a])) ;;;
    ret (Some a)
  else ret None.

(** Modelled from the spec: [async_terminate_head], the "complete exactly
    one" operation: the request at the head is notified of [status], leaves
    the queue and is freed.  An empty queue is left alone. *)
Definition async_terminate_head (queue : ptr) (status : ntstatus) : M unit :=
  m <- get_mailslot queue ;;
  match read_q m with
  | [] => ret tt
  | a :: rest =>
      thread_queue_apc a status ;;;
      put_mailslot queue (with_read_q m rest) ;;;
      modify (fun s => set_mem_free (S (mem_free s)) s)
  end.

Fixpoint repeat_M (n : nat) (c : M unit) : M unit :=
  match n with
  | O => ret tt
  | S k => c ;;; repeat_M k c
  end.

(** Modelled from the spec: [async_terminate_queue], the "cancel-all"
    operation: every queued request is terminated, head first. *)
Definition async_terminate_queue (queue : ptr) (status : ntstatus) : M unit :=
  m <- get_mailslot queue ;;
  repeat_M (length (read_q m)) (async_terminate_head queue status).

(** *** The handle table (declared in [handle.h]) *)

Definition index_to_handle (i : nat) : Z := Z.shiftl (Z.of_nat i + 1) 2.

(** Modelled from the spec: [alloc_handle], which enters the object in "the
    process/handle table that maps opaque handles to objects and enforces
    per-handle access rights".  The entry keeps a reference; the handle is 0
    when the table cannot grow. *)
Definition alloc_handle (obj : ptr) (acc : Z) (inherit : bool) : M Z :=
  ok <- mem_alloc ;;
  if ok : bool then
    grab_object obj ;;;
    s <- get_state ;;
    modify (set_handles (handles s ++ [{| entry_ptr := obj; entry_access := acc;
                                          entry_inherit := inherit |}])) ;;;
    ret (index_to_handle (length (handles s)))
  else ret 0.

(** Modelled from the spec: [get_handle], the slot that an "opaque handle"
    denotes; handles are the slot numbers, from 1, times 4. *)
Definition get_handle (handle : Z) : M (option handle_entry) :=
  fun s =>
    if Z.leb 1 (Z.shiftr handle 2)
    then Done (handles s !! Z.to_nat (Z.shiftr handle 2 - 1)) s
    else Done None s.

(** Modelled from the spec: [get_handle_obj]: the object behind a handle,
    with one more reference, provided the handle exists, grants [acc] and
    denotes an object of kind [ops]. *)
Definition get_handle_obj (handle : Z) (acc : Z) (ops : object_ops) : M (option ptr) :=
  e <- get_handle handle ;;
  match e with
  | None => set_error STATUS_INVALID_HANDLE ;;; ret None
  | Some entry =>
      if negb (Z.eqb (Z.land (entry_access entry) acc) acc)
      then set_error STATUS_ACCESS_DENIED ;;; ret None
      else
        o <- deref (entry_ptr entry) ;;
        if decide (obj_ops o = ops)
        then p <- grab_object (entry_ptr entry) ;; ret (Some p)
        else set_error STATUS_OBJECT_TYPE_MISMATCH ;;; ret None
  end.

(** *** The directory of named objects (declared in [object.h]) *)

(** The name of [len] bytes that starts at [name]: a character takes
    [sizeof(WCHAR)] = 2 bytes, so these are its first [len / 2] characters. *)
Definition name_key (name : list WCHAR) (len : Z) : list WCHAR :=
  take (Z.to_nat (len / 2)) name.

(** Modelled from the spec: [find_object], "name -> Mailslot
    lookup": the object bound to the name, with one more reference. *)
Definition find_object (name : list WCHAR) (len : Z) : M (option ptr) :=
  s <- get_state ;;
  match sync_namespace s !! name_key name len with
  | Some p => q <- grab_object p ;; ret (Some q)
  | None => ret None
  end.

(** *** Wide strings ([wine/unicode.h]) *)

(** A C string is the list of its characters; reading at or past its end
    yields the terminating 0. *)

(** Modelled from the spec: [strlenW], the length of "the
    mailslot-namespace token". *)
Fixpoint strlenW (s : list WCHAR) : Z :=
  match s with
  | [] => 0
  | c :: rest => if Z.eqb c 0 then 0 else 1 + strlenW rest
  end.

(** Modelled from the spec: [strncmpiW], the comparison behind
    "case-insensitively prefixed": at most [n] characters are compared after
    case folding, the first difference is returned, and the comparison stops
    at the end of [str1]. *)
Fixpoint strncmpiW (str1 str2 : list WCHAR) (n : nat) : Z :=
  match n with
  | O => 0
  | S n' =>
      let c1 := hd 0 str1 in
      let c2 := hd 0 str2 in
      let r := tolowerW c1 - tolowerW c2 in
      if negb (Z.eqb r 0) || Z.eqb c1 0 then r
      else strncmpiW (tl str1) (tl str2) n'
  end.

(** The truth value of a C integer and of a C pointer. *)
Definition nonzero (z : Z) : bool := negb (Z.eqb z 0).

Definition is_set (p : option ptr) : bool :=
  match p with
  | Some _ => true
  | None => false
  end.

(** ** The file itself *)

(** *** The [destroy] entries of the two operation tables *)

Definition mailslot_destroy (obj : ptr) : M unit :=
  mailslot <- get_mailslot obj ;;
  rfd <- assert_ptr (fd mailslot) ;;
  wfd <- assert_ptr (write_fd mailslot) ;;
  async_terminate_queue obj STATUS_CANCELLED ;;;
  release_fd rfd ;;;
  release_fd wfd.

(** [release_object] applied to a [struct mailslot *]. *)
Definition release_mailslot (mailslot : ptr) : M unit :=
  get_mailslot mailslot ;;; release_with mailslot_destroy mailslot.

(** [list_remove( &writer->entry )] takes the writer out of the list it is
    linked in, the [writers] of its mailslot. *)
Definition mail_writer_destroy (obj : ptr) : M unit :=
  writer <- get_mail_writer obj ;;
  mailslot <- nonnull (writer_mailslot writer) ;;
  m <- get_mailslot mailslot ;;
  put_mailslot mailslot
    (with_writers m (filter (fun w => w ≠ obj) (writers m))) ;;;
  release_mailslot mailslot.

(** [release_object] applied to a [struct mail_writer *]. *)
Definition release_mail_writer (writer : ptr) : M unit :=
  get_mail_writer writer ;;; release_with mail_writer_destroy writer.

(** Modelled from the spec: [release_object] on a pointer whose kind is not
    known statically: "virtual dispatch over object kinds" selects the
    [destroy] entry of the object's operation table. *)
Definition release_object (obj : ptr) : M unit :=
  o <- deref obj ;;
  match obj_ops o with
  | mailslot_ops => release_with mailslot_destroy obj
  | mail_writer_ops => release_with mail_writer_destroy obj
  | fd_object_ops => release_with fd_destroy obj
  | foreign_ops => release_with (fun _ => ret tt) obj
  end.

(** Modelled from the spec: [create_named_object], which "registers (or
    reuses the registration slot for) the name": an object already bound
    to the name is returned with the collision error when it is of the
    requested kind, and refused otherwise; a fresh object is bound to the
    name and the error is cleared. *)
Definition create_named_object (ops : object_ops) (name : list WCHAR) (len : Z)
  : M (option ptr) :=
  if Z.eqb len 0 then alloc_object ops
  else
    found <- find_object name len ;;
    match found with
    | Some obj =>
        o <- deref obj ;;
        if decide (obj_ops o = ops)
        then set_error STATUS_OBJECT_NAME_COLLISION ;;; ret (Some obj)
        else release_object obj ;;; set_error STATUS_OBJECT_TYPE_MISMATCH ;;; ret None
    | None =>
        r <- alloc_object ops ;;
        match r with
        | Some p =>
            o <- deref p ;;
            store p {| refcount := refcount o; obj_name := Some (name_key name len);
                       body := body o |} ;;;
            modify (set_namespace <[name_key name len := p]>) ;;;
            clear_error ;;;
            ret (Some p)
        | None => ret None
        end
    end.

(** *** Mailslot functions *)

Definition mailslot_message_count (mailslot : ptr) : M Z :=
  m <- get_mailslot mailslot ;;
  rfd <- nonnull (fd m) ;;
  unix_fd <- get_unix_fd rfd ;;
  r <- poll unix_fd POLLIN ;;
  ret (if Z.eqb (fst r) 1 then 1 else 0).

Definition mailslot_get_info (fd : ptr) : M Z :=
  mailslot <- get_fd_user fd ;;
  assert_mailslot_ops mailslot ;;;
  ret (Z.lor FD_FLAG_TIMEOUT FD_FLAG_AVAILABLE).

Definition mailslot_get_fd (obj : ptr) : M ptr :=
  mailslot <- get_mailslot obj ;;
  rfd <- nonnull (fd mailslot) ;;
  grab_object rfd.

Definition mailslot_get_poll_events (fd : ptr) : M Z :=
  mailslot <- get_fd_user fd ;;
  assert_mailslot_ops mailslot ;;;
  m <- get_mailslot mailslot ;;
  let events := 0 in
  ret (match read_q m with
       | [] => events
       | _ :: _ => Z.lor events POLLIN
       end).

Definition mailslot_poll_event (fd : ptr) (event : Z) : M unit :=
  mailslot <- get_fd_user fd ;;
  m <- get_mailslot mailslot ;;
  (match read_q m with
   | _ :: _ =>
       if nonzero (Z.land POLLIN event)
       then async_terminate_head mailslot STATUS_ALERTED
       else ret tt
   | [] => ret tt
   end) ;;;
  events <- mailslot_get_poll_events fd ;;
  set_fd_events fd events.

Definition mailslot_queue_async (fd : ptr) (apc user iosb : Z) (type count : Z) : M unit :=
  mailslot <- get_fd_user fd ;;
  assert_mailslot_ops mailslot ;;;
  if negb (Z.eqb type ASYNC_TYPE_READ) then set_error STATUS_INVALID_PARAMETER
  else
    m <- get_mailslot mailslot ;;
    refuse <- match writers m with
              | [] => ret true
              | _ :: _ => n <- mailslot_message_count mailslot ;; ret (negb (nonzero n))
              end ;;
    if refuse : bool then set_error STATUS_IO_TIMEOUT
    else
      let ptimeout := if negb (Z.eqb (read_timeout m) MAILSLOT_WAIT_FOREVER)
                      then Some (read_timeout m) else None in
      s <- get_state ;;
      a <- create_async (current s) ptimeout mailslot apc user iosb ;;
      match a with
      | None => ret tt
      | Some _ =>
          (* Check if the new pending request can be served immediately *)
          interest <- mailslot_get_poll_events fd ;;
          events <- check_fd_events fd interest ;;
          if nonzero events then mailslot_poll_event fd events
          else
            interest' <- mailslot_get_poll_events fd ;;
            set_fd_events fd interest'
      end.

Definition mailslot_cancel_async (fd : ptr) : M unit :=
  mailslot <- get_fd_user fd ;;
  assert_mailslot_ops mailslot ;;;
  async_terminate_queue mailslot STATUS_CANCELLED.

(** [static const WCHAR slot[] = {'m','a','i','l','s','l','o','t','\\',0}]. *)
Definition slot : list WCHAR := [109; 97; 105; 108; 115; 108; 111; 116; 92; 0].

(** The test that guards [create_mailslot]: true when the name is refused. *)
Definition name_refused (name : list WCHAR) (len : Z) : bool :=
  Z.leb len (strlenW slot) || nonzero (strncmpiW slot name (Z.to_nat (strlenW slot))).

Definition create_mailslot (name : list WCHAR) (len : Z) (max_msgsize_ read_timeout_ : Z)
  : M (option ptr) :=
  if name_refused name len
  then set_error STATUS_OBJECT_NAME_INVALID ;;; ret None
  else
    r <- create_named_object mailslot_ops name len ;;
    match r with
    | None => ret None
    | Some mailslot =>
        (* it already exists - there can only be one mailslot to read from *)
        e <- get_error ;;
        if decide (e = STATUS_OBJECT_NAME_COLLISION)
        then release_mailslot mailslot ;;; ret None
        else
          put_mailslot mailslot
            {| fd := None; write_fd := None; max_msgsize := max_msgsize_;
               read_timeout := read_timeout_; writers := []; read_q := [] |} ;;;
          fds <- socketpair ;;
          match fds with
          | Some (fds0, fds1) =>
              fcntl_nonblock fds0 ;;;
              fcntl_nonblock fds1 ;;;
              rfd <- create_anonymous_fd mailslot_fd_ops fds1 mailslot ;;
              m <- get_mailslot mailslot ;;
              put_mailslot mailslot (with_fd m rfd) ;;;
              wfd <- create_anonymous_fd mail_writer_fd_ops fds0 mailslot ;;
              m' <- get_mailslot mailslot ;;
              put_mailslot mailslot (with_write_fd m' wfd) ;;;
              if is_set rfd && is_set wfd
              then ret (Some mailslot)
              else release_mailslot mailslot ;;; ret None
          | None =>
              file_set_error ;;;
              release_mailslot mailslot ;;;
              ret None
          end
    end.

Definition open_mailslot (name : list WCHAR) (len : Z) : M (option ptr) :=
  found <- find_object name len ;;
  match found with
  | Some obj =>
      o <- deref obj ;;
      if decide (obj_ops o = mailslot_ops) then ret (Some obj)
      else
        release_object obj ;;;
        set_error STATUS_OBJECT_TYPE_MISMATCH ;;;
        ret None
  | None =>
      set_error STATUS_OBJECT_NAME_NOT_FOUND ;;;
      ret None
  end.

(** *** Writer functions *)

Definition mail_writer_get_info (fd : ptr) : M Z := ret 0.

Definition mail_writer_get_fd (obj : ptr) : M ptr :=
  writer <- get_mail_writer obj ;;
  mailslot <- nonnull (writer_mailslot writer) ;;
  m <- get_mailslot mailslot ;;
  wfd <- nonnull (write_fd m) ;;
  grab_object wfd.

(** The test of [create_mail_writer] on the head of the writer list. *)
Definition sharing_conflict (access_ sharing_ : Z) (writer : struct_mail_writer) : bool :=
  (nonzero (Z.land access_ GENERIC_WRITE) || nonzero (Z.land (access writer) GENERIC_WRITE))
  && negb (nonzero (Z.land sharing_ FILE_SHARE_WRITE)
           && nonzero (Z.land (sharing writer) FILE_SHARE_WRITE)).

(* Readers and writers cannot be mixed.
   If there's more than one writer, all writers must open with FILE_SHARE_WRITE *)
Definition create_mail_writer (mailslot : ptr) (access_ sharing_ : Z) : M (option ptr) :=
  m <- get_mailslot mailslot ;;
  refuse <- match writers m with
            | [] => ret false
            | head :: _ =>
                writer <- get_mail_writer head ;;
                ret (sharing_conflict access_ sharing_ writer)
            end ;;
  if refuse : bool then set_error STATUS_SHARING_VIOLATION ;;; ret None
  else
    r <- alloc_object mail_writer_ops ;;
    match r with
    | None => ret None
    | Some writer =>
        grab_object mailslot ;;;
        put_mail_writer writer
          {| writer_mailslot := Some mailslot; access := access_; sharing := sharing_ |} ;;;
        m' <- get_mailslot mailslot ;;
        put_mailslot mailslot (with_writers m' (writer :: writers m')) ;;;
        ret (Some writer)
    end.

Definition get_mailslot_obj (handle : Z) (access_ : Z) : M (option ptr) :=
  get_handle_obj handle access_ mailslot_ops.

(** *** Request handlers *)

(** The requests and replies of [protocol.def]; [data] is the
    variable-size part of the request, which carries the name.  Its size,
    [get_req_data_size], is counted in bytes, two to a character, and is
    the length that [create_mailslot] compares with [strlenW( slot )]. *)
Record create_mailslot_request : Set := {
  create_max_msgsize : Z;
  create_read_timeout : Z;
  create_inherit : bool;
  create_data : list WCHAR
}.

Record open_mailslot_request : Set := {
  open_access : Z;
  open_inherit : bool;
  open_sharing : Z;
  open_data : list WCHAR
}.

Record set_mailslot_info_request : Set := {
  info_handle : Z;
  info_flags : Z;
  info_read_timeout : Z
}.

Record set_mailslot_info_reply : Set := {
  reply_max_msgsize : Z;
  reply_read_timeout : Z;
  reply_msg_count : Z;
  reply_next_msgsize : Z
}.

Definition get_req_data_size (data : list WCHAR) : Z := 2 * Z.of_nat (length data).

(* create a mailslot *)
Definition req_create_mailslot (req : create_mailslot_request) : M Z :=
  r <- create_mailslot (create_data req) (get_req_data_size (create_data req))
         (create_max_msgsize req) (create_read_timeout req) ;;
  match r with
  | Some mailslot =>
      handle <- alloc_handle mailslot GENERIC_READ (create_inherit req) ;;
      release_mailslot mailslot ;;;
      ret handle
  | None => ret 0
  end.

(* open an existing mailslot *)
Definition req_open_mailslot (req : open_mailslot_request) : M Z :=
  if negb (nonzero (Z.land (open_sharing req) FILE_SHARE_READ))
  then set_error STATUS_SHARING_VIOLATION ;;; ret 0
  else
    r <- open_mailslot (open_data req) (get_req_data_size (open_data req)) ;;
    match r with
    | Some mailslot =>
        w <- create_mail_writer mailslot (open_access req) (open_sharing req) ;;
        handle <- match w with
                  | Some writer =>
                      h <- alloc_handle writer (open_access req) (open_inherit req) ;;
                      release_mail_writer writer ;;;
                      ret h
                  | None => ret 0
                  end ;;
        release_mailslot mailslot ;;;
        ret handle
    | None =>
        set_error STATUS_NO_SUCH_FILE ;;;
        ret 0
    end.

(* set mailslot information *)
Definition req_set_mailslot_info (req : set_mailslot_info_request) : M set_mailslot_info_reply :=
  r <- get_mailslot_obj (info_handle req) 0 ;;
  match r with
  | Some mailslot =>
      m <- get_mailslot mailslot ;;
      rfd <- nonnull (fd m) ;;
      unix_fd <- get_unix_fd rfd ;;
      (if nonzero (Z.land (info_flags req) MAILSLOT_SET_READ_TIMEOUT)
       then put_mailslot mailslot (with_read_timeout m (info_read_timeout req))
       else ret tt) ;;;
      m' <- get_mailslot mailslot ;;
      n <- mailslot_message_count mailslot ;;
      (* get the size of the next message *)
      size <- recv unix_fd 0 (Z.lor MSG_PEEK MSG_TRUNC) ;;
      release_mailslot mailslot ;;;
      ret {| reply_max_msgsize := max_msgsize m';
             reply_read_timeout := read_timeout m';
             reply_msg_count := n;
             reply_next_msgsize := if Z.ltb size 0 then MAILSLOT_NO_MESSAGE else size |}
  | None =>
      ret {| reply_max_msgsize := 0; reply_read_timeout := 0;
             reply_msg_count := 0; reply_next_msgsize := 0 |}
  end.

(** *** What happens around the requests *)

(** A client writes a datagram of [size] bytes to the mailslot: it is
    queued on the socket at [unix_fd]. *)
Definition datagram_arrives (unix_fd : Z) (size : N) : M unit :=
  fun s => match sockets s !! unix_fd with
           | None => Done tt s
           | Some sock =>
               Done tt (set_sockets <[unix_fd := {| sock_queued := sock_queued sock ++ [size];
                                                    sock_nonblock := sock_nonblock sock |}]>
                                    (fds_free s) s)
           end.

(** A server that has just started, with room for [mem] allocations and
    [nfds] descriptors. *)
Definition startup (mem nfds : nat) (thread : Z) : server :=
  {| heap := ∅; mem_free := mem; sync_namespace := ∅; handles := [];
     error := STATUS_SUCCESS; apcs := []; sockets := ∅; fds_free := nfds;
     current := thread |}.

(** The state a computation leaves, when it returns. *)
Definition state_after {A} (s : server) (c : M A) : server :=
  match c s with
  | Done _ s' => s'
  | Fault _ => s
  end.

End Mailslot.

(** ** Observing a state *)

Implicit Types (h : gmap ptr struct_object) (s : server) (p q : ptr).

(** What the heap holds at an address, by kind of object. *)
Definition body_at h p : option object_body := body <$> h !! p.

Definition mailslot_at h p : option struct_mailslot :=
  match body_at h p with
  | Some (Mailslot m) => Some m
  | _ => None
  end.

Definition mail_writer_at h p : option struct_mail_writer :=
  match body_at h p with
  | Some (MailWriter w) => Some w
  | _ => None
  end.

Definition fd_at h p : option struct_fd :=
  match body_at h p with
  | Some (Fd f) => Some f
  | _ => None
  end.

Definition refcount_at h p : option nat := refcount <$> h !! p.

Definition name_at h p : option (list WCHAR) := h !! p ≫= obj_name.

(** The slot of the handle table that [handle] denotes, as [get_handle]
    finds it. *)
Definition handle_entry_of (s : server) (handle : Z) : option handle_entry :=
  if Z.leb 1 (Z.shiftr handle 2)
  then handles s !! Z.to_nat (Z.shiftr handle 2 - 1)
  else None.

(** Whether a socket has a datagram to deliver. *)
Definition readable (sock : unix_socket) : bool :=
  match sock_queued sock with
  | [] => false
  | _ :: _ => true
  end.

(** A mask that has at least one of the bits [bits]. *)
Definition includes (mask bits : Z) : Prop := Z.land mask bits ≠ 0.

(** The interest that [mailslot_get_poll_events] computes from a queue. *)
Definition interest (queue : list struct_async) : Z :=
  match queue with
  | [] => 0
  | _ :: _ => POLLIN
  end.

(** ** States that the functions lead to *)

(** Replacing the body, or the reference count, of the object at [p]. *)
Definition put_body p (b : object_body) h : gmap ptr struct_object :=
  alter (fun o => with_body o b) p h.

Definition put_refcount p (n : nat) h : gmap ptr struct_object :=
  alter (fun o => with_refcount o n) p h.

Definition with_poll_events (f : struct_fd) (events : Z) : struct_fd :=
  {| fd_fd_ops := fd_fd_ops f; fd_unix_fd := fd_unix_fd f; fd_user := fd_user f;
     fd_poll_events := events |}.

(** The request that [mailslot_queue_async] queues on a mailslot [m]: its
    deadline is the read timeout of the mailslot, unless that is
    [MAILSLOT_WAIT_FOREVER]. *)
Definition new_async (s : server) (m : struct_mailslot) (apc user iosb : Z) : struct_async :=
  {| async_thread := current s; async_apc := apc; async_user := user; async_sb := iosb;
     async_timeout := if negb (Z.eqb (read_timeout m) MAILSLOT_WAIT_FOREVER)
                      then Some (read_timeout m) else None |}.

(** The state in which the head [a] of the queue of [mailslot] has been
    completed with [status], [rest] being what stays queued. *)
Definition head_completed (mailslot : ptr) (m : struct_mailslot) (a : struct_async)
    (rest : list struct_async) (status : ntstatus) (s : server) : server :=
  set_mem_free (S (mem_free s))
    (set_heap (put_body mailslot (Mailslot (with_read_q m rest)))
       (set_apcs (apcs s ++ [(a, status)]) s)).

(** The state in which every request queued on [mailslot] has been
    terminated with [status]. *)
Definition queue_terminated (mailslot : ptr) (m : struct_mailslot) (status : ntstatus)
    (s : server) : server :=
  set_mem_free (length (read_q m) + mem_free s)%nat
    (set_heap (put_body mailslot (Mailslot (with_read_q m [])))
       (set_apcs (apcs s ++ map (fun a => (a, status)) (read_q m)) s)).

(** [close] as a function on states. *)
Definition closed (unix_fd : Z) (s : server) : server :=
  match sockets s !! unix_fd with
  | None => s
  | Some _ => set_sockets (delete unix_fd) (S (fds_free s)) s
  end.

(** The state after [release_object] on the [struct fd] at [p], which
    holds [f] and had [S n] references: with [n = 0] the descriptor is
    closed and the object freed. *)
Definition fd_released (p : ptr) (f : struct_fd) (n : nat) (s : server) : server :=
  match n with
  | S k => set_heap (put_refcount p (S k)) s
  | O =>
      let s1 := if Z.eqb (fd_unix_fd f) (-1) then s else closed (fd_unix_fd f) s in
      set_mem_free (S (mem_free s1))
        (set_namespace (match name_at (heap s) p with
                        | Some nm => delete nm
                        | None => fun ns => ns
                        end)
           (set_heap (delete p) s1))
  end.

(** ** The name of a mailslot, in the words of the specification *)

(** The mailslot-namespace token: the characters of [slot], without the
    terminating 0. *)
Definition token : list WCHAR := [109; 97; 105; 108; 115; 108; 111; 116; 92].


(** ** Statements about computations *)

(** [wp c s Q]: started in [s], the computation [c] returns, and its
    result and final state satisfy [Q]. *)
Definition wp {A} (c : M A) (s : server) (Q : A → server → Prop) : Prop :=
  match c s with
  | Done a s' => Q a s'
  | Fault _ => False
  end.

(** [wlp c s Q]: if the computation [c], started in [s], returns, then its
    result and final state satisfy [Q]. *)
Definition wlp {A} (c : M A) (s : server) (Q : A → server → Prop) : Prop :=
  match c s with
  | Done a s' => Q a s'
  | Fault _ => True
  end.

(** [preserves proj c]: whenever [c] returns, the part [proj] of the state
    is what it was. *)
Definition preserves {A B} (proj : server → B) (c : M A) : Prop :=
  ∀ s a s', c s = Done a s' → proj s' = proj s.

(** ** A small server state

    One mailslot at address 1, named [mailslot\t], reading from the
    [struct fd] at 2 (unix descriptor 1) and written through the one at 3
    (unix descriptor 0), with one writer at 4, opened for GENERIC_WRITE and
    FILE_SHARE_READ; the process holds a handle on the mailslot and one on
    the writer.  The requests [queue] wait on the mailslot and the datagrams
    of sizes [datagrams] wait on its socket. *)

Definition demo_name : list WCHAR := [109; 97; 105; 108; 115; 108; 111; 116; 92; 116].

Definition demo_mailslot (queue : list struct_async) : struct_mailslot :=
  {| fd := Some 2%positive; write_fd := Some 3%positive; max_msgsize := 100;
     read_timeout := MAILSLOT_WAIT_FOREVER; writers := [4%positive]; read_q := queue |}.

Definition demo_read_fd : struct_fd :=
  {| fd_fd_ops := mailslot_fd_ops; fd_unix_fd := 1; fd_user := Some 1%positive;
     fd_poll_events := 0 |}.

Definition demo_write_fd : struct_fd :=
  {| fd_fd_ops := mail_writer_fd_ops; fd_unix_fd := 0; fd_user := Some 1%positive;
     fd_poll_events := 0 |}.

Definition demo_writer : struct_mail_writer :=
  {| writer_mailslot := Some 1%positive; access := GENERIC_WRITE; sharing := FILE_SHARE_READ |}.

Definition demo_socket (datagrams : list N) : unix_socket :=
  {| sock_queued := datagrams; sock_nonblock := true |}.

Definition demo_server (queue : list struct_async) (datagrams : list N) : server :=
  {| heap := {[ 1%positive := {| refcount := 2; obj_name := Some demo_name;
                                 body := Mailslot (demo_mailslot queue) |};
                2%positive := {| refcount := 1; obj_name := None; body := Fd demo_read_fd |};
                3%positive := {| refcount := 1; obj_name := None; body := Fd demo_write_fd |};
                4%positive := {| refcount := 1; obj_name := None;
                                 body := MailWriter demo_writer |} ]};
     mem_free := 14;
     sync_namespace := {[ demo_name := 1%positive ]};
     handles := [ {| entry_ptr := 1%positive; entry_access := GENERIC_READ;
                     entry_inherit := false |};
                  {| entry_ptr := 4%positive; entry_access := GENERIC_WRITE;
                     entry_inherit := false |} ];
     error := STATUS_SUCCESS;
     apcs := [];
     sockets := {[ 0 := demo_socket []; 1 := demo_socket datagrams ]};
     fds_free := 8;
     current := 7 |}.

(** Two requests of the thread 7. *)
Definition demo_async_1 : struct_async :=
  {| async_thread := 7; async_apc := 11; async_user := 12; async_sb := 13;
     async_timeout := None |}.

Definition demo_async_2 : struct_async :=
  {| async_thread := 7; async_apc := 21; async_user := 22; async_sb := 23;
     async_timeout := None |}.

(** Case folding of the letters A to Z, for the examples. *)
Definition ascii_tolowerW (c : WCHAR) : WCHAR :=
  if Z.leb 65 c && Z.leb c 90 then c + 32 else c.

(** The two requests that lead from a server that has just started to
    [demo_server [] []]. *)
Definition demo_create : create_mailslot_request :=
  {| create_max_msgsize := 100; create_read_timeout := MAILSLOT_WAIT_FOREVER;
     create_inherit := false; create_data := demo_name |}.

Definition demo_open : open_mailslot_request :=
  {| open_access := GENERIC_WRITE; open_inherit := false; open_sharing := FILE_SHARE_READ;
     open_data := demo_name |}.

(** A request to open [mailslot\x], a name that no object bears. *)
Definition demo_open_unbound : open_mailslot_request :=
  {| open_access := GENERIC_WRITE; open_inherit := false; open_sharing := FILE_SHARE_READ;
     open_data := [109; 97; 105; 108; 115; 108; 111; 116; 92; 120] |}.

(** A request to set the read timeout of the mailslot behind handle 4. *)
Definition demo_set_info : set_mailslot_info_request :=
  {| info_handle := 4; info_flags := MAILSLOT_SET_READ_TIMEOUT; info_read_timeout := 5 |}.

(** ** States that the creation of a mailslot leads to *)

(** A socket of a new pair, after [fcntl( fd, F_SETFL, O_NONBLOCK )]. *)
Definition fresh_socket : unix_socket := {| sock_queued := []; sock_nonblock := true |}.

(** The [struct fd] object that [create_anonymous_fd] makes. *)
Definition anonymous_fd (ops : fd_ops) (unix_fd : Z) (user : ptr) : struct_object :=
  {| refcount := 1; obj_name := None;
     body := Fd {| fd_fd_ops := ops; fd_unix_fd := unix_fd; fd_user := Some user;
                   fd_poll_events := 0 |} |}.

(** The mailslot object under the name [key], with one reference. *)
Definition named_mailslot (key : list WCHAR) (m : struct_mailslot) : struct_object :=
  {| refcount := 1; obj_name := Some key; body := Mailslot m |}.

(** The fields that [create_mailslot] writes before it asks for sockets. *)
Definition blank_mailslot (max_msgsize_ read_timeout_ : Z) : struct_mailslot :=
  {| fd := None; write_fd := None; max_msgsize := max_msgsize_;
     read_timeout := read_timeout_; writers := []; read_q := [] |}.

(** The state in which [create_mailslot] asks for its socket pair: the new
    object is at [p], bound to [key], and the error is cleared. *)
Definition mailslot_bound (key : list WCHAR) (max_msgsize_ read_timeout_ : Z) (p : ptr)
    (s : server) : server :=
  set_error_field STATUS_SUCCESS
    (set_namespace <[key := p]>
       (set_heap <[p := named_mailslot key (blank_mailslot max_msgsize_ read_timeout_)]>
          (set_mem_free (pred (mem_free s)) s))).

(** The state that a successful [create_mailslot] leaves: the mailslot at
    [p], its two [struct fd] at [rfd] and [wfd] over the sockets [u1] and
    [u0], three allocations and two descriptors spent. *)
Definition mailslot_built (key : list WCHAR) (max_msgsize_ read_timeout_ : Z)
    (p rfd wfd : ptr) (u0 u1 : Z) (s : server) : server :=
  {| heap :=
       <[wfd := anonymous_fd mail_writer_fd_ops u0 p]>
         (<[rfd := anonymous_fd mailslot_fd_ops u1 p]>
            (<[p := named_mailslot key
                      {| fd := Some rfd; write_fd := Some wfd; max_msgsize := max_msgsize_;
                         read_timeout := read_timeout_; writers := []; read_q := [] |}]>
               (heap s)));
     mem_free := mem_free s - 3;
     sync_namespace := <[key := p]> (sync_namespace s);
     handles := handles s;
     error := STATUS_SUCCESS;
     apcs := apcs s;
     sockets := <[u1 := fresh_socket]> (<[u0 := fresh_socket]> (sockets s));
     fds_free := fds_free s - 2;
     current := current s |}.

(** ** States that the release of an object leads to *)

(** [free_object] as a function on states: the object at [p] leaves the
    heap, its name (if it has one) leaves the directory, and its memory
    goes back to the allocator. *)
Definition object_freed (p : ptr) (s : server) : server :=
  set_mem_free (S (mem_free s))
    (set_namespace (match name_at (heap s) p with
                    | Some nm => delete nm
                    | None => fun ns => ns
                    end)
       (set_heap (delete p) s)).

(** The state after [mailslot_destroy] on the mailslot at [p], which holds
    [m]: its queue is cancelled and each of its two [struct fd], which had
    [S nr] and [S nw] references, has lost one. *)
Definition mailslot_destroyed (p : ptr) (m : struct_mailslot)
    (rfd : ptr) (fr : struct_fd) (nr : nat) (wfd : ptr) (fw : struct_fd) (nw : nat)
    (s : server) : server :=
  fd_released wfd fw nw
    (fd_released rfd fr nr (queue_terminated p m STATUS_CANCELLED s)).

(** The slot that [alloc_handle] appends for [obj]. *)
Definition handle_added (obj : ptr) (acc : Z) (inherit : bool) (s : server) : server :=
  set_handles (handles s ++ [{| entry_ptr := obj; entry_access := acc;
                                entry_inherit := inherit |}]) s.

(** ** States that the arrival and the departure of a writer lead to *)

(** The writer object that [create_mail_writer] makes for [mailslot]. *)
Definition new_mail_writer (mailslot : ptr) (access_ sharing_ : Z) : struct_object :=
  {| refcount := 1; obj_name := None;
     body := MailWriter {| writer_mailslot := Some mailslot; access := access_;
                           sharing := sharing_ |} |}.

(** The state after a successful [create_mail_writer]: the writer is at
    [writer], the mailslot at [mailslot], which held [m] and had [k]
    references, has one more and lists the writer first. *)
Definition writer_attached (mailslot : ptr) (m : struct_mailslot) (k : nat)
    (writer : ptr) (access_ sharing_ : Z) (s : server) : server :=
  set_heap (fun h =>
              put_body mailslot (Mailslot (with_writers m (writer :: writers m)))
                (put_refcount mailslot (S k)
                   (<[writer := new_mail_writer mailslot access_ sharing_]> h)))
    (set_mem_free (pred (mem_free s)) s).

(** [list_remove( &writer->entry )] on the list of a mailslot. *)
Definition without_writer (writer : ptr) (m : struct_mailslot) : struct_mailslot :=
  with_writers m (filter (fun w => w ≠ writer) (writers m)).

(** The condition under which [create_mail_writer] lets a writer in: the
    mailslot has no writer, or the one at the head of its list does not
    conflict with the request. *)
Definition admits (h : gmap ptr struct_object) (m : struct_mailslot) (access_ sharing_ : Z)
    : Prop :=
  match writers m with
  | [] => True
  | head :: _ =>
      ∃ w0, mail_writer_at h head = Some w0 ∧ sharing_conflict access_ sharing_ w0 = false
  end.

(** ** More small server states *)

(** A server that has just served the request [demo_create], started with
    room for [mem] allocations. *)
Definition demo_created (mem : nat) : server :=
  state_after (startup mem 10 7) (req_create_mailslot ascii_tolowerW demo_create).

(** The mailslot that [demo_create] makes, before any writer comes. *)
Definition demo_new_mailslot : struct_mailslot :=
  {| fd := Some 2%positive; write_fd := Some 3%positive; max_msgsize := 100;
     read_timeout := MAILSLOT_WAIT_FOREVER; writers := []; read_q := [] |}.

(** The small server state once the reader has closed its handle: the
    writer at 4 holds the only reference of the mailslot, on which the
    requests [queue] still wait. *)
Definition demo_reader_gone (queue : list struct_async) : server :=
  {| heap := {[ 1%positive := {| refcount := 1; obj_name := Some demo_name;
                                 body := Mailslot (demo_mailslot queue) |};
                2%positive := {| refcount := 1; obj_name := None; body := Fd demo_read_fd |};
                3%positive := {| refcount := 1; obj_name := None; body := Fd demo_write_fd |};
                4%positive := {| refcount := 1; obj_name := None;
                                 body := MailWriter demo_writer |} ]};
     mem_free := 14;
     sync_namespace := {[ demo_name := 1%positive ]};
     handles := [ {| entry_ptr := 4%positive; entry_access := GENERIC_WRITE;
                     entry_inherit := false |} ];
     error := STATUS_SUCCESS;
     apcs := [];
     sockets := {[ 0 := demo_socket []; 1 := demo_socket [] ]};
     fds_free := 8;
     current := 7 |}.

(** A request to open the mailslot without sharing it for reading. *)
Definition demo_open_unshared : open_mailslot_request :=
  {| open_access := GENERIC_WRITE; open_inherit := false; open_sharing := FILE_SHARE_WRITE;
     open_data := demo_name |}.

(** A request for the information of the object behind handle 8, which is
    the writer of the small server state. *)
Definition demo_info_of_writer : set_mailslot_info_request :=
  {| info_handle := 8; info_flags := 0; info_read_timeout := 0 |}.

(** ** Reasoning about computations *)

Lemma wp_done {A} (c : M A) s Q :
  wp c s Q ↔ ∃ a s', c s = Done a s' ∧ Q a s'.
Proof.
  unfold wp. destruct (c s) as [a s'|f]; split.
  - intros H. by exists a, s'.
  - intros (a0 & s0 & [= <- <-] & H). done.
  - done.
  - intros (a0 & s0 & [=] & _).
Qed.

Lemma wp_mono {A} (c : M A) s (Q Q' : A → server → Prop) :
  wp c s Q → (∀ a s', Q a s' → Q' a s') → wp c s Q'.
Proof. unfold wp. destruct (c s); auto. Qed.

Lemma wp_ret {A} (a : A) s Q : Q a s → wp (ret a) s Q.
Proof. done. Qed.

Lemma wp_bind {A B} (m : M A) (k : A → M B) s Q :
  wp m s (fun a s' => wp (k a) s' Q) → wp (bind m k) s Q.
Proof. unfold wp, bind. by destruct (m s). Qed.

Lemma wp_get_state s Q : Q s s → wp get_state s Q.
Proof. done. Qed.

Lemma wp_modify f s Q : Q tt (f s) → wp (modify f) s Q.
Proof. done. Qed.

Lemma wp_set_error e s Q : Q tt (set_error_field e s) → wp (set_error e) s Q.
Proof. done. Qed.

Lemma wp_deref p o s Q : heap s !! p = Some o → Q o s → wp (deref p) s Q.
Proof. unfold wp, deref. by intros ->. Qed.

Lemma wp_store p o s Q : Q tt (set_heap <[p := o]> s) → wp (store p o) s Q.
Proof. done. Qed.

(** *** Facts about heaps *)

Lemma body_at_Some h p b :
  body_at h p = Some b ↔ ∃ o, h !! p = Some o ∧ body o = b.
Proof.
  unfold body_at. destruct (h !! p) as [o|]; simpl; split.
  - intros [= <-]. eauto.
  - by intros (? & [= <-] & <-).
  - done.
  - by intros (? & [=] & _).
Qed.

Lemma mailslot_at_Some h p m :
  mailslot_at h p = Some m ↔ ∃ o, h !! p = Some o ∧ body o = Mailslot m.
Proof.
  rewrite <- body_at_Some. unfold mailslot_at.
  destruct (body_at h p) as [[]|]; naive_solver.
Qed.

Lemma fd_at_Some h p f :
  fd_at h p = Some f ↔ ∃ o, h !! p = Some o ∧ body o = Fd f.
Proof.
  rewrite <- body_at_Some. unfold fd_at.
  destruct (body_at h p) as [[]|]; naive_solver.
Qed.

Lemma mail_writer_at_Some h p w :
  mail_writer_at h p = Some w ↔ ∃ o, h !! p = Some o ∧ body o = MailWriter w.
Proof.
  rewrite <- body_at_Some. unfold mail_writer_at.
  destruct (body_at h p) as [[]|]; naive_solver.
Qed.

Lemma insert_with_body h p o b :
  h !! p = Some o → <[p := with_body o b]> h = put_body p b h.
Proof.
  intros Ho. apply map_eq. intros q. unfold put_body.
  destruct (decide (p = q)) as [->|Hne].
  - by rewrite lookup_insert_eq, lookup_alter_eq, Ho.
  - by rewrite lookup_insert_ne, lookup_alter_ne.
Qed.

Lemma insert_with_refcount h p o n :
  h !! p = Some o → <[p := with_refcount o n]> h = put_refcount p n h.
Proof.
  intros Ho. apply map_eq. intros q. unfold put_refcount.
  destruct (decide (p = q)) as [->|Hne].
  - by rewrite lookup_insert_eq, lookup_alter_eq, Ho.
  - by rewrite lookup_insert_ne, lookup_alter_ne.
Qed.

Lemma body_at_put_body h p b q :
  body_at (put_body p b h) q =
  if decide (q = p) then (fun _ => b) <$> body_at h p else body_at h q.
Proof.
  unfold body_at, put_body. case_decide as Hq.
  - subst. rewrite lookup_alter_eq. by destruct (h !! p).
  - by rewrite lookup_alter_ne.
Qed.

Lemma body_at_put_refcount h p n q :
  body_at (put_refcount p n h) q = body_at h q.
Proof.
  unfold body_at, put_refcount. destruct (decide (p = q)) as [->|Hne].
  - rewrite lookup_alter_eq. by destruct (h !! q).
  - by rewrite lookup_alter_ne.
Qed.

Lemma refcount_at_put_body h p b q :
  refcount_at (put_body p b h) q = refcount_at h q.
Proof.
  unfold refcount_at, put_body. destruct (decide (p = q)) as [->|Hne].
  - rewrite lookup_alter_eq. by destruct (h !! q).
  - by rewrite lookup_alter_ne.
Qed.

Lemma refcount_at_put_refcount h p n q :
  refcount_at (put_refcount p n h) q =
  if decide (q = p) then (fun _ => n) <$> refcount_at h p else refcount_at h q.
Proof.
  unfold refcount_at, put_refcount. case_decide as Hq.
  - subst. rewrite lookup_alter_eq. by destruct (h !! p).
  - by rewrite lookup_alter_ne.
Qed.

Lemma mailslot_at_put_eq h p m m' :
  mailslot_at h p = Some m → mailslot_at (put_body p (Mailslot m') h) p = Some m'.
Proof.
  unfold mailslot_at. rewrite body_at_put_body, decide_True by done.
  destruct (body_at h p) as [[]|]; by intros [=].
Qed.

Lemma mailslot_at_put_ne h p q b m :
  q ≠ p → mailslot_at h q = Some m → mailslot_at (put_body p b h) q = Some m.
Proof. intros. unfold mailslot_at. by rewrite body_at_put_body, decide_False. Qed.

Lemma mailslot_at_put_refcount h p q n m :
  mailslot_at h q = Some m → mailslot_at (put_refcount p n h) q = Some m.
Proof. unfold mailslot_at. by rewrite body_at_put_refcount. Qed.

Lemma fd_at_put_eq h p f f' :
  fd_at h p = Some f → fd_at (put_body p (Fd f') h) p = Some f'.
Proof.
  unfold fd_at. rewrite body_at_put_body, decide_True by done.
  destruct (body_at h p) as [[]|]; by intros [=].
Qed.

Lemma fd_at_put_ne h p q b f :
  q ≠ p → fd_at h q = Some f → fd_at (put_body p b h) q = Some f.
Proof. intros. unfold fd_at. by rewrite body_at_put_body, decide_False. Qed.

Lemma fd_at_put_refcount h p q n f :
  fd_at h q = Some f → fd_at (put_refcount p n h) q = Some f.
Proof. unfold fd_at. by rewrite body_at_put_refcount. Qed.

Lemma mail_writer_at_put_eq h p w w' :
  mail_writer_at h p = Some w → mail_writer_at (put_body p (MailWriter w') h) p = Some w'.
Proof.
  unfold mail_writer_at. rewrite body_at_put_body, decide_True by done.
  destruct (body_at h p) as [[]|]; by intros [=].
Qed.

Lemma mail_writer_at_put_ne h p q b w :
  q ≠ p → mail_writer_at h q = Some w → mail_writer_at (put_body p b h) q = Some w.
Proof. intros. unfold mail_writer_at. by rewrite body_at_put_body, decide_False. Qed.

Lemma mail_writer_at_put_refcount h p q n w :
  mail_writer_at h q = Some w → mail_writer_at (put_refcount p n h) q = Some w.
Proof. unfold mail_writer_at. by rewrite body_at_put_refcount. Qed.

(** Objects of different kinds live at different addresses. *)
Lemma fd_mailslot_ne h p q f m :
  fd_at h p = Some f → mailslot_at h q = Some m → p ≠ q.
Proof.
  unfold fd_at, mailslot_at. intros Hf Hm ->.
  destruct (body_at h q) as [[]|]; congruence.
Qed.

Lemma mail_writer_mailslot_ne h p q w m :
  mail_writer_at h p = Some w → mailslot_at h q = Some m → p ≠ q.
Proof.
  unfold mail_writer_at, mailslot_at. intros Hf Hm ->.
  destruct (body_at h q) as [[]|]; congruence.
Qed.

Lemma mail_writer_fd_ne h p q w f :
  mail_writer_at h p = Some w → fd_at h q = Some f → p ≠ q.
Proof.
  unfold mail_writer_at, fd_at. intros Hf Hm ->.
  destruct (body_at h q) as [[]|]; congruence.
Qed.

Create HintDb heap discriminated.
#[local] Hint Resolve mailslot_at_put_eq mailslot_at_put_ne mailslot_at_put_refcount
  fd_at_put_eq fd_at_put_ne fd_at_put_refcount
  mail_writer_at_put_eq mail_writer_at_put_ne mail_writer_at_put_refcount
  not_eq_sym : heap.

(** Projections of updated states, and nothing else, are computed. *)
Ltac state_simpl_in H :=
  cbn [heap mem_free sync_namespace handles error apcs sockets fds_free current
       set_heap set_mem_free set_namespace set_handles set_error_field set_apcs
       set_sockets head_completed queue_terminated] in H.

Ltac state_simpl :=
  cbn [heap mem_free sync_namespace handles error apcs sockets fds_free current
       set_heap set_mem_free set_namespace set_handles set_error_field set_apcs
       set_sockets head_completed queue_terminated];
  repeat match goal with
         | H : ?T |- _ =>
             match type of T with
             | Prop => progress state_simpl_in H
             end
         end.

Ltac heap_solve := state_simpl; eauto 10 with heap.

(** One more step of the computation under [wp], by the lemma [lem]. *)
Ltac wp_step lem :=
  first [ apply wp_bind; eapply lem | eapply lem ]; [ heap_solve .. | state_simpl ].

(** *** Steps of the object, fd and async layers *)

Lemma wp_get_mailslot p m s Q :
  mailslot_at (heap s) p = Some m → Q m s → wp (get_mailslot p) s Q.
Proof.
  intros (o & Ho & Hb)%mailslot_at_Some HQ.
  apply wp_bind, (wp_deref _ o); [done|]. by rewrite Hb.
Qed.

Lemma wp_get_struct_fd p f s Q :
  fd_at (heap s) p = Some f → Q f s → wp (get_struct_fd p) s Q.
Proof.
  intros (o & Ho & Hb)%fd_at_Some HQ.
  apply wp_bind, (wp_deref _ o); [done|]. by rewrite Hb.
Qed.

Lemma wp_get_mail_writer p w s Q :
  mail_writer_at (heap s) p = Some w → Q w s → wp (get_mail_writer p) s Q.
Proof.
  intros (o & Ho & Hb)%mail_writer_at_Some HQ.
  apply wp_bind, (wp_deref _ o); [done|]. by rewrite Hb.
Qed.

Lemma wp_put_mailslot p m m' s Q :
  mailslot_at (heap s) p = Some m → Q tt (set_heap (put_body p (Mailslot m')) s) →
  wp (put_mailslot p m') s Q.
Proof.
  intros (o & Ho & Hb)%mailslot_at_Some HQ.
  apply wp_bind, (wp_deref _ o); [done|]. rewrite Hb.
  apply wp_store. unfold set_heap in *. by rewrite (insert_with_body _ _ _ _ Ho).
Qed.

Lemma wp_put_mail_writer p w w' s Q :
  mail_writer_at (heap s) p = Some w → Q tt (set_heap (put_body p (MailWriter w')) s) →
  wp (put_mail_writer p w') s Q.
Proof.
  intros (o & Ho & Hb)%mail_writer_at_Some HQ.
  apply wp_bind, (wp_deref _ o); [done|]. rewrite Hb.
  apply wp_store. unfold set_heap in *. by rewrite (insert_with_body _ _ _ _ Ho).
Qed.

Lemma wp_get_fd_user fd f u s Q :
  fd_at (heap s) fd = Some f → fd_user f = Some u → Q u s → wp (get_fd_user fd) s Q.
Proof.
  intros Hf Hu HQ. wp_step wp_get_struct_fd. by rewrite Hu.
Qed.

Lemma wp_get_unix_fd fd f s Q :
  fd_at (heap s) fd = Some f → Q (fd_unix_fd f) s → wp (get_unix_fd fd) s Q.
Proof. intros Hf HQ. by wp_step wp_get_struct_fd. Qed.

Lemma wp_assert_mailslot_ops p m s Q :
  mailslot_at (heap s) p = Some m → Q tt s → wp (assert_mailslot_ops p) s Q.
Proof.
  intros (o & Ho & Hb)%mailslot_at_Some HQ.
  apply wp_bind, (wp_deref _ o); [done|].
  unfold obj_ops. rewrite Hb. by rewrite decide_True.
Qed.

Lemma wp_set_fd_events fd f events s Q :
  fd_at (heap s) fd = Some f →
  Q tt (set_heap (put_body fd (Fd (with_poll_events f events))) s) →
  wp (set_fd_events fd events) s Q.
Proof.
  intros (o & Ho & Hb)%fd_at_Some HQ.
  apply wp_bind, (wp_deref _ o); [done|]. rewrite Hb.
  apply wp_store. unfold set_heap in *. by rewrite (insert_with_body _ _ _ _ Ho).
Qed.

Lemma wp_thread_queue_apc a status s Q :
  Q tt (set_apcs (apcs s ++ [(a, status)]) s) → wp (thread_queue_apc a status) s Q.
Proof. done. Qed.

Lemma wp_mailslot_get_poll_events fd f mailslot m s Q :
  fd_at (heap s) fd = Some f → fd_user f = Some mailslot →
  mailslot_at (heap s) mailslot = Some m →
  Q (interest (read_q m)) s → wp (mailslot_get_poll_events fd) s Q.
Proof.
  intros Hf Hu Hm HQ.
  wp_step wp_get_fd_user. wp_step wp_assert_mailslot_ops. wp_step wp_get_mailslot.
  apply wp_ret. unfold interest in HQ. by destruct (read_q m).
Qed.

Lemma wp_async_terminate_head queue m status s Q :
  mailslot_at (heap s) queue = Some m →
  match read_q m with
  | [] => Q tt s
  | a :: rest => Q tt (head_completed queue m a rest status s)
  end →
  wp (async_terminate_head queue status) s Q.
Proof.
  intros Hm HQ. wp_step wp_get_mailslot.
  destruct (read_q m) as [|a rest]; [done|].
  wp_step wp_thread_queue_apc. wp_step wp_put_mailslot.
  by apply wp_modify.
Qed.

Lemma server_eq s s' :
  heap s = heap s' → mem_free s = mem_free s' → sync_namespace s = sync_namespace s' →
  handles s = handles s' → error s = error s' → apcs s = apcs s' →
  sockets s = sockets s' → fds_free s = fds_free s' → current s = current s' →
  s = s'.
Proof. destruct s, s'; simpl; intros; by subst. Qed.

Lemma put_body_same h p m : mailslot_at h p = Some m → put_body p (Mailslot m) h = h.
Proof.
  intros (o & Ho & Hb)%mailslot_at_Some. apply alter_id.
  intros o' ?. assert (o' = o) as -> by congruence.
  destruct o; simpl in *; by subst.
Qed.

Lemma put_body_put_body h p b b' : put_body p b' (put_body p b h) = put_body p b' h.
Proof.
  unfold put_body. rewrite alter_alter_eq. apply alter_ext. by intros [].
Qed.

Lemma put_refcount_put_refcount h p n n' :
  put_refcount p n' (put_refcount p n h) = put_refcount p n' h.
Proof.
  unfold put_refcount. rewrite alter_alter_eq. apply alter_ext. by intros [].
Qed.

Lemma put_refcount_same h p n : refcount_at h p = Some n → put_refcount p n h = h.
Proof.
  unfold refcount_at. intros Hn. apply alter_id. intros o Ho.
  rewrite Ho in Hn. destruct o; simpl in *. injection Hn as ->. done.
Qed.

Lemma with_read_q_same m : with_read_q m (read_q m) = m.
Proof. by destruct m. Qed.

Lemma queue_terminated_nil mailslot m status s :
  mailslot_at (heap s) mailslot = Some m → read_q m = [] →
  queue_terminated mailslot m status s = s.
Proof.
  intros Hm Hq. apply server_eq; unfold queue_terminated; state_simpl; rewrite ?Hq; try done.
  - rewrite <- Hq, with_read_q_same. by apply put_body_same.
  - simpl. by rewrite app_nil_r.
Qed.

Lemma queue_terminated_cons mailslot m a rest status s :
  read_q m = a :: rest →
  queue_terminated mailslot (with_read_q m rest) status (head_completed mailslot m a rest status s)
  = queue_terminated mailslot m status s.
Proof.
  intros Hq. apply server_eq; unfold queue_terminated; state_simpl; rewrite ?Hq; try done.
  - by rewrite put_body_put_body.
  - simpl. lia.
  - simpl. by rewrite <- app_assoc.
Qed.

Lemma wp_repeat_terminate queue status (l : list struct_async) : ∀ m s Q,
  mailslot_at (heap s) queue = Some m → read_q m = l →
  Q tt (queue_terminated queue m status s) →
  wp (repeat_M (length l) (async_terminate_head queue status)) s Q.
Proof.
  induction l as [|a rest IH]; intros m s Q Hm Hq HQ; cbn [length repeat_M].
  - apply wp_ret. by rewrite queue_terminated_nil in HQ.
  - wp_step wp_async_terminate_head. rewrite Hq.
    apply (IH (with_read_q m rest)); [heap_solve|done|].
    by rewrite queue_terminated_cons.
Qed.

Lemma wp_async_terminate_queue queue m status s Q :
  mailslot_at (heap s) queue = Some m →
  Q tt (queue_terminated queue m status s) →
  wp (async_terminate_queue queue status) s Q.
Proof.
  intros Hm HQ. wp_step wp_get_mailslot. by apply (wp_repeat_terminate _ _ _ m).
Qed.

Lemma wp_done_unit (c : M unit) s (P : server → Prop) :
  wp c s (fun _ s' => P s') → ∃ s', c s = Done tt s' ∧ P s'.
Proof. intros ([] & s' & ? & ?)%wp_done. eauto. Qed.

Lemma wp_done_eq {A} (c : M A) s a s' :
  wp c s (fun b t => b = a ∧ t = s') → c s = Done a s'.
Proof. intros (b & t & ? & -> & ->)%wp_done. done. Qed.

Lemma wp_of_eq {A} (c : M A) s a s' (Q : A → server → Prop) :
  c s = Done a s' → Q a s' → wp c s Q.
Proof. unfold wp. by intros ->. Qed.

(** *** Reference counts *)

Lemma refcount_at_Some h p n :
  refcount_at h p = Some n ↔ ∃ o, h !! p = Some o ∧ refcount o = n.
Proof.
  unfold refcount_at. destruct (h !! p) as [o|]; simpl; split.
  - intros [= <-]. eauto.
  - by intros (? & [= <-] & <-).
  - done.
  - by intros (? & [=] & _).
Qed.

Lemma wp_grab_object p n s Q :
  refcount_at (heap s) p = Some n →
  Q p (set_heap (put_refcount p (S n)) s) → wp (grab_object p) s Q.
Proof.
  intros (o & Ho & Hn)%refcount_at_Some HQ.
  apply wp_bind, (wp_deref _ o); [done|].
  apply wp_bind, wp_store, wp_ret. unfold set_heap in *.
  by rewrite (insert_with_refcount _ _ _ _ Ho), Hn.
Qed.

Lemma wp_release_keep destroy p n s Q :
  refcount_at (heap s) p = Some (S (S n)) →
  Q tt (set_heap (put_refcount p (S n)) s) → wp (release_with destroy p) s Q.
Proof.
  intros (o & Ho & Hn)%refcount_at_Some HQ.
  apply wp_bind, (wp_deref _ o); [done|]. rewrite Hn.
  apply wp_store. unfold set_heap in *.
  by rewrite (insert_with_refcount _ _ _ _ Ho).
Qed.

Lemma wp_close unix_fd s Q : Q tt (closed unix_fd s) → wp (close unix_fd) s Q.
Proof. unfold wp, close, closed. by destruct (sockets s !! unix_fd). Qed.

Lemma delete_put_refcount h p n : delete p (put_refcount p n h) = delete p h.
Proof. apply delete_alter_eq. Qed.

Lemma heap_closed u s : heap (closed u s) = heap s.
Proof. unfold closed. by destruct (sockets s !! u). Qed.

Lemma closed_set_heap u g s : closed u (set_heap g s) = set_heap g (closed u s).
Proof. unfold closed. state_simpl. by destruct (sockets s !! u). Qed.

Lemma wp_fd_destroy p f s Q :
  fd_at (heap s) p = Some f →
  Q tt (if Z.eqb (fd_unix_fd f) (-1) then s else closed (fd_unix_fd f) s) →
  wp (fd_destroy p) s Q.
Proof.
  intros Hf HQ. wp_step wp_get_struct_fd.
  destruct (Z.eqb (fd_unix_fd f) (-1)); [by apply wp_ret|by apply wp_close].
Qed.

Lemma wp_free_object p o s Q :
  heap s !! p = Some o →
  Q tt (set_mem_free (S (mem_free s))
          (set_namespace (match obj_name o with
                          | Some nm => delete nm
                          | None => fun ns => ns
                          end)
             (set_heap (delete p) s))) →
  wp (free_object p) s Q.
Proof. intros Ho HQ. apply wp_bind, (wp_deref _ o); [done|]. by apply wp_modify. Qed.

Lemma wp_release_fd p f n s Q :
  fd_at (heap s) p = Some f → refcount_at (heap s) p = Some (S n) →
  Q tt (fd_released p f n s) → wp (release_fd p) s Q.
Proof.
  intros Hf Hn HQ. wp_step wp_get_struct_fd.
  destruct n as [|k]; [|by apply (wp_release_keep _ _ k)].
  pose proof Hn as (o & Ho & Hrc)%refcount_at_Some.
  apply wp_bind, (wp_deref _ o); [done|]. rewrite Hrc.
  apply wp_bind, wp_store. unfold set_heap at 1. rewrite (insert_with_refcount _ _ _ _ Ho).
  change (wp (fd_destroy p ;;; free_object p) (set_heap (put_refcount p 0) s) Q).
  wp_step wp_fd_destroy.
  set (s1 := if Z.eqb (fd_unix_fd f) (-1) then s else closed (fd_unix_fd f) s) in *.
  assert ((if Z.eqb (fd_unix_fd f) (-1) then set_heap (put_refcount p 0) s
           else closed (fd_unix_fd f) (set_heap (put_refcount p 0) s))
          = set_heap (put_refcount p 0) s1) as ->.
  { unfold s1. destruct (Z.eqb _ _); [done|]. apply closed_set_heap. }
  assert (heap s1 = heap s) as Hh1.
  { unfold s1. destruct (Z.eqb _ _); [done|]. apply heap_closed. }
  apply (wp_free_object _ (with_refcount o 0)).
  { state_simpl. rewrite Hh1. unfold put_refcount. by rewrite lookup_alter_eq, Ho. }
  unfold fd_released in HQ. fold s1 in HQ. cbn [obj_name with_refcount].
  replace (name_at (heap s) p) with (obj_name o) in HQ
    by (unfold name_at; by rewrite Ho).
  match goal with |- Q tt ?x => match type of HQ with Q tt ?y =>
    replace x with y; [done|] end end.
  apply server_eq; state_simpl; try done.
  by rewrite delete_put_refcount.
Qed.

(** *** What a released descriptor leaves *)

Lemma heap_fd_released p f n s :
  heap (fd_released p f n s) =
  match n with
  | O => delete p (heap s)
  | S k => put_refcount p (S k) (heap s)
  end.
Proof.
  unfold fd_released. destruct n; state_simpl; [|done].
  destruct (Z.eqb _ _); [done|]. by rewrite heap_closed.
Qed.

Lemma apcs_closed u s : apcs (closed u s) = apcs s.
Proof. unfold closed. by destruct (sockets s !! u). Qed.

Lemma sockets_closed u s : sockets (closed u s) = delete u (sockets s).
Proof.
  unfold closed. destruct (sockets s !! u) eqn:E; state_simpl; [done|].
  symmetry. by apply delete_id.
Qed.

Lemma apcs_fd_released p f n s : apcs (fd_released p f n s) = apcs s.
Proof.
  unfold fd_released. destruct n; state_simpl; [|done].
  destruct (Z.eqb _ _); [done|]. by rewrite apcs_closed.
Qed.

Lemma body_at_delete h p q :
  body_at (delete p h) q = if decide (q = p) then None else body_at h q.
Proof.
  unfold body_at. case_decide as Hq.
  - subst. by rewrite lookup_delete_eq.
  - by rewrite lookup_delete_ne.
Qed.

Lemma body_at_fd_released p f n s q :
  q ≠ p → body_at (heap (fd_released p f n s)) q = body_at (heap s) q.
Proof.
  intros. rewrite heap_fd_released. destruct n.
  - by rewrite body_at_delete, decide_False.
  - by rewrite body_at_put_refcount.
Qed.

Lemma mailslot_at_fd_released p f n s q m :
  q ≠ p → mailslot_at (heap s) q = Some m →
  mailslot_at (heap (fd_released p f n s)) q = Some m.
Proof. intros. unfold mailslot_at. by rewrite body_at_fd_released. Qed.

Lemma fd_at_fd_released p f n s q f' :
  q ≠ p → fd_at (heap s) q = Some f' →
  fd_at (heap (fd_released p f n s)) q = Some f'.
Proof. intros. unfold fd_at. by rewrite body_at_fd_released. Qed.

Lemma refcount_at_fd_released_ne p f n s q :
  q ≠ p → refcount_at (heap (fd_released p f n s)) q = refcount_at (heap s) q.
Proof.
  intros. rewrite heap_fd_released. destruct n.
  - unfold refcount_at. by rewrite lookup_delete_ne.
  - by rewrite refcount_at_put_refcount, decide_False.
Qed.

Lemma refcount_at_fd_released_eq p f n s :
  refcount_at (heap s) p = Some (S n) →
  refcount_at (heap (fd_released p f n s)) p =
  match n with
  | O => None
  | S k => Some (S k)
  end.
Proof.
  intros Hn. rewrite heap_fd_released. destruct n.
  - unfold refcount_at. by rewrite lookup_delete_eq.
  - by rewrite refcount_at_put_refcount, decide_True, Hn.
Qed.

Lemma sockets_fd_released_last p f s :
  fd_unix_fd f ≠ -1 → sockets (fd_released p f 0 s) !! fd_unix_fd f = None.
Proof.
  intros Hu. unfold fd_released. state_simpl.
  rewrite (proj2 (Z.eqb_neq _ _) Hu), sockets_closed. apply lookup_delete_eq.
Qed.

Lemma sockets_fd_released_None p f n s u :
  sockets s !! u = None → sockets (fd_released p f n s) !! u = None.
Proof.
  intros Hu. unfold fd_released. destruct n; state_simpl; [|done].
  destruct (Z.eqb _ _); [done|]. rewrite sockets_closed.
  destruct (decide (fd_unix_fd f = u)) as [->|].
  - apply lookup_delete_eq.
  - by rewrite lookup_delete_ne.
Qed.

#[local] Hint Resolve mailslot_at_fd_released fd_at_fd_released : heap.

(** *** Polling, queueing *)

Lemma wp_poll u events sock s Q :
  sockets s !! u = Some sock →
  Q (if readable sock && nonzero (Z.land events POLLIN) then (1, POLLIN) else (0, 0)) s →
  wp (poll u events) s Q.
Proof.
  intros Hs HQ. unfold wp, poll. rewrite Hs. unfold readable, nonzero in HQ.
  destruct (sock_queued sock); [done|]. simpl in HQ.
  by destruct (Z.eqb (Z.land events POLLIN) 0).
Qed.

Lemma wp_mailslot_message_count mailslot m rfd f sock s Q :
  mailslot_at (heap s) mailslot = Some m → fd m = Some rfd →
  fd_at (heap s) rfd = Some f → sockets s !! fd_unix_fd f = Some sock →
  Q (if readable sock then 1 else 0) s →
  wp (mailslot_message_count mailslot) s Q.
Proof.
  intros Hm Hrfd Hf Hs HQ. wp_step wp_get_mailslot. rewrite Hrfd.
  apply wp_bind, wp_ret. wp_step wp_get_unix_fd. wp_step wp_poll.
  apply wp_ret. by destruct (readable sock).
Qed.

Lemma wp_check_fd_events afd f sock events s Q :
  fd_at (heap s) afd = Some f → fd_unix_fd f ≠ -1 →
  sockets s !! fd_unix_fd f = Some sock →
  Q (if readable sock && nonzero (Z.land events POLLIN) then POLLIN else 0) s →
  wp (check_fd_events afd events) s Q.
Proof.
  intros Hf Hu Hs HQ. wp_step wp_get_struct_fd.
  rewrite (proj2 (Z.eqb_neq _ _) Hu). wp_step wp_poll.
  by destruct (readable sock && nonzero (Z.land events POLLIN)).
Qed.

Lemma wp_mem_alloc s Q :
  match mem_free s with
  | O => Q false (set_error_field STATUS_NO_MEMORY s)
  | S n => Q true (set_mem_free n s)
  end →
  wp mem_alloc s Q.
Proof. unfold wp, mem_alloc. by destruct (mem_free s). Qed.

Lemma wp_create_async thread timeout queue m apc user sb s Q :
  mailslot_at (heap s) queue = Some m →
  match mem_free s with
  | O => Q None (set_error_field STATUS_NO_MEMORY s)
  | S n =>
      let a := {| async_thread := thread; async_apc := apc; async_user := user;
                  async_sb := sb; async_timeout := timeout |} in
      Q (Some a) (set_heap (put_body queue (Mailslot (with_read_q m (read_q m ++ [a]))))
                    (set_mem_free n s))
  end →
  wp (create_async thread timeout queue apc user sb) s Q.
Proof.
  intros Hm HQ. apply wp_bind, wp_mem_alloc.
  destruct (mem_free s) as [|n]; [by apply wp_ret|].
  wp_step wp_get_mailslot. wp_step wp_put_mailslot. by apply wp_ret.
Qed.

Lemma wp_mailslot_poll_event afd f mailslot m event s Q :
  fd_at (heap s) afd = Some f → fd_user f = Some mailslot →
  mailslot_at (heap s) mailslot = Some m →
  match read_q m with
  | a :: rest =>
      if nonzero (Z.land POLLIN event)
      then Q tt (set_heap (put_body afd (Fd (with_poll_events f (interest rest))))
                   (head_completed mailslot m a rest STATUS_ALERTED s))
      else Q tt (set_heap (put_body afd (Fd (with_poll_events f POLLIN))) s)
  | [] => Q tt (set_heap (put_body afd (Fd (with_poll_events f 0))) s)
  end →
  wp (mailslot_poll_event afd event) s Q.
Proof.
  intros Hf Hu Hm HQ.
  pose proof (fd_mailslot_ne _ _ _ _ _ Hf Hm) as Hne.
  wp_step wp_get_fd_user. wp_step wp_get_mailslot.
  destruct (read_q m) as [|a rest] eqn:Hq.
  - apply wp_bind, wp_ret. wp_step wp_mailslot_get_poll_events.
    rewrite Hq. by wp_step wp_set_fd_events.
  - destruct (nonzero (Z.land POLLIN event)).
    + wp_step wp_async_terminate_head. rewrite Hq. state_simpl.
      wp_step wp_mailslot_get_poll_events. by wp_step wp_set_fd_events.
    + apply wp_bind, wp_ret. wp_step wp_mailslot_get_poll_events.
      rewrite Hq. by wp_step wp_set_fd_events.
Qed.

Lemma with_read_q_with_read_q m l l' : with_read_q (with_read_q m l) l' = with_read_q m l'.
Proof. done. Qed.

(** The three ways in which [mailslot_queue_async] ends on a read request:
    refused, out of memory, or accepted and served at once. *)
Lemma wp_mailslot_queue_async afd f mailslot m sock apc user iosb count s Q :
  fd_at (heap s) afd = Some f → fd_user f = Some mailslot →
  mailslot_at (heap s) mailslot = Some m → fd m = Some afd →
  fd_unix_fd f ≠ -1 → sockets s !! fd_unix_fd f = Some sock →
  (if bool_decide (writers m = []) || negb (readable sock)
   then Q tt (set_error_field STATUS_IO_TIMEOUT s)
   else match mem_free s with
        | O => Q tt (set_error_field STATUS_NO_MEMORY s)
        | S n =>
            ∀ a rest, read_q m ++ [new_async s m apc user iosb] = a :: rest →
              Q tt (set_heap (put_body afd (Fd (with_poll_events f (interest rest))))
                      (head_completed mailslot
                         (with_read_q m (a :: rest)) a rest STATUS_ALERTED
                         (set_heap
                            (put_body mailslot (Mailslot (with_read_q m (a :: rest))))
                            (set_mem_free n s))))
        end) →
  wp (mailslot_queue_async afd apc user iosb ASYNC_TYPE_READ count) s Q.
Proof.
  intros Hf Hu Hm Hrfd Hunix Hs HQ.
  pose proof (fd_mailslot_ne _ _ _ _ _ Hf Hm) as Hne.
  wp_step wp_get_fd_user. wp_step wp_assert_mailslot_ops.
  change (negb (Z.eqb ASYNC_TYPE_READ ASYNC_TYPE_READ)) with false. cbv iota.
  wp_step wp_get_mailslot.
  destruct (writers m) as [|w ws] eqn:Hw.
  { apply wp_bind, wp_ret. by apply wp_set_error. }
  rewrite bool_decide_false in HQ by done. cbn [orb] in HQ.
  apply wp_bind. wp_step wp_mailslot_message_count. apply wp_ret.
  destruct (readable sock) eqn:Hr; cbn [negb nonzero Z.eqb] in *.
  2: { by apply wp_set_error. }
  apply wp_bind, wp_get_state.
  apply wp_bind, (wp_create_async _ _ _ m); [done|].
  destruct (mem_free s) as [|n]; [by apply wp_ret|]. cbv zeta.
  fold (new_async s m apc user iosb).
  destruct (read_q m ++ [new_async s m apc user iosb]) as [|a rest] eqn:Hq.
  { by destruct (read_q m). }
  specialize (HQ a rest eq_refl).
  wp_step wp_mailslot_get_poll_events.
  wp_step wp_check_fd_events. rewrite Hr.
  change (nonzero (Z.land (interest (a :: rest)) POLLIN)) with true. cbn [andb].
  change (nonzero POLLIN) with true. cbv iota.
  apply (wp_mailslot_poll_event _ f mailslot (with_read_q m (a :: rest))); [heap_solve..|].
  state_simpl. by change (nonzero (Z.land POLLIN POLLIN)) with true.
Qed.

(** *** Allocation *)

Lemma fresh_unallocated h : h !! fresh (dom h) = None.
Proof. apply not_elem_of_dom, is_fresh. Qed.

Lemma wp_alloc_object ops s Q :
  match mem_free s with
  | O => Q None (set_error_field STATUS_NO_MEMORY s)
  | S n =>
      let p := fresh (dom (heap s)) in
      Q (Some p)
        (set_heap <[p := {| refcount := 1; obj_name := None; body := zero_body ops |}]>
           (set_mem_free n s))
  end →
  wp (alloc_object ops) s Q.
Proof.
  intros HQ. apply wp_bind, wp_mem_alloc.
  destruct (mem_free s) as [|n]; [by apply wp_ret|].
  apply wp_bind, wp_get_state. apply wp_bind, wp_store. by apply wp_ret.
Qed.

Lemma body_at_insert h p o q :
  body_at (<[p := o]> h) q = if decide (q = p) then Some (body o) else body_at h q.
Proof.
  unfold body_at. case_decide as Hq.
  - subst. by rewrite lookup_insert_eq.
  - by rewrite lookup_insert_ne.
Qed.

Lemma body_at_None_ne h p q b : h !! p = None → body_at h q = Some b → q ≠ p.
Proof. unfold body_at. intros Hp Hq ->. by rewrite Hp in Hq. Qed.

Lemma mailslot_at_insert h p o q m :
  h !! p = None → mailslot_at h q = Some m → mailslot_at (<[p := o]> h) q = Some m.
Proof.
  intros Hp Hm. unfold mailslot_at in *. rewrite body_at_insert, decide_False; [done|].
  destruct (body_at h q) eqn:E; [|done]. by eapply body_at_None_ne.
Qed.

Lemma mail_writer_at_insert h p o q w :
  h !! p = None → mail_writer_at h q = Some w →
  mail_writer_at (<[p := o]> h) q = Some w.
Proof.
  intros Hp Hm. unfold mail_writer_at in *. rewrite body_at_insert, decide_False; [done|].
  destruct (body_at h q) eqn:E; [|done]. by eapply body_at_None_ne.
Qed.

Lemma fd_at_insert h p o q f :
  h !! p = None → fd_at h q = Some f → fd_at (<[p := o]> h) q = Some f.
Proof.
  intros Hp Hm. unfold fd_at in *. rewrite body_at_insert, decide_False; [done|].
  destruct (body_at h q) eqn:E; [|done]. by eapply body_at_None_ne.
Qed.

Lemma mail_writer_at_insert_eq h p n nm w :
  mail_writer_at (<[p := {| refcount := n; obj_name := nm; body := MailWriter w |}]> h) p
  = Some w.
Proof. unfold mail_writer_at. by rewrite body_at_insert, decide_True. Qed.

Lemma mailslot_at_insert_eq h p n nm m :
  mailslot_at (<[p := {| refcount := n; obj_name := nm; body := Mailslot m |}]> h) p
  = Some m.
Proof. unfold mailslot_at. by rewrite body_at_insert, decide_True. Qed.

Lemma wp_fcntl_nonblock u sock s Q :
  sockets s !! u = Some sock →
  Q tt (set_sockets <[u := {| sock_queued := sock_queued sock; sock_nonblock := true |}]>
          (fds_free s) s) →
  wp (fcntl_nonblock u) s Q.
Proof. intros Hs HQ. unfold wp, fcntl_nonblock. by rewrite Hs. Qed.

Lemma refcount_at_insert_ne h p o q :
  q ≠ p → refcount_at (<[p := o]> h) q = refcount_at h q.
Proof. intros. unfold refcount_at. by rewrite lookup_insert_ne. Qed.

Lemma mailslot_at_refcount h p m : mailslot_at h p = Some m → ∃ n, refcount_at h p = Some n.
Proof.
  intros (o & Ho & _)%mailslot_at_Some. exists (refcount o).
  unfold refcount_at. by rewrite Ho.
Qed.

Lemma mailslot_at_unallocated_ne h p q m : h !! p = None → mailslot_at h q = Some m → q ≠ p.
Proof. intros Hp (o & Ho & _)%mailslot_at_Some ->. congruence. Qed.

#[local] Hint Resolve mailslot_at_insert mail_writer_at_insert fd_at_insert
  mailslot_at_insert_eq fresh_unallocated : heap.

(** *** The test of the sharing arbitrator *)

Lemma nonzero_true z : nonzero z = true ↔ z ≠ 0.
Proof. unfold nonzero. rewrite negb_true_iff. apply Z.eqb_neq. Qed.

Lemma sharing_conflict_spec acc shr w :
  sharing_conflict acc shr w = true ↔
  (includes acc GENERIC_WRITE ∨ includes (access w) GENERIC_WRITE) ∧
  ¬ (includes shr FILE_SHARE_WRITE ∧ includes (sharing w) FILE_SHARE_WRITE).
Proof.
  unfold sharing_conflict, includes.
  rewrite andb_true_iff, orb_true_iff, negb_true_iff, <- not_true_iff_false,
    andb_true_iff, !nonzero_true. done.
Qed.

(** *** Handles, names, peeking *)

Lemma wp_get_handle handle s Q :
  Q (handle_entry_of s handle) s → wp (get_handle handle) s Q.
Proof.
  unfold wp, get_handle, handle_entry_of. by destruct (Z.leb 1 (Z.shiftr handle 2)).
Qed.

Lemma wp_get_mailslot_obj handle entry m k s Q :
  handle_entry_of s handle = Some entry →
  mailslot_at (heap s) (entry_ptr entry) = Some m →
  refcount_at (heap s) (entry_ptr entry) = Some k →
  Q (Some (entry_ptr entry)) (set_heap (put_refcount (entry_ptr entry) (S k)) s) →
  wp (get_mailslot_obj handle 0) s Q.
Proof.
  intros He Hm Hk HQ. unfold get_mailslot_obj, get_handle_obj.
  apply wp_bind, wp_get_handle. rewrite He.
  rewrite Z.land_0_r. change (negb (Z.eqb 0 0)) with false. cbv iota.
  pose proof Hm as (o & Ho & Hb)%mailslot_at_Some.
  apply wp_bind, (wp_deref _ o); [done|].
  unfold obj_ops. rewrite Hb, decide_True by done.
  wp_step wp_grab_object. by apply wp_ret.
Qed.

Lemma wp_release_mailslot_keep mailslot m k s Q :
  mailslot_at (heap s) mailslot = Some m →
  refcount_at (heap s) mailslot = Some (S (S k)) →
  Q tt (set_heap (put_refcount mailslot (S k)) s) →
  wp (release_mailslot mailslot) s Q.
Proof.
  intros Hm Hk HQ. wp_step wp_get_mailslot. by apply (wp_release_keep _ _ k).
Qed.

Lemma wp_release_object_keep obj k s Q :
  refcount_at (heap s) obj = Some (S (S k)) →
  Q tt (set_heap (put_refcount obj (S k)) s) →
  wp (release_object obj) s Q.
Proof.
  intros Hk HQ. pose proof Hk as (o & Ho & _)%refcount_at_Some.
  apply wp_bind, (wp_deref _ o); [done|].
  destruct (obj_ops o); by apply (wp_release_keep _ _ k).
Qed.

Lemma grab_release_same p k s :
  refcount_at (heap s) p = Some k →
  set_heap (put_refcount p k) (set_heap (put_refcount p (S k)) s) = s.
Proof.
  intros Hk. apply server_eq; state_simpl; try done.
  rewrite put_refcount_put_refcount. by apply put_refcount_same.
Qed.

Lemma wp_find_object name len s Q :
  match sync_namespace s !! name_key name len with
  | None => Q None s
  | Some p =>
      ∃ k, refcount_at (heap s) p = Some k ∧
           Q (Some p) (set_heap (put_refcount p (S k)) s)
  end →
  wp (find_object name len) s Q.
Proof.
  intros HQ. apply wp_bind, wp_get_state.
  destruct (sync_namespace s !! name_key name len) as [p|]; [|by apply wp_ret].
  destruct HQ as (k & Hk & HQ). wp_step wp_grab_object. by apply wp_ret.
Qed.

Lemma wp_recv_peek u len sock s Q :
  sockets s !! u = Some sock → sock_nonblock sock = true →
  Q (match sock_queued sock with
     | [] => -1
     | size :: _ => Z.of_N size
     end) s →
  wp (recv u len (Z.lor MSG_PEEK MSG_TRUNC)) s Q.
Proof.
  intros Hs Hnb HQ. unfold wp, recv. rewrite Hs, Hnb.
  by destruct (sock_queued sock).
Qed.

Lemma refcount_at_put_refcount_eq h p n k :
  refcount_at h p = Some k → refcount_at (put_refcount p n h) p = Some n.
Proof. intros Hk. by rewrite refcount_at_put_refcount, decide_True, Hk. Qed.

(** *** Parts of the state that a computation leaves alone *)

Lemma preserves_ret {A B} (proj : server → B) (a : A) : preserves proj (ret a).
Proof. by intros s b s' [= <- <-]. Qed.

Lemma preserves_raise {A B} (proj : server → B) f : preserves proj (raise (A:=A) f).
Proof. by intros s b s' [=]. Qed.

Lemma preserves_bind {A B C} (proj : server → C) (m : M A) (k : A → M B) :
  preserves proj m → (∀ a, preserves proj (k a)) → preserves proj (bind m k).
Proof.
  intros Hm Hk s b s'. unfold bind. destruct (m s) as [a s1|] eqn:E; [|done].
  intros H. rewrite (Hk _ _ _ _ H). eauto.
Qed.

Lemma preserves_get_state {B} (proj : server → B) : preserves proj get_state.
Proof. by intros s b s' [= <- <-]. Qed.

Lemma preserves_modify {B} (proj : server → B) g :
  (∀ s, proj (g s) = proj s) → preserves proj (modify g).
Proof. intros Hg s b s' [= <- <-]. apply Hg. Qed.

Lemma preserves_deref {B} (proj : server → B) p : preserves proj (deref p).
Proof. intros s b s'. unfold deref. destruct (heap s !! p); [|done]. by intros [= <- <-]. Qed.

Lemma preserves_close {B} (proj : server → B) u :
  (∀ g n s, proj (set_sockets g n s) = proj s) → preserves proj (close u).
Proof.
  intros Hp s b s'. unfold close. destruct (sockets s !! u); intros [= <- <-]; [|done].
  apply Hp.
Qed.

Lemma preserves_repeat_M {B} (proj : server → B) n c :
  preserves proj c → preserves proj (repeat_M n c).
Proof.
  intros Hc. induction n as [|n IH]; cbn [repeat_M].
  - apply preserves_ret.
  - by apply preserves_bind.
Qed.

(** The steps that only read the heap or write one object. *)
Ltac preserves_step :=
  first
    [ apply preserves_ret
    | apply preserves_raise
    | apply preserves_get_state
    | apply preserves_deref
    | apply preserves_modify; intros; reflexivity
    | apply preserves_close; intros; reflexivity
    | apply preserves_repeat_M
    | apply preserves_bind; [|intros ?]
    | match goal with
      | |- preserves _ (match ?x with _ => _ end) => destruct x
      end ].

Ltac preserves_tac :=
  repeat first
    [ preserves_step
    | progress unfold get_mailslot, put_mailslot, get_struct_fd, get_mail_writer,
        put_mail_writer, store, assert_ptr, nonnull, thread_queue_apc,
        async_terminate_head, async_terminate_queue, fd_destroy, free_object,
        release_fd, release_with, set_error, clear_error ].

Lemma mailslot_destroy_handles obj : preserves handles (mailslot_destroy obj).
Proof. unfold mailslot_destroy. preserves_tac. Qed.

Lemma release_mailslot_handles mailslot : preserves handles (release_mailslot mailslot).
Proof.
  unfold release_mailslot, release_with. preserves_tac.
Qed.

Lemma alloc_handle_inv obj acc inherit s handle s' :
  alloc_handle obj acc inherit s = Done handle s' →
  handle = 0 ∨
  (handle = index_to_handle (length (handles s)) ∧
   handles s' = handles s ++ [{| entry_ptr := obj; entry_access := acc;
                                 entry_inherit := inherit |}] ∧
   ∃ k, refcount_at (heap s) obj = Some k ∧
        heap s' = put_refcount obj (S k) (heap s)).
Proof.
  cbv [alloc_handle bind mem_alloc grab_object deref store modify get_state ret].
  destruct (mem_free s); [intros [= <- <-]; by left|].
  state_simpl. destruct (heap s !! obj) as [o|] eqn:Ho; [|done].
  intros [= <- <-]. right. split_and!; [done..|].
  exists (refcount o). state_simpl. split.
  - unfold refcount_at. by rewrite Ho.
  - by apply insert_with_refcount.
Qed.

Lemma handle_entry_of_new s (l : list handle_entry) e :
  handles s = l ++ [e] → handle_entry_of s (index_to_handle (length l)) = Some e.
Proof.
  intros Hl. unfold handle_entry_of, index_to_handle.
  rewrite Z.shiftr_shiftl_l by lia. change (2 - 2) with 0. rewrite Z.shiftl_0_r.
  rewrite (proj2 (Z.leb_le _ _)) by lia.
  replace (Z.to_nat (Z.of_nat (length l) + 1 - 1)) with (length l) by lia.
  rewrite Hl. apply list_lookup_middle. done.
Qed.

(** *** Comparing names *)


Lemma slot_token : take 9 slot = token ∧ strlenW slot = 9.
Proof. done. Qed.



(** *** The error that [create_mailslot] leaves *)

Lemma wlp_done {A} (c : M A) s Q : wlp c s Q ↔ ∀ a s', c s = Done a s' → Q a s'.
Proof.
  unfold wlp. destruct (c s) as [a s'|f]; split; try done.
  - by intros H a0 s0 [= <- <-].
  - eauto.
Qed.

Lemma wlp_ret {A} (a : A) s Q : Q a s → wlp (ret a) s Q.
Proof. done. Qed.

Lemma wlp_bind {A B} (m : M A) (k : A → M B) s Q :
  wlp m s (fun a s' => wlp (k a) s' Q) → wlp (bind m k) s Q.
Proof. unfold wlp, bind. by destruct (m s). Qed.


Lemma wlp_set_error e s Q : Q tt (set_error_field e s) → wlp (set_error e) s Q.
Proof. done. Qed.

Lemma wlp_get_error s Q : Q (error s) s → wlp get_error s Q.
Proof. done. Qed.

Lemma preserves_socketpair {B} (proj : server → B) :
  (∀ g n s, proj (set_sockets g n s) = proj s) → preserves proj socketpair.
Proof.
  intros Hp s r s'. unfold socketpair.
  destruct (fds_free s) as [|[|n]]; intros [= <- <-]; first [done | apply Hp].
Qed.

Lemma preserves_fcntl_nonblock {B} (proj : server → B) u :
  (∀ g n s, proj (set_sockets g n s) = proj s) → preserves proj (fcntl_nonblock u).
Proof.
  intros Hp s r s'. unfold fcntl_nonblock.
  destruct (sockets s !! u); intros [= <- <-]; first [done | apply Hp].
Qed.










(** *** What [create_mailslot] builds *)

Lemma wp_wlp {A} (c : M A) s Q : wp c s Q → wlp c s Q.
Proof. unfold wp, wlp. by destruct (c s). Qed.

Lemma wlp_any {A} (c : M A) s : wlp c s (fun _ _ => True).
Proof. unfold wlp. by destruct (c s). Qed.

Lemma wlp_mono {A} (c : M A) s (Q Q' : A → server → Prop) :
  wlp c s Q → (∀ a s', Q a s' → Q' a s') → wlp c s Q'.
Proof. unfold wlp. destruct (c s); auto. Qed.

Lemma wlp_then_none {A B} (c : M A) s (Q : option B → server → Prop) :
  (∀ s', Q None s') → wlp (c ;;; ret None) s Q.
Proof.
  intros HQ. apply wlp_bind, (wlp_mono _ _ _ _ (wlp_any c s)).
  intros _ s' _. apply wlp_ret, HQ.
Qed.

Lemma wlp_find_object name len s Q :
  Q None s → (∀ p s', Q (Some p) s') → wlp (find_object name len) s Q.
Proof.
  intros HN HS. unfold wlp, find_object, bind, get_state.
  destruct (sync_namespace s !! name_key name len) as [p|]; [|done].
  destruct (grab_object p s) as [q s'|]; [|done]. apply HS.
Qed.

Lemma wlp_alloc_object_fresh ops s Q :
  (∀ s', Q None s') →
  (∀ n, mem_free s = S n →
     Q (Some (fresh (dom (heap s))))
       (set_heap <[fresh (dom (heap s)) :=
                     {| refcount := 1; obj_name := None; body := zero_body ops |}]>
          (set_mem_free n s))) →
  wlp (alloc_object ops) s Q.
Proof.
  intros HN HS. unfold wlp, alloc_object, bind, mem_alloc.
  destruct (mem_free s) as [|n]; [apply HN|]. by apply HS.
Qed.

Lemma wlp_create_anonymous_fd_fresh ops u user s Q :
  (∀ s', Q None s') →
  (∀ n, mem_free s = S n →
     Q (Some (fresh (dom (heap s))))
       (set_heap <[fresh (dom (heap s)) :=
                     {| refcount := 1; obj_name := None;
                        body := Fd {| fd_fd_ops := ops; fd_unix_fd := u;
                                      fd_user := Some user; fd_poll_events := 0 |} |}]>
          (set_mem_free n s))) →
  wlp (create_anonymous_fd ops u user) s Q.
Proof.
  intros HN HS. apply wlp_bind, wlp_alloc_object_fresh.
  - intros s'. by apply wlp_then_none.
  - intros n Hn. apply wp_wlp.
    apply wp_bind, (wp_deref _ {| refcount := 1; obj_name := None;
                                  body := zero_body fd_object_ops |}).
    { state_simpl. apply lookup_insert_eq. }
    apply wp_bind, wp_store, wp_ret. specialize (HS n Hn).
    match goal with |- Q _ ?x => match type of HS with Q _ ?y =>
      replace x with y; [done|] end end.
    apply server_eq; state_simpl; try done. symmetry. apply insert_insert_eq.
Qed.

Lemma wlp_socketpair s Q :
  Q None s →
  (∀ n, fds_free s = S (S n) →
     let a := fresh (dom (sockets s)) in
     let b := fresh ({[a]} ∪ dom (sockets s)) in
     let empty := {| sock_queued := []; sock_nonblock := false |} in
     Q (Some (a, b)) (set_sockets (fun k => <[b := empty]> (<[a := empty]> k)) n s)) →
  wlp socketpair s Q.
Proof.
  intros HN HS. unfold wlp, socketpair.
  destruct (fds_free s) as [|[|n]]; [done..|]. by apply HS.
Qed.

Lemma fresh_pair_ne (k : gmap Z unix_socket) :
  fresh (dom k) ≠ fresh ({[fresh (dom k)]} ∪ dom k).
Proof.
  intros Heq. pose proof (is_fresh ({[fresh (dom k)]} ∪ dom k)) as Hf.
  rewrite <- Heq in Hf. set_solver.
Qed.

(** A mailslot that [create_mailslot] returns has the requested maximum
    message size and read timeout, no writer and no pending read, and two
    distinct [struct fd] that it owns: it reads from one, which has the
    mailslot operations, and is written through the other, which has the
    writer operations; their non-blocking sockets are the two ends of one
    socket pair and have nothing queued. *)
Lemma create_mailslot_builds tolowerW name len max_msgsize_ read_timeout_ s mailslot s' :
  create_mailslot tolowerW name len max_msgsize_ read_timeout_ s = Done (Some mailslot) s' →
  ∃ rfd wfd u0 u1,
    mailslot_at (heap s') mailslot
      = Some {| fd := Some rfd; write_fd := Some wfd; max_msgsize := max_msgsize_;
                read_timeout := read_timeout_; writers := []; read_q := [] |} ∧
    rfd ≠ wfd ∧ u0 ≠ u1 ∧
    fd_at (heap s') rfd
      = Some {| fd_fd_ops := mailslot_fd_ops; fd_unix_fd := u1; fd_user := Some mailslot;
                fd_poll_events := 0 |} ∧
    fd_at (heap s') wfd
      = Some {| fd_fd_ops := mail_writer_fd_ops; fd_unix_fd := u0; fd_user := Some mailslot;
                fd_poll_events := 0 |} ∧
    sockets s' !! u1 = Some {| sock_queued := []; sock_nonblock := true |} ∧
    sockets s' !! u0 = Some {| sock_queued := []; sock_nonblock := true |} ∧
    refcount_at (heap s') rfd = Some 1%nat ∧ refcount_at (heap s') wfd = Some 1%nat ∧
    refcount_at (heap s') mailslot = Some 1%nat ∧
    sync_namespace s' !! name_key name len = Some mailslot.
Proof.
  set (Post := fun (r : option ptr) (s' : server) =>
    ∀ mailslot, r = Some mailslot →
    ∃ rfd wfd u0 u1,
      mailslot_at (heap s') mailslot
        = Some {| fd := Some rfd; write_fd := Some wfd; max_msgsize := max_msgsize_;
                  read_timeout := read_timeout_; writers := []; read_q := [] |} ∧
      rfd ≠ wfd ∧ u0 ≠ u1 ∧
      fd_at (heap s') rfd
        = Some {| fd_fd_ops := mailslot_fd_ops; fd_unix_fd := u1;
                  fd_user := Some mailslot; fd_poll_events := 0 |} ∧
      fd_at (heap s') wfd
        = Some {| fd_fd_ops := mail_writer_fd_ops; fd_unix_fd := u0;
                  fd_user := Some mailslot; fd_poll_events := 0 |} ∧
      sockets s' !! u1 = Some {| sock_queued := []; sock_nonblock := true |} ∧
      sockets s' !! u0 = Some {| sock_queued := []; sock_nonblock := true |} ∧
      refcount_at (heap s') rfd = Some 1%nat ∧ refcount_at (heap s') wfd = Some 1%nat ∧
      refcount_at (heap s') mailslot = Some 1%nat ∧
      sync_namespace s' !! name_key name len = Some mailslot).
  cut (wlp (create_mailslot tolowerW name len max_msgsize_ read_timeout_) s Post).
  { intros Hwlp Heq. by apply (proj1 (wlp_done _ _ _) Hwlp _ _ Heq). }
  assert (∀ s0, Post None s0) as HNone by (by intros s0 p [=]).
  unfold create_mailslot. destruct (name_refused tolowerW name len) eqn:Href.
  { by apply wlp_then_none. }
  assert (Z.eqb len 0 = false) as Hlen.
  { unfold name_refused in Href. apply orb_false_iff in Href as [Hle%Z.leb_gt _].
    change (strlenW slot) with 9 in Hle. lia. }
  apply wlp_bind. unfold create_named_object. rewrite Hlen.
  apply wlp_bind, wlp_find_object.
  2: { (* the name is taken: a collision or a mismatch, and no mailslot *)
    intros obj s1. apply wlp_bind. apply (wlp_mono _ _ _ _ (wlp_any _ _)).
    intros o s2 _. case_decide.
    - apply wlp_bind, wlp_set_error, wlp_ret. apply wlp_bind, wlp_get_error.
      state_simpl. rewrite decide_True by done. by apply wlp_then_none.
    - apply wlp_bind. apply (wlp_mono _ _ _ _ (wlp_any _ _)).
      intros _ s3 _. apply wlp_bind, wlp_set_error, wlp_ret, wlp_ret, HNone. }
  apply wlp_bind, wlp_alloc_object_fresh.
  { intros s1. apply wlp_ret, wlp_ret, HNone. }
  intros n Hn. set (p := fresh (dom (heap s))).
  apply wlp_bind, wp_wlp, (wp_deref _ {| refcount := 1; obj_name := None;
                                         body := zero_body mailslot_ops |}).
  { state_simpl. apply lookup_insert_eq. }
  apply wlp_bind, wp_wlp, wp_store. apply wlp_bind, wp_wlp, wp_modify.
  apply wlp_bind, wlp_set_error, wlp_ret. apply wlp_bind, wlp_get_error.
  state_simpl. rewrite decide_False by done.
  cbn [refcount obj_name body zero_body].
  apply wlp_bind, wp_wlp. eapply wp_put_mailslot; [heap_solve|].
  apply wlp_bind, wlp_socketpair.
  { apply wlp_bind, wlp_set_error. by apply wlp_then_none. }
  intros k Hk a b empty. state_simpl.
  assert (a ≠ b) as Hab by apply fresh_pair_ne.
  apply wlp_bind, wp_wlp. eapply wp_fcntl_nonblock.
  { state_simpl. rewrite lookup_insert_ne by done. apply lookup_insert_eq. }
  apply wlp_bind, wp_wlp. eapply wp_fcntl_nonblock.
  { state_simpl. rewrite lookup_insert_ne by done. apply lookup_insert_eq. }
  cbn [sock_queued empty].
  apply wlp_bind, wlp_create_anonymous_fd_fresh; state_simpl.
  { (* no memory for the first struct fd: the mailslot is given up *)
    intros s1. do 2 (apply wlp_bind; apply (wlp_mono _ _ _ _ (wlp_any _ _)); intros ? ? _).
    apply wlp_bind. apply (wlp_mono _ _ _ _ (wlp_any _ _)). intros wfd ? _.
    do 2 (apply wlp_bind; apply (wlp_mono _ _ _ _ (wlp_any _ _)); intros ? ? _).
    cbn [is_set andb]. by apply wlp_then_none. }
  intros n1 Hn1.
  match goal with |- context [fresh (dom ?h)] =>
    match h with
    | put_body _ _ _ => set (h2 := h)
    end
  end.
  set (rfd := fresh (dom h2)).
  set (m0 := {| fd := None; write_fd := None; max_msgsize := max_msgsize_;
                read_timeout := read_timeout_; writers := []; read_q := [] |}) in *.
  assert (mailslot_at h2 p = Some m0) as Hm2 by (unfold h2; heap_solve).
  assert (h2 !! rfd = None) as Hrfd by apply fresh_unallocated.
  pose proof (mailslot_at_unallocated_ne _ _ _ _ Hrfd Hm2) as Hne1.
  apply wlp_bind, wp_wlp. eapply wp_get_mailslot; [heap_solve|].
  apply wlp_bind, wp_wlp. eapply wp_put_mailslot; [heap_solve|]. state_simpl.
  cbn [with_fd fd write_fd max_msgsize read_timeout writers read_q m0].
  apply wlp_bind, wlp_create_anonymous_fd_fresh; state_simpl.
  { (* no memory for the second struct fd *)
    intros s1. do 2 (apply wlp_bind; apply (wlp_mono _ _ _ _ (wlp_any _ _)); intros ? ? _).
    cbn [is_set andb]. by apply wlp_then_none. }
  intros n2 Hn2.
  match goal with |- context [fresh (dom ?h)] =>
    match h with
    | put_body _ _ (<[rfd := _]> _) => set (h4 := h)
    end
  end.
  set (wfd := fresh (dom h4)).
  set (m1 := {| fd := Some rfd; write_fd := None; max_msgsize := max_msgsize_;
                read_timeout := read_timeout_; writers := []; read_q := [] |}) in *.
  set (fr := {| fd_fd_ops := mailslot_fd_ops; fd_unix_fd := b; fd_user := Some p;
                fd_poll_events := 0 |}) in *.
  assert (mailslot_at h4 p = Some m1) as Hm4 by (unfold h4; heap_solve).
  assert (fd_at h4 rfd = Some fr) as Hfr4.
  { unfold h4. apply fd_at_put_ne; [done|]. unfold fd_at.
    by rewrite body_at_insert, decide_True. }
  assert (h4 !! wfd = None) as Hwfd by apply fresh_unallocated.
  pose proof (mailslot_at_unallocated_ne _ _ _ _ Hwfd Hm4) as Hne2.
  assert (rfd ≠ wfd) as Hne3.
  { intros Heq. rewrite <- Heq in Hwfd. apply fd_at_Some in Hfr4 as (o & Ho & _).
    congruence. }
  apply wlp_bind, wp_wlp. eapply wp_get_mailslot; [heap_solve|].
  apply wlp_bind, wp_wlp. eapply wp_put_mailslot; [heap_solve|]. state_simpl.
  cbn [is_set andb]. apply wlp_ret.
  intros q [= <-]. exists rfd, wfd, a, b. state_simpl.
  cbn [with_write_fd fd write_fd max_msgsize read_timeout writers read_q m1].
  split_and!; try done.
  - eapply mailslot_at_put_eq. heap_solve.
  - apply fd_at_put_ne; [done|]. by apply fd_at_insert.
  - apply fd_at_put_ne; [done|]. unfold fd_at.
    by rewrite body_at_insert, decide_True.
  - apply lookup_insert_eq.
  - rewrite lookup_insert_ne by done. apply lookup_insert_eq.
  - rewrite refcount_at_put_body, refcount_at_insert_ne by done.
    unfold h4. rewrite refcount_at_put_body. unfold refcount_at.
    by rewrite lookup_insert_eq.
  - rewrite refcount_at_put_body. unfold refcount_at. by rewrite lookup_insert_eq.
  - rewrite refcount_at_put_body, refcount_at_insert_ne by done.
    unfold h4. rewrite refcount_at_put_body, refcount_at_insert_ne by done.
    unfold h2. rewrite refcount_at_put_body. unfold refcount_at.
    by rewrite lookup_insert_eq.
  - apply lookup_insert_eq.
Qed.

(** ** The claims *)

(** C1, as the code has it.  A read request on a mailslot fails at once
    with STATUS_IO_TIMEOUT, nothing else having changed, exactly when the
    writer list is empty or the socket has no datagram to read; with a
    writer, a datagram and memory for the request, the request joins the
    tail of the queue, no error is set, and the head of the queue is served
    before the call returns. *)
Theorem queue_async_refusal s afd f mailslot m sock apc user iosb count :
  fd_at (heap s) afd = Some f → fd_user f = Some mailslot →
  mailslot_at (heap s) mailslot = Some m → fd m = Some afd →
  fd_unix_fd f ≠ -1 → sockets s !! fd_unix_fd f = Some sock →
  (mailslot_queue_async afd apc user iosb ASYNC_TYPE_READ count s
     = Done tt (set_error_field STATUS_IO_TIMEOUT s)
   ↔ writers m = [] ∨ sock_queued sock = []) ∧
  (writers m ≠ [] → sock_queued sock ≠ [] → mem_free s ≠ O →
   ∃ s' a rest,
     mailslot_queue_async afd apc user iosb ASYNC_TYPE_READ count s = Done tt s' ∧
     read_q m ++ [new_async s m apc user iosb] = a :: rest ∧
     mailslot_at (heap s') mailslot = Some (with_read_q m rest) ∧
     apcs s' = apcs s ++ [(a, STATUS_ALERTED)] ∧
     error s' = error s).
Proof.
  intros Hf Hu Hm Hrfd Hunix Hs.
  pose proof (fd_mailslot_ne _ _ _ _ _ Hf Hm) as Hne.
  assert (readable sock = false ↔ sock_queued sock = []) as Hread.
  { unfold readable. destruct (sock_queued sock); naive_solver. }
  pose proof (wp_mailslot_queue_async afd f mailslot m sock apc user iosb count s) as Hrun.
  split; [split|].
  - (* a refusal comes from one of the two tests *)
    intros Heq.
    destruct (decide (writers m = [])) as [|Hw]; [by left|]. right.
    destruct (readable sock) eqn:Hr; [exfalso|by apply Hread].
    specialize (Hrun (fun _ s' => s' ≠ set_error_field STATUS_IO_TIMEOUT s)
                  Hf Hu Hm Hrfd Hunix Hs).
    rewrite bool_decide_false in Hrun by done. cbn [orb negb] in Hrun.
    unfold wp in Hrun. rewrite Heq in Hrun. apply Hrun; [|done].
    destruct (mem_free s) as [|n].
    + intros [=].
    + intros a rest _ Habs. apply (f_equal (fun t => length (apcs t))) in Habs.
      revert Habs. state_simpl. rewrite length_app. simpl. lia.
  - intros Hor. apply wp_done_eq, Hrun; try done.
    destruct Hor as [Hw|Hq%Hread].
    + by rewrite bool_decide_true.
    + rewrite Hq. by rewrite orb_true_r.
  - intros Hw Hq Hmem.
    assert (readable sock = true) as Hr.
    { unfold readable. destruct (sock_queued sock); [congruence|done]. }
    cut (wp (mailslot_queue_async afd apc user iosb ASYNC_TYPE_READ count) s
           (fun _ s' => ∃ a rest,
              read_q m ++ [new_async s m apc user iosb] = a :: rest ∧
              mailslot_at (heap s') mailslot = Some (with_read_q m rest) ∧
              apcs s' = apcs s ++ [(a, STATUS_ALERTED)] ∧ error s' = error s)).
    { intros ([] & s' & ? & a & rest & ?)%wp_done. by exists s', a, rest. }
    apply Hrun; try done.
    rewrite bool_decide_false, Hr by done. cbn [orb negb].
    destruct (mem_free s) as [|n]; [done|].
    intros a rest Heq. exists a, rest. split_and!; heap_solve.
Qed.

(** C2.  When a mailslot already has writers, [create_mail_writer] looks at
    the writer at the head of the list: it fails with
    STATUS_SHARING_VIOLATION, changing nothing else, exactly when the
    requested access or that writer's access includes GENERIC_WRITE while
    the two sharing masks do not both include FILE_SHARE_WRITE.  Otherwise,
    the object allocator permitting, a new writer carrying the requested
    access and sharing is created and put at the head of the list. *)
Theorem create_mail_writer_admission s mailslot m head others w0 acc shr :
  mailslot_at (heap s) mailslot = Some m →
  writers m = head :: others →
  mail_writer_at (heap s) head = Some w0 →
  let violation :=
    (includes acc GENERIC_WRITE ∨ includes (access w0) GENERIC_WRITE) ∧
    ¬ (includes shr FILE_SHARE_WRITE ∧ includes (sharing w0) FILE_SHARE_WRITE) in
  (create_mail_writer mailslot acc shr s
     = Done None (set_error_field STATUS_SHARING_VIOLATION s) ↔ violation) ∧
  (¬ violation → mem_free s ≠ O →
   ∃ writer s',
     create_mail_writer mailslot acc shr s = Done (Some writer) s' ∧
     heap s !! writer = None ∧
     mail_writer_at (heap s') writer
       = Some {| writer_mailslot := Some mailslot; access := acc; sharing := shr |} ∧
     mailslot_at (heap s') mailslot = Some (with_writers m (writer :: head :: others)) ∧
     error s' = error s).
Proof.
  intros Hm Hw Hhead violation.
  pose proof (sharing_conflict_spec acc shr w0) as Hspec. fold violation in Hspec.
  destruct (mailslot_at_refcount _ _ _ Hm) as [k Hk].
  set (Post := fun (r : option ptr) (s' : server) =>
    if sharing_conflict acc shr w0 then
      r = None ∧ s' = set_error_field STATUS_SHARING_VIOLATION s
    else match mem_free s with
         | O => r = None ∧ s' = set_error_field STATUS_NO_MEMORY s
         | S _ => ∃ writer, r = Some writer ∧ heap s !! writer = None ∧
             mail_writer_at (heap s') writer
               = Some {| writer_mailslot := Some mailslot; access := acc; sharing := shr |} ∧
             mailslot_at (heap s') mailslot
               = Some (with_writers m (writer :: head :: others)) ∧
             error s' = error s
         end).
  assert (wp (create_mail_writer mailslot acc shr) s Post) as Hrun.
  { unfold Post. wp_step wp_get_mailslot. rewrite Hw.
    apply wp_bind. wp_step wp_get_mail_writer. apply wp_ret.
    destruct (sharing_conflict acc shr w0).
    { apply wp_bind, wp_set_error. by apply wp_ret. }
    apply wp_bind, wp_alloc_object.
    destruct (mem_free s) as [|n]; [by apply wp_ret|]. cbv zeta.
    set (writer := fresh (dom (heap s))).
    assert (heap s !! writer = None) as Hfresh by apply fresh_unallocated.
    pose proof (mailslot_at_unallocated_ne _ _ _ _ Hfresh Hm) as Hne.
    apply wp_bind, (wp_grab_object _ k).
    { state_simpl. by rewrite refcount_at_insert_ne. }
    state_simpl.
    apply wp_bind, (wp_put_mail_writer _ (Build_struct_mail_writer None 0 0)).
    { state_simpl. apply mail_writer_at_put_refcount, mail_writer_at_insert_eq. }
    state_simpl.
    wp_step wp_get_mailslot. wp_step wp_put_mailslot. apply wp_ret.
    exists writer. rewrite Hw. split_and!; [done|done| |heap_solve|done].
    apply mail_writer_at_put_ne; [done|].
    eapply mail_writer_at_put_eq, mail_writer_at_put_refcount, mail_writer_at_insert_eq. }
  apply wp_done in Hrun as (r & s' & Heq & HPost). unfold Post in HPost.
  split; [split|].
  - intros Hres. apply Hspec. rewrite Hres in Heq. injection Heq as <- <-.
    destruct (sharing_conflict acc shr w0); [done|].
    destruct (mem_free s).
    + destruct HPost as [_ [=]%(f_equal error)].
    + by destruct HPost as (? & [=] & _).
  - intros Hv%Hspec. rewrite Hv in HPost. by destruct HPost as [-> ->].
  - intros Hv Hmem.
    destruct (sharing_conflict acc shr w0); [by destruct Hv; apply Hspec|].
    destruct (mem_free s); [done|].
    destruct HPost as (writer & -> & ?). by exists writer, s'.
Qed.

(** C3.  A readability event on a mailslot with a non-empty queue
    completes the head of the queue, and only it, with STATUS_ALERTED: one
    APC is queued, the other requests stay queued in their order, and the
    descriptor is armed again for POLLIN exactly when a request is left. *)
Theorem poll_event_completes_head s fd f mailslot m a rest event :
  fd_at (heap s) fd = Some f → fd_user f = Some mailslot →
  mailslot_at (heap s) mailslot = Some m →
  read_q m = a :: rest →
  Z.land POLLIN event ≠ 0 →
  ∃ s', mailslot_poll_event fd event s = Done tt s' ∧
        apcs s' = apcs s ++ [(a, STATUS_ALERTED)] ∧
        mailslot_at (heap s') mailslot = Some (with_read_q m rest) ∧
        fd_at (heap s') fd =
          Some (with_poll_events f (match rest with [] => 0 | _ :: _ => POLLIN end)).
Proof.
  intros Hf Hu Hm Hq Hev.
  pose proof (fd_mailslot_ne _ _ _ _ _ Hf Hm) as Hne.
  apply wp_done_unit.
  wp_step wp_get_fd_user. wp_step wp_get_mailslot.
  rewrite Hq. unfold nonzero. rewrite (proj2 (Z.eqb_neq _ _) Hev). cbn [negb].
  wp_step wp_async_terminate_head. rewrite Hq. state_simpl.
  wp_step wp_mailslot_get_poll_events.
  wp_step wp_set_fd_events.
  split_and!; heap_solve.
Qed.

(** C4.  Both [mailslot_cancel_async] and [mailslot_destroy] complete every
    queued request with STATUS_CANCELLED, head first, and leave the queue
    empty; [mailslot_destroy] moreover drops one reference of each of the
    two [struct fd], and a descriptor whose last reference goes is closed. *)
Theorem cancel_and_destroy_cancel_all s afd f mailslot m rfd wfd fr fw nr nw :
  mailslot_at (heap s) mailslot = Some m →
  fd_at (heap s) afd = Some f → fd_user f = Some mailslot →
  fd m = Some rfd → write_fd m = Some wfd → rfd ≠ wfd →
  fd_at (heap s) rfd = Some fr → fd_at (heap s) wfd = Some fw →
  refcount_at (heap s) rfd = Some (S nr) → refcount_at (heap s) wfd = Some (S nw) →
  let cancelled := map (fun a => (a, STATUS_CANCELLED)) (read_q m) in
  let dropped (n : nat) := match n with O => None | S k => Some (S k) end in
  (∃ s', mailslot_cancel_async afd s = Done tt s' ∧
         apcs s' = apcs s ++ cancelled ∧
         mailslot_at (heap s') mailslot = Some (with_read_q m [])) ∧
  (∃ s', mailslot_destroy mailslot s = Done tt s' ∧
         apcs s' = apcs s ++ cancelled ∧
         mailslot_at (heap s') mailslot = Some (with_read_q m []) ∧
         refcount_at (heap s') rfd = dropped nr ∧
         refcount_at (heap s') wfd = dropped nw ∧
         (nr = O → fd_unix_fd fr ≠ -1 → sockets s' !! fd_unix_fd fr = None) ∧
         (nw = O → fd_unix_fd fw ≠ -1 → sockets s' !! fd_unix_fd fw = None)).
Proof.
  intros Hm Hf Hu Hrfd Hwfd Hne Hfr Hfw Hnr Hnw cancelled dropped.
  pose proof (fd_mailslot_ne _ _ _ _ _ Hfr Hm) as Hne1.
  pose proof (fd_mailslot_ne _ _ _ _ _ Hfw Hm) as Hne2.
  split; apply wp_done_unit.
  - wp_step wp_get_fd_user. wp_step wp_assert_mailslot_ops.
    wp_step wp_async_terminate_queue. split; heap_solve.
  - wp_step wp_get_mailslot. rewrite Hrfd, Hwfd.
    apply wp_bind, wp_ret. apply wp_bind, wp_ret.
    wp_step wp_async_terminate_queue.
    set (s1 := queue_terminated _ _ _ _).
    assert (refcount_at (heap s1) rfd = Some (S nr)) as Hnr1
      by (unfold s1; state_simpl; by rewrite refcount_at_put_body).
    assert (refcount_at (heap s1) wfd = Some (S nw)) as Hnw1
      by (unfold s1; state_simpl; by rewrite refcount_at_put_body).
    assert (fd_at (heap s1) rfd = Some fr) as Hfr1 by (unfold s1; heap_solve).
    assert (fd_at (heap s1) wfd = Some fw) as Hfw1 by (unfold s1; heap_solve).
    assert (mailslot_at (heap s1) mailslot = Some (with_read_q m [])) as Hm1
      by (unfold s1; heap_solve).
    apply wp_bind, (wp_release_fd _ fr nr); [done..|].
    apply (wp_release_fd _ fw nw); [heap_solve| |].
    { by rewrite refcount_at_fd_released_ne. }
    split_and!.
    + by rewrite !apcs_fd_released.
    + heap_solve.
    + rewrite refcount_at_fd_released_ne by done.
      by apply refcount_at_fd_released_eq.
    + apply refcount_at_fd_released_eq. by rewrite refcount_at_fd_released_ne.
    + intros -> ?. by apply sockets_fd_released_None, sockets_fd_released_last.
    + intros -> ?. by apply sockets_fd_released_last.
Qed.


(** C6, as the code has it.  With FILE_SHARE_READ requested,
    [open_mailslot] sets STATUS_OBJECT_NAME_NOT_FOUND when the name is not
    bound and STATUS_OBJECT_TYPE_MISMATCH when it is bound to an object that
    is not a mailslot; in both cases the request handler then sets
    STATUS_NO_SUCH_FILE, and that is the error the request ends with, its
    handle being 0 and nothing else having changed. *)
Theorem open_mailslot_errors s req :
  includes (open_sharing req) FILE_SHARE_READ →
  let name := open_data req in
  let len := get_req_data_size (open_data req) in
  (sync_namespace s !! name_key name len = None →
   open_mailslot name len s = Done None (set_error_field STATUS_OBJECT_NAME_NOT_FOUND s) ∧
   req_open_mailslot req s = Done 0 (set_error_field STATUS_NO_SUCH_FILE s)) ∧
  (∀ obj o k,
     sync_namespace s !! name_key name len = Some obj →
     heap s !! obj = Some o → obj_ops o ≠ mailslot_ops → refcount o = S k →
     open_mailslot name len s = Done None (set_error_field STATUS_OBJECT_TYPE_MISMATCH s) ∧
     req_open_mailslot req s = Done 0 (set_error_field STATUS_NO_SUCH_FILE s)).
Proof.
  intros Hshare%nonzero_true name len.
  assert (∀ e, open_mailslot name len s = Done None (set_error_field e s) →
               req_open_mailslot req s = Done 0 (set_error_field STATUS_NO_SUCH_FILE s))
    as Hhandler.
  { intros e He. apply wp_done_eq. unfold req_open_mailslot.
    rewrite Hshare. cbn [negb].
    apply wp_bind, (wp_of_eq _ _ _ _ _ He).
    apply wp_bind, wp_set_error. by apply wp_ret. }
  split.
  - intros Hnone.
    assert (open_mailslot name len s
            = Done None (set_error_field STATUS_OBJECT_NAME_NOT_FOUND s)) as Hopen.
    { apply wp_done_eq. apply wp_bind, wp_find_object. rewrite Hnone.
      apply wp_bind, wp_set_error. by apply wp_ret. }
    eauto.
  - intros obj o k Hsome Ho Hops Hk.
    assert (refcount_at (heap s) obj = Some (S k)) as Hrc
      by (unfold refcount_at; by rewrite Ho, <- Hk).
    assert (open_mailslot name len s
            = Done None (set_error_field STATUS_OBJECT_TYPE_MISMATCH s)) as Hopen.
    { apply wp_done_eq. apply wp_bind, wp_find_object. rewrite Hsome.
      exists (S k). split; [done|].
      apply wp_bind, (wp_deref _ (with_refcount o (S (S k)))).
      { state_simpl. unfold put_refcount. by rewrite lookup_alter_eq, Ho. }
      rewrite decide_False by done.
      apply wp_bind, (wp_release_object_keep _ k).
      { state_simpl. by apply (refcount_at_put_refcount_eq _ _ _ (S k)). }
      rewrite (grab_release_same _ _ _ Hrc).
      apply wp_bind, wp_set_error. by apply wp_ret. }
    eauto.
Qed.

(** C7.  [set_mailslot_info] on a handle to a mailslot returns without
    blocking; it leaves the queue of pending reads, the writers, the maximum
    message size and the reference count of the mailslot as they were,
    changes the read timeout only when MAILSLOT_SET_READ_TIMEOUT is among
    the flags, leaves every socket as it was (the datagram it measures stays
    queued), queues no APC, and reports the maximum message size, the
    resulting read timeout, whether a datagram is waiting, and the size of
    the oldest datagram or MAILSLOT_NO_MESSAGE when none waits. *)
Theorem set_mailslot_info_frame s req entry m k rfd f sock :
  handle_entry_of s (info_handle req) = Some entry →
  mailslot_at (heap s) (entry_ptr entry) = Some m →
  refcount_at (heap s) (entry_ptr entry) = Some (S k) →
  fd m = Some rfd → fd_at (heap s) rfd = Some f →
  sockets s !! fd_unix_fd f = Some sock → sock_nonblock sock = true →
  let timeout := if nonzero (Z.land (info_flags req) MAILSLOT_SET_READ_TIMEOUT)
                 then info_read_timeout req else read_timeout m in
  ∃ reply s' m',
    req_set_mailslot_info req s = Done reply s' ∧
    mailslot_at (heap s') (entry_ptr entry) = Some m' ∧
    read_q m' = read_q m ∧ writers m' = writers m ∧
    max_msgsize m' = max_msgsize m ∧ read_timeout m' = timeout ∧
    refcount_at (heap s') (entry_ptr entry) = Some (S k) ∧
    sockets s' = sockets s ∧ apcs s' = apcs s ∧
    reply_max_msgsize reply = max_msgsize m ∧
    reply_read_timeout reply = timeout ∧
    reply_msg_count reply = (if readable sock then 1 else 0) ∧
    reply_next_msgsize reply = match sock_queued sock with
                               | [] => MAILSLOT_NO_MESSAGE
                               | size :: _ => Z.of_N size
                               end.
Proof.
  intros He Hm Hk Hrfd Hf Hs Hnb timeout.
  pose proof (fd_mailslot_ne _ _ _ _ _ Hf Hm) as Hne.
  set (mailslot := entry_ptr entry) in *.
  cut (wp (req_set_mailslot_info req) s (fun reply s' =>
         mailslot_at (heap s') mailslot = Some (with_read_timeout m timeout) ∧
         refcount_at (heap s') mailslot = Some (S k) ∧
         sockets s' = sockets s ∧ apcs s' = apcs s ∧
         reply_max_msgsize reply = max_msgsize m ∧
         reply_read_timeout reply = timeout ∧
         reply_msg_count reply = (if readable sock then 1 else 0) ∧
         reply_next_msgsize reply = match sock_queued sock with
                                    | [] => MAILSLOT_NO_MESSAGE
                                    | size :: _ => Z.of_N size
                                    end)).
  { intros (reply & s' & ? & ? & ? & ? & ? & ? & ? & ? & ?)%wp_done.
    exists reply, s', (with_read_timeout m timeout). by split_and!. }
  assert (with_read_timeout m (read_timeout m) = m) as Hsame by by destruct m.
  apply wp_bind, (wp_get_mailslot_obj _ entry m (S k)); [done..|]. fold mailslot.
  wp_step wp_get_mailslot. rewrite Hrfd. apply wp_bind, wp_ret.
  wp_step wp_get_unix_fd.
  set (Q := fun (_ : unit) (s1 : server) =>
    mailslot_at (heap s1) mailslot = Some (with_read_timeout m timeout) ∧
    fd_at (heap s1) rfd = Some f ∧
    refcount_at (heap s1) mailslot = Some (S (S k)) ∧
    sockets s1 = sockets s ∧ apcs s1 = apcs s).
  apply wp_bind, (wp_mono _ _ Q).
  { unfold Q, timeout.
    destruct (nonzero (Z.land (info_flags req) MAILSLOT_SET_READ_TIMEOUT)).
    - wp_step wp_put_mailslot. split_and!; try heap_solve.
      rewrite refcount_at_put_body. by apply (refcount_at_put_refcount_eq _ _ _ (S k)).
    - apply wp_ret. state_simpl. rewrite Hsame. split_and!; try heap_solve.
      by apply (refcount_at_put_refcount_eq _ _ _ (S k)). }
  intros [] s1 (Hm1 & Hf1 & Hk1 & Hs1 & Ha1).
  wp_step wp_get_mailslot.
  apply wp_bind, (wp_mailslot_message_count _ (with_read_timeout m timeout) rfd f sock);
    [done..|by rewrite Hs1|].
  apply wp_bind, (wp_recv_peek _ _ sock); [by rewrite Hs1|done|].
  apply wp_bind, (wp_release_mailslot_keep _ (with_read_timeout m timeout) k); [done..|].
  apply wp_ret. cbn [reply_max_msgsize reply_read_timeout reply_msg_count
                     reply_next_msgsize max_msgsize read_timeout with_read_timeout].
  state_simpl. split_and!; try done.
  - heap_solve.
  - by apply (refcount_at_put_refcount_eq _ _ _ (S (S k))).
  - destruct (sock_queued sock) as [|size ?]; [done|].
    by rewrite (proj2 (Z.ltb_ge _ _) (N2Z.is_nonneg size)).
Qed.

(** C8.  The [get_fd] entry of a writer hands out the [write_fd] of its
    mailslot, with one more reference, and therefore not the [fd] the
    mailslot reads from; that one is handed out by the [get_fd] entry of the
    mailslot itself. *)
Theorem writer_get_fd_is_write_fd s writer w mailslot m rfd wfd nr nw :
  mail_writer_at (heap s) writer = Some w → writer_mailslot w = Some mailslot →
  mailslot_at (heap s) mailslot = Some m →
  fd m = Some rfd → write_fd m = Some wfd → rfd ≠ wfd →
  refcount_at (heap s) rfd = Some nr → refcount_at (heap s) wfd = Some nw →
  mail_writer_get_fd writer s = Done wfd (set_heap (put_refcount wfd (S nw)) s) ∧
  Some wfd = write_fd m ∧ Some wfd ≠ fd m ∧
  mailslot_get_fd mailslot s = Done rfd (set_heap (put_refcount rfd (S nr)) s).
Proof.
  intros Hw Hwm Hm Hrfd Hwfd Hne Hnr Hnw.
  split_and!; [| congruence | congruence |].
  - apply wp_done_eq.
    wp_step wp_get_mail_writer. rewrite Hwm. apply wp_bind, wp_ret.
    wp_step wp_get_mailslot. rewrite Hwfd. apply wp_bind, wp_ret.
    by wp_step wp_grab_object.
  - apply wp_done_eq.
    wp_step wp_get_mailslot. rewrite Hrfd. apply wp_bind, wp_ret.
    by wp_step wp_grab_object.
Qed.

(** C9.  Whenever the create_mailslot request returns a handle, the entry
    of the handle table behind it was allocated with GENERIC_READ, whatever
    the name, the sizes and the timeout of the request: it grants no
    GENERIC_WRITE.  The entry carries the inherit flag of the request and
    denotes the new mailslot, which has the requested maximum message size
    and read timeout, no writer and no pending read. *)
Theorem create_mailslot_handle_is_read_only tolowerW req s handle s' :
  req_create_mailslot tolowerW req s = Done handle s' →
  handle ≠ 0 →
  ∃ entry m,
    handle_entry_of s' handle = Some entry ∧
    entry_access entry = GENERIC_READ ∧
    Z.land (entry_access entry) GENERIC_WRITE = 0 ∧
    entry_inherit entry = create_inherit req ∧
    mailslot_at (heap s') (entry_ptr entry) = Some m ∧
    max_msgsize m = create_max_msgsize req ∧
    read_timeout m = create_read_timeout req ∧
    writers m = [] ∧ read_q m = [].
Proof.
  intros Hreq Hnz. revert Hreq. unfold req_create_mailslot, bind.
  destruct (create_mailslot _ _ _ _ _ s) as [[mailslot|] s1|] eqn:Hcreate;
    [|by intros [= <- <-]|done].
  destruct (alloc_handle mailslot GENERIC_READ (create_inherit req) s1)
    as [h s2|] eqn:Halloc; [|done].
  destruct (release_mailslot mailslot s2) as [[] s3|] eqn:Hrelease; [|done].
  intros [= <- <-].
  apply alloc_handle_inv in Halloc as [->|(-> & Hentries & k & Hk & Hheap)]; [done|].
  apply create_mailslot_builds in Hcreate
    as (rfd & wfd & u0 & u1 & Hm & _ & _ & _ & _ & _ & _ & _ & _ & Hrc & _).
  assert (k = 1%nat) as -> by congruence.
  pose proof (release_mailslot_handles _ _ _ _ Hrelease) as Hhandles.
  assert (release_mailslot mailslot s2
          = Done tt (set_heap (put_refcount mailslot 1) s2)) as Hkeep.
  { apply wp_done_eq. eapply wp_release_mailslot_keep; [| |done].
    - rewrite Hheap. by apply mailslot_at_put_refcount.
    - rewrite Hheap. by apply (refcount_at_put_refcount_eq _ _ _ 1%nat). }
  rewrite Hkeep in Hrelease. injection Hrelease as <-.
  exists {| entry_ptr := mailslot; entry_access := GENERIC_READ;
            entry_inherit := create_inherit req |},
         {| fd := Some rfd; write_fd := Some wfd; max_msgsize := create_max_msgsize req;
            read_timeout := create_read_timeout req; writers := []; read_q := [] |}.
  split_and!; [|done|done|done| |done..].
  - apply handle_entry_of_new. by rewrite Hhandles.
  - state_simpl. rewrite Hheap. cbn [entry_ptr]. heap_solve.
Qed.

(** C10.  Once [mailslot_queue_async] has queued a request it looks at the
    socket again, and when the socket is readable the request at the head
    of the queue, which need not be the new one, is completed with
    STATUS_ALERTED before the call returns; the requests behind it stay
    queued and the descriptor is armed for them. *)
Theorem queue_async_serves_head_at_once s afd f mailslot m sock apc user iosb count :
  fd_at (heap s) afd = Some f → fd_user f = Some mailslot →
  mailslot_at (heap s) mailslot = Some m → fd m = Some afd →
  fd_unix_fd f ≠ -1 → sockets s !! fd_unix_fd f = Some sock →
  writers m ≠ [] → mem_free s ≠ O →
  readable sock = true →
  ∃ s' a rest,
    mailslot_queue_async afd apc user iosb ASYNC_TYPE_READ count s = Done tt s' ∧
    read_q m ++ [new_async s m apc user iosb] = a :: rest ∧
    apcs s' = apcs s ++ [(a, STATUS_ALERTED)] ∧
    mailslot_at (heap s') mailslot = Some (with_read_q m rest) ∧
    fd_at (heap s') afd = Some (with_poll_events f (interest rest)).
Proof.
  intros Hf Hu Hm Hrfd Hunix Hs Hw Hmem Hr.
  pose proof (fd_mailslot_ne _ _ _ _ _ Hf Hm) as Hne.
  cut (wp (mailslot_queue_async afd apc user iosb ASYNC_TYPE_READ count) s
         (fun _ s' => ∃ a rest,
            read_q m ++ [new_async s m apc user iosb] = a :: rest ∧
            apcs s' = apcs s ++ [(a, STATUS_ALERTED)] ∧
            mailslot_at (heap s') mailslot = Some (with_read_q m rest) ∧
            fd_at (heap s') afd = Some (with_poll_events f (interest rest)))).
  { intros ([] & s' & ? & a & rest & ?)%wp_done. by exists s', a, rest. }
  apply (wp_mailslot_queue_async afd f mailslot m sock); try done.
  rewrite bool_decide_false, Hr by done. cbn [orb negb].
  destruct (mem_free s) as [|n]; [done|].
  intros a rest Heq. exists a, rest. split_and!; heap_solve.
Qed.

(** ** The claims on the small server state *)

(** C1, as the specification words it, fails: with a writer attached and
    no datagram on the socket the request is refused with STATUS_IO_TIMEOUT
    and is not queued. *)
Lemma queue_async_refused_despite_writer :
  mailslot_at (heap (demo_server [] [])) 1%positive = Some (demo_mailslot []) ∧
  writers (demo_mailslot []) ≠ [] ∧
  mailslot_queue_async 2%positive 11 12 13 ASYNC_TYPE_READ 0 (demo_server [] [])
    = Done tt (set_error_field STATUS_IO_TIMEOUT (demo_server [] [])).
Proof. split_and!; [by vm_compute | done | by vm_compute]. Qed.

Lemma queue_async_refusal_witness :
  let s := demo_server [] [42%N] in
  (mailslot_queue_async 2%positive 11 12 13 ASYNC_TYPE_READ 0 s
     = Done tt (set_error_field STATUS_IO_TIMEOUT s)
   ↔ writers (demo_mailslot []) = [] ∨ sock_queued (demo_socket [42%N]) = []) ∧
  (writers (demo_mailslot []) ≠ [] → sock_queued (demo_socket [42%N]) ≠ [] →
   mem_free s ≠ O →
   ∃ s' a rest,
     mailslot_queue_async 2%positive 11 12 13 ASYNC_TYPE_READ 0 s = Done tt s' ∧
     read_q (demo_mailslot []) ++ [new_async s (demo_mailslot []) 11 12 13] = a :: rest ∧
     mailslot_at (heap s') 1%positive = Some (with_read_q (demo_mailslot []) rest) ∧
     apcs s' = apcs s ++ [(a, STATUS_ALERTED)] ∧
     error s' = error s).
Proof.
  apply (queue_async_refusal (demo_server [] [42%N]) 2%positive demo_read_fd 1%positive
           (demo_mailslot []) (demo_socket [42%N]) 11 12 13 0);
    vm_compute; first [reflexivity | discriminate].
Defined.

Lemma create_mail_writer_admission_witness :
  let s := demo_server [] [] in
  let violation :=
    (includes GENERIC_READ GENERIC_WRITE ∨ includes (access demo_writer) GENERIC_WRITE) ∧
    ¬ (includes FILE_SHARE_READ FILE_SHARE_WRITE
       ∧ includes (sharing demo_writer) FILE_SHARE_WRITE) in
  (create_mail_writer 1%positive GENERIC_READ FILE_SHARE_READ s
     = Done None (set_error_field STATUS_SHARING_VIOLATION s) ↔ violation) ∧
  (¬ violation → mem_free s ≠ O →
   ∃ writer s',
     create_mail_writer 1%positive GENERIC_READ FILE_SHARE_READ s = Done (Some writer) s' ∧
     heap s !! writer = None ∧
     mail_writer_at (heap s') writer
       = Some {| writer_mailslot := Some 1%positive; access := GENERIC_READ;
                 sharing := FILE_SHARE_READ |} ∧
     mailslot_at (heap s') 1%positive
       = Some (with_writers (demo_mailslot []) [writer; 4%positive]) ∧
     error s' = error s).
Proof.
  apply (create_mail_writer_admission (demo_server [] []) 1%positive (demo_mailslot [])
           4%positive [] demo_writer GENERIC_READ FILE_SHARE_READ);
    vm_compute; reflexivity.
Defined.

Lemma poll_event_completes_head_witness :
  let s := demo_server [demo_async_1; demo_async_2] [42%N] in
  ∃ s', mailslot_poll_event 2%positive POLLIN s = Done tt s' ∧
        apcs s' = apcs s ++ [(demo_async_1, STATUS_ALERTED)] ∧
        mailslot_at (heap s') 1%positive
          = Some (with_read_q (demo_mailslot [demo_async_1; demo_async_2]) [demo_async_2]) ∧
        fd_at (heap s') 2%positive = Some (with_poll_events demo_read_fd POLLIN).
Proof.
  apply (poll_event_completes_head (demo_server [demo_async_1; demo_async_2] [42%N])
           2%positive demo_read_fd 1%positive (demo_mailslot [demo_async_1; demo_async_2])
           demo_async_1 [demo_async_2] POLLIN);
    vm_compute; first [reflexivity | discriminate].
Defined.

Lemma cancel_and_destroy_cancel_all_witness :
  let s := demo_server [demo_async_1; demo_async_2] [] in
  let cancelled := [(demo_async_1, STATUS_CANCELLED); (demo_async_2, STATUS_CANCELLED)] in
  (∃ s', mailslot_cancel_async 2%positive s = Done tt s' ∧
         apcs s' = apcs s ++ cancelled ∧
         mailslot_at (heap s') 1%positive
           = Some (with_read_q (demo_mailslot [demo_async_1; demo_async_2]) [])) ∧
  (∃ s', mailslot_destroy 1%positive s = Done tt s' ∧
         apcs s' = apcs s ++ cancelled ∧
         mailslot_at (heap s') 1%positive
           = Some (with_read_q (demo_mailslot [demo_async_1; demo_async_2]) []) ∧
         refcount_at (heap s') 2%positive = None ∧
         refcount_at (heap s') 3%positive = None ∧
         (O = O → fd_unix_fd demo_read_fd ≠ -1 →
          sockets s' !! fd_unix_fd demo_read_fd = None) ∧
         (O = O → fd_unix_fd demo_write_fd ≠ -1 →
          sockets s' !! fd_unix_fd demo_write_fd = None)).
Proof.
  apply (cancel_and_destroy_cancel_all (demo_server [demo_async_1; demo_async_2] [])
           2%positive demo_read_fd 1%positive (demo_mailslot [demo_async_1; demo_async_2])
           2%positive 3%positive demo_read_fd demo_write_fd O O);
    vm_compute; first [reflexivity | discriminate].
Defined.

(** The small server state is the one that the create_mailslot and
    open_mailslot requests build on a server that has just started, and a
    client that writes to the mailslot fills its socket. *)
Lemma demo_server_reachable :
  req_create_mailslot ascii_tolowerW demo_create (startup 20 10 7)
    = Done 4 (state_after (startup 20 10 7) (req_create_mailslot ascii_tolowerW demo_create)) ∧
  req_open_mailslot demo_open
      (state_after (startup 20 10 7) (req_create_mailslot ascii_tolowerW demo_create))
    = Done 8 (demo_server [] []) ∧
  datagram_arrives 1 42 (demo_server [] []) = Done tt (demo_server [] [42%N]).
Proof. split_and!; by vm_compute. Qed.

(** The name that is just the token, 9 characters in 18 bytes, is
    accepted by the create_mailslot request, and a name of 5 characters,
    which passes the length test on its 10 bytes, is refused by the
    comparison with the token. *)
Lemma bare_token_is_accepted :
  let create (data : list WCHAR) :=
    {| create_max_msgsize := 100; create_read_timeout := 0; create_inherit := false;
       create_data := data |} in
  (∃ s', req_create_mailslot ascii_tolowerW (create token) (startup 20 10 7) = Done 4 s') ∧
  req_create_mailslot ascii_tolowerW (create (take 5 token)) (startup 20 10 7)
    = Done 0 (set_error_field STATUS_OBJECT_NAME_INVALID (startup 20 10 7)).
Proof. split; [eexists|]; by vm_compute. Qed.


(** C6, as the specification words it, fails: the error reported for a
    name that is not bound is STATUS_NO_SUCH_FILE, not
    STATUS_OBJECT_NAME_NOT_FOUND. *)
Lemma open_unbound_name_reports_no_such_file :
  includes (open_sharing demo_open_unbound) FILE_SHARE_READ ∧
  sync_namespace (demo_server [] []) !! open_data demo_open_unbound = None ∧
  req_open_mailslot demo_open_unbound (demo_server [] [])
    = Done 0 (set_error_field STATUS_NO_SUCH_FILE (demo_server [] [])) ∧
  error (set_error_field STATUS_NO_SUCH_FILE (demo_server [] []))
    ≠ STATUS_OBJECT_NAME_NOT_FOUND.
Proof. split_and!; by vm_compute. Qed.

Lemma open_mailslot_errors_witness :
  let s := demo_server [] [] in
  let name := open_data demo_open_unbound in
  let len := get_req_data_size (open_data demo_open_unbound) in
  (sync_namespace s !! name_key name len = None →
   open_mailslot name len s = Done None (set_error_field STATUS_OBJECT_NAME_NOT_FOUND s) ∧
   req_open_mailslot demo_open_unbound s = Done 0 (set_error_field STATUS_NO_SUCH_FILE s)) ∧
  (∀ obj o k,
     sync_namespace s !! name_key name len = Some obj →
     heap s !! obj = Some o → obj_ops o ≠ mailslot_ops → refcount o = S k →
     open_mailslot name len s = Done None (set_error_field STATUS_OBJECT_TYPE_MISMATCH s) ∧
     req_open_mailslot demo_open_unbound s = Done 0 (set_error_field STATUS_NO_SUCH_FILE s)).
Proof.
  apply (open_mailslot_errors (demo_server [] []) demo_open_unbound).
  vm_compute. discriminate.
Defined.

Lemma set_mailslot_info_frame_witness :
  let s := demo_server [demo_async_1] [42%N] in
  let m := demo_mailslot [demo_async_1] in
  ∃ reply s' m',
    req_set_mailslot_info demo_set_info s = Done reply s' ∧
    mailslot_at (heap s') 1%positive = Some m' ∧
    read_q m' = read_q m ∧ writers m' = writers m ∧
    max_msgsize m' = max_msgsize m ∧ read_timeout m' = 5 ∧
    refcount_at (heap s') 1%positive = Some 2%nat ∧
    sockets s' = sockets s ∧ apcs s' = apcs s ∧
    reply_max_msgsize reply = max_msgsize m ∧
    reply_read_timeout reply = 5 ∧
    reply_msg_count reply = 1 ∧
    reply_next_msgsize reply = 42.
Proof.
  apply (set_mailslot_info_frame (demo_server [demo_async_1] [42%N]) demo_set_info
           {| entry_ptr := 1%positive; entry_access := GENERIC_READ; entry_inherit := false |}
           (demo_mailslot [demo_async_1]) 1%nat 2%positive demo_read_fd (demo_socket [42%N]));
    vm_compute; reflexivity.
Defined.

Lemma writer_get_fd_is_write_fd_witness :
  let s := demo_server [] [] in
  mail_writer_get_fd 4%positive s = Done 3%positive (set_heap (put_refcount 3%positive 2) s) ∧
  Some 3%positive = write_fd (demo_mailslot []) ∧
  Some 3%positive ≠ fd (demo_mailslot []) ∧
  mailslot_get_fd 1%positive s = Done 2%positive (set_heap (put_refcount 2%positive 2) s).
Proof.
  apply (writer_get_fd_is_write_fd (demo_server [] []) 4%positive demo_writer 1%positive
           (demo_mailslot []) 2%positive 3%positive 1%nat 1%nat);
    vm_compute; first [reflexivity | discriminate].
Defined.

Lemma create_mailslot_handle_is_read_only_witness :
  ∃ entry m,
    handle_entry_of
      (state_after (startup 20 10 7) (req_create_mailslot ascii_tolowerW demo_create)) 4
      = Some entry ∧
    entry_access entry = GENERIC_READ ∧
    Z.land (entry_access entry) GENERIC_WRITE = 0 ∧
    entry_inherit entry = create_inherit demo_create ∧
    mailslot_at
      (heap (state_after (startup 20 10 7) (req_create_mailslot ascii_tolowerW demo_create)))
      (entry_ptr entry) = Some m ∧
    max_msgsize m = create_max_msgsize demo_create ∧
    read_timeout m = create_read_timeout demo_create ∧
    writers m = [] ∧ read_q m = [].
Proof.
  apply (create_mailslot_handle_is_read_only ascii_tolowerW demo_create (startup 20 10 7) 4
           (state_after (startup 20 10 7) (req_create_mailslot ascii_tolowerW demo_create)));
    vm_compute; first [reflexivity | discriminate].
Defined.

Lemma queue_async_serves_head_at_once_witness :
  let s := demo_server [demo_async_1] [42%N] in
  let m := demo_mailslot [demo_async_1] in
  ∃ s' a rest,
    mailslot_queue_async 2%positive 21 22 23 ASYNC_TYPE_READ 0 s = Done tt s' ∧
    read_q m ++ [new_async s m 21 22 23] = a :: rest ∧
    apcs s' = apcs s ++ [(a, STATUS_ALERTED)] ∧
    mailslot_at (heap s') 1%positive = Some (with_read_q m rest) ∧
    fd_at (heap s') 2%positive = Some (with_poll_events demo_read_fd (interest rest)).
Proof.
  apply (queue_async_serves_head_at_once (demo_server [demo_async_1] [42%N]) 2%positive
           demo_read_fd 1%positive (demo_mailslot [demo_async_1]) (demo_socket [42%N])
           21 22 23 0);
    vm_compute; first [reflexivity | discriminate].
Defined.

(** ** Further properties of the file

    What follows is read off the code alone: the paths of the functions that
    the claims above do not walk, and the way the functions compose. *)

(** *** Early returns and refusals *)

Lemma wp_get_error s Q : Q (error s) s → wp get_error s Q.
Proof. done. Qed.

Lemma nonzero_false z : nonzero z = false ↔ z = 0.
Proof. unfold nonzero. rewrite negb_false_iff. apply Z.eqb_eq. Qed.

(** X1.  [mailslot_queue_async] accepts read requests only: for any other
    type it sets STATUS_INVALID_PARAMETER and returns before it looks at
    the writers or at the socket, so that nothing is queued and nothing
    else changes, whatever the mailslot holds. *)
Theorem queue_async_rejects_other_types s afd f mailslot m apc user iosb type count :
  fd_at (heap s) afd = Some f → fd_user f = Some mailslot →
  mailslot_at (heap s) mailslot = Some m →
  type ≠ ASYNC_TYPE_READ →
  mailslot_queue_async afd apc user iosb type count s
    = Done tt (set_error_field STATUS_INVALID_PARAMETER s).
Proof.
  intros Hf Hu Hm Htype. apply wp_done_eq.
  wp_step wp_get_fd_user. wp_step wp_assert_mailslot_ops.
  rewrite (proj2 (Z.eqb_neq _ _) Htype). cbn [negb].
  by apply wp_set_error.
Qed.

(** X2.  [mailslot_poll_event] completes a request only for an event that
    has POLLIN: on any other event (an error or a hang-up of the socket,
    say), and on any event when no request is queued, no completion is
    delivered and the queue stays as it is; the descriptor is armed again,
    for POLLIN when requests wait and for nothing otherwise. *)
Theorem poll_event_without_input s afd f mailslot m event :
  fd_at (heap s) afd = Some f → fd_user f = Some mailslot →
  mailslot_at (heap s) mailslot = Some m →
  read_q m = [] ∨ Z.land POLLIN event = 0 →
  ∃ s', mailslot_poll_event afd event s = Done tt s' ∧
        s' = set_heap (put_body afd (Fd (with_poll_events f (interest (read_q m))))) s ∧
        apcs s' = apcs s ∧
        mailslot_at (heap s') mailslot = Some m ∧
        fd_at (heap s') afd
          = Some (with_poll_events f (match read_q m with [] => 0 | _ :: _ => POLLIN end)).
Proof.
  intros Hf Hu Hm Hcase.
  pose proof (fd_mailslot_ne _ _ _ _ _ Hf Hm) as Hne.
  apply wp_done_unit. eapply wp_mailslot_poll_event; [done..|].
  destruct (read_q m) as [|a rest] eqn:Hq.
  - split_and!; heap_solve.
  - destruct Hcase as [|Hev]; [done|].
    rewrite (proj2 (nonzero_false _) Hev).
    split_and!; heap_solve.
Qed.

(** X3.  Cancelling twice is cancelling once: after [mailslot_cancel_async]
    the queue is empty, and a second call returns without delivering a
    completion and without changing the state. *)
Theorem cancel_async_is_idempotent s afd f mailslot m :
  fd_at (heap s) afd = Some f → fd_user f = Some mailslot →
  mailslot_at (heap s) mailslot = Some m →
  ∃ s', mailslot_cancel_async afd s = Done tt s' ∧
        apcs s' = apcs s ++ map (fun a => (a, STATUS_CANCELLED)) (read_q m) ∧
        mailslot_cancel_async afd s' = Done tt s'.
Proof.
  intros Hf Hu Hm.
  pose proof (fd_mailslot_ne _ _ _ _ _ Hf Hm) as Hne.
  exists (queue_terminated mailslot m STATUS_CANCELLED s).
  assert (mailslot_at (heap (queue_terminated mailslot m STATUS_CANCELLED s)) mailslot
          = Some (with_read_q m [])) as Hm' by heap_solve.
  split_and!.
  - apply wp_done_eq. wp_step wp_get_fd_user. wp_step wp_assert_mailslot_ops.
    by wp_step wp_async_terminate_queue.
  - done.
  - apply wp_done_eq.
    apply wp_bind, (wp_get_fd_user _ f mailslot); [heap_solve|done|].
    apply wp_bind, (wp_assert_mailslot_ops _ (with_read_q m [])); [done|].
    apply (wp_async_terminate_queue _ (with_read_q m [])); [done|].
    split; [done|]. by apply queue_terminated_nil.
Qed.

(** X4.  [mailslot_message_count] is a flag and not a count: it answers 1
    when at least one datagram waits on the socket the mailslot reads from,
    however many wait, and 0 when none does; it takes nothing from the
    socket and leaves the state as it is. *)
Theorem message_count_is_a_flag s mailslot m rfd f sock :
  mailslot_at (heap s) mailslot = Some m → fd m = Some rfd →
  fd_at (heap s) rfd = Some f → sockets s !! fd_unix_fd f = Some sock →
  mailslot_message_count mailslot s
    = Done (match sock_queued sock with [] => 0 | _ :: _ => 1 end) s.
Proof.
  intros Hm Hrfd Hf Hs. apply wp_done_eq.
  eapply wp_mailslot_message_count; [done..|].
  unfold readable. by destruct (sock_queued sock).
Qed.

(** X5.  There is one mailslot to a name: [create_mailslot] on a name that
    a mailslot already bears returns NULL with STATUS_OBJECT_NAME_COLLISION.
    The reference taken on the existing mailslot by the lookup is given
    back, and the existing mailslot keeps its message size, its timeout, its
    writers and its queue: only the error changes. *)
Theorem create_mailslot_name_collision tolowerW name len max_msgsize_ read_timeout_
    s mailslot m k :
  name_refused tolowerW name len = false →
  sync_namespace s !! name_key name len = Some mailslot →
  mailslot_at (heap s) mailslot = Some m →
  refcount_at (heap s) mailslot = Some (S k) →
  create_mailslot tolowerW name len max_msgsize_ read_timeout_ s
    = Done None (set_error_field STATUS_OBJECT_NAME_COLLISION s).
Proof.
  intros Href Hname Hm Hk. apply wp_done_eq.
  unfold create_mailslot. rewrite Href.
  assert (Z.eqb len 0 = false) as Hlen.
  { unfold name_refused in Href. apply orb_false_iff in Href as [Hle%Z.leb_gt _].
    change (strlenW slot) with 9 in Hle. lia. }
  apply wp_bind. unfold create_named_object. rewrite Hlen.
  apply wp_bind, wp_find_object. rewrite Hname. exists (S k). split; [done|].
  pose proof Hm as (o & Ho & Hb)%mailslot_at_Some.
  apply wp_bind, (wp_deref _ (with_refcount o (S (S k)))).
  { state_simpl. unfold put_refcount. by rewrite lookup_alter_eq, Ho. }
  unfold obj_ops. cbn [body with_refcount]. rewrite Hb, decide_True by done.
  apply wp_bind, wp_set_error, wp_ret.
  apply wp_bind, wp_get_error. state_simpl. rewrite decide_True by done.
  apply wp_bind, (wp_release_mailslot_keep _ m k).
  { heap_solve. }
  { state_simpl. by apply (refcount_at_put_refcount_eq _ _ _ (S k)). }
  apply wp_ret. split; [done|].
  apply server_eq; state_simpl; try done.
  rewrite put_refcount_put_refcount. by apply put_refcount_same.
Qed.

(** X6.  The open_mailslot request insists on FILE_SHARE_READ before it
    looks anything up: a request whose sharing mask lacks it gets a null
    handle and STATUS_SHARING_VIOLATION whether or not the name is bound,
    and nothing else changes. *)
Theorem open_request_needs_share_read s req :
  Z.land (open_sharing req) FILE_SHARE_READ = 0 →
  req_open_mailslot req s = Done 0 (set_error_field STATUS_SHARING_VIOLATION s).
Proof.
  intros Hshare. unfold req_open_mailslot.
  by rewrite (proj2 (nonzero_false _) Hshare).
Qed.

(** X7.  The set_mailslot_info request works on the reading end only:
    [get_mailslot_obj] asks the handle table for a mailslot, so a handle
    that denotes another kind of object (the writer handle that
    open_mailslot returned, say) is refused with
    STATUS_OBJECT_TYPE_MISMATCH and a handle that denotes nothing with
    STATUS_INVALID_HANDLE.  In both cases the reply is left as it was
    initialised and no timeout is written. *)
Theorem set_info_refuses_other_handles s req :
  let untouched := {| reply_max_msgsize := 0; reply_read_timeout := 0;
                      reply_msg_count := 0; reply_next_msgsize := 0 |} in
  (handle_entry_of s (info_handle req) = None →
   get_mailslot_obj (info_handle req) 0 s
     = Done None (set_error_field STATUS_INVALID_HANDLE s) ∧
   req_set_mailslot_info req s
     = Done untouched (set_error_field STATUS_INVALID_HANDLE s)) ∧
  (∀ entry o,
     handle_entry_of s (info_handle req) = Some entry →
     heap s !! entry_ptr entry = Some o → obj_ops o ≠ mailslot_ops →
     get_mailslot_obj (info_handle req) 0 s
       = Done None (set_error_field STATUS_OBJECT_TYPE_MISMATCH s) ∧
     req_set_mailslot_info req s
       = Done untouched (set_error_field STATUS_OBJECT_TYPE_MISMATCH s)).
Proof.
  intros untouched. split.
  - intros He.
    assert (get_mailslot_obj (info_handle req) 0 s
            = Done None (set_error_field STATUS_INVALID_HANDLE s)) as Hget.
    { apply wp_done_eq. unfold get_mailslot_obj, get_handle_obj.
      apply wp_bind, wp_get_handle. rewrite He.
      apply wp_bind, wp_set_error. by apply wp_ret. }
    split; [done|]. unfold req_set_mailslot_info, bind. by rewrite Hget.
  - intros entry o He Ho Hops.
    assert (get_mailslot_obj (info_handle req) 0 s
            = Done None (set_error_field STATUS_OBJECT_TYPE_MISMATCH s)) as Hget.
    { apply wp_done_eq. unfold get_mailslot_obj, get_handle_obj.
      apply wp_bind, wp_get_handle. rewrite He.
      rewrite Z.land_0_r. change (negb (Z.eqb 0 0)) with false. cbv iota.
      apply wp_bind, (wp_deref _ o); [done|].
      rewrite decide_False by done.
      apply wp_bind, wp_set_error. by apply wp_ret. }
    split; [done|]. unfold req_set_mailslot_info, bind. by rewrite Hget.
Qed.

(** *** The steps of [create_mailslot] *)

(** The outcome of a computation that starts with a step that returns. *)
Lemma bind_outcome {A B} (m : M A) (k : A → M B) s (r : outcome B) :
  wp m s (fun a s' => k a s' = r) → bind m k s = r.
Proof. unfold wp, bind. by destruct (m s). Qed.

Lemma wp_socketpair s Q :
  match fds_free s with
  | S (S n) =>
      let a := fresh (dom (sockets s)) in
      let b := fresh ({[a]} ∪ dom (sockets s)) in
      let empty := {| sock_queued := []; sock_nonblock := false |} in
      Q (Some (a, b)) (set_sockets (fun k => <[b := empty]> (<[a := empty]> k)) n s)
  | _ => Q None s
  end →
  wp socketpair s Q.
Proof. unfold wp, socketpair. by destruct (fds_free s) as [|[|n]]. Qed.

Lemma wp_create_anonymous_fd ops u user s Q :
  match mem_free s with
  | O => Q None (closed u (set_error_field STATUS_NO_MEMORY s))
  | S n =>
      Q (Some (fresh (dom (heap s))))
        (set_heap <[fresh (dom (heap s)) := anonymous_fd ops u user]> (set_mem_free n s))
  end →
  wp (create_anonymous_fd ops u user) s Q.
Proof.
  intros HQ. apply wp_bind, wp_alloc_object.
  destruct (mem_free s) as [|n].
  - apply wp_bind, wp_close. by apply wp_ret.
  - cbv zeta.
    apply wp_bind, (wp_deref _ {| refcount := 1; obj_name := None;
                                  body := zero_body fd_object_ops |}).
    { state_simpl. apply lookup_insert_eq. }
    apply wp_bind, wp_store, wp_ret.
    match goal with |- Q _ ?x => match type of HQ with Q _ ?y =>
      replace x with y; [done|] end end.
    apply server_eq; state_simpl; try done. symmetry. apply insert_insert_eq.
Qed.

Lemma name_refused_len tolowerW name len :
  name_refused tolowerW name len = false → Z.eqb len 0 = false.
Proof.
  unfold name_refused. intros [Hle%Z.leb_gt _]%orb_false_iff.
  change (strlenW slot) with 9 in Hle. lia.
Qed.

(** [create_mailslot] on a good name that nothing bears, with memory for
    the object: what is left to run when the object is bound and filled. *)
Lemma create_mailslot_binds tolowerW name len max_msgsize_ read_timeout_ s :
  name_refused tolowerW name len = false →
  sync_namespace s !! name_key name len = None →
  mem_free s ≠ O →
  let mailslot := fresh (dom (heap s)) in
  create_mailslot tolowerW name len max_msgsize_ read_timeout_ s
  = (fds <- socketpair ;;
     match fds with
     | Some (fds0, fds1) =>
         fcntl_nonblock fds0 ;;;
         fcntl_nonblock fds1 ;;;
         rfd <- create_anonymous_fd mailslot_fd_ops fds1 mailslot ;;
         m <- get_mailslot mailslot ;;
         put_mailslot mailslot (with_fd m rfd) ;;;
         wfd <- create_anonymous_fd mail_writer_fd_ops fds0 mailslot ;;
         m' <- get_mailslot mailslot ;;
         put_mailslot mailslot (with_write_fd m' wfd) ;;;
         if is_set rfd && is_set wfd
         then ret (Some mailslot)
         else release_mailslot mailslot ;;; ret None
     | None =>
         file_set_error ;;;
         release_mailslot mailslot ;;;
         ret None
     end)
      (mailslot_bound (name_key name len) max_msgsize_ read_timeout_ mailslot s).
Proof.
  intros Href Hname Hmem mailslot.
  unfold create_mailslot. rewrite Href.
  apply bind_outcome. unfold create_named_object.
  rewrite (name_refused_len _ _ _ Href).
  apply wp_bind, wp_find_object. rewrite Hname.
  apply wp_bind, wp_alloc_object.
  destruct (mem_free s) as [|n] eqn:Hn; [done|]. cbv zeta. fold mailslot.
  apply wp_bind, (wp_deref _ {| refcount := 1; obj_name := None;
                                body := zero_body mailslot_ops |}).
  { state_simpl. apply lookup_insert_eq. }
  apply wp_bind, wp_store. apply wp_bind, wp_modify.
  apply wp_bind, wp_set_error, wp_ret.
  apply bind_outcome, wp_get_error. state_simpl. rewrite decide_False by done.
  cbn [refcount obj_name body zero_body].
  apply bind_outcome. eapply wp_put_mailslot.
  { state_simpl. apply mailslot_at_insert_eq. }
  f_equal. apply server_eq; unfold mailslot_bound; state_simpl; rewrite ?Hn; try done.
  unfold put_body. by rewrite insert_insert_eq, alter_insert_eq.
Qed.

(** The descriptors that [socketpair] hands out are not negative. *)
Lemma fresh_nonneg (X : gset Z) : 0 ≤ fresh X.
Proof.
  change (0 ≤ foldr (Z.max ∘ Z.succ) 0 (elements X)).
  induction (elements X) as [|x l IH]; simpl; lia.
Qed.

(** With memory for the three objects and room for the two descriptors,
    [create_mailslot] returns the new mailslot, in the state
    [mailslot_built]. *)
Lemma create_mailslot_total tolowerW name len max_msgsize_ read_timeout_ s :
  name_refused tolowerW name len = false →
  sync_namespace s !! name_key name len = None →
  (3 ≤ mem_free s)%nat → (2 ≤ fds_free s)%nat →
  ∃ p rfd wfd u0 u1,
    heap s !! p = None ∧ heap s !! rfd = None ∧ heap s !! wfd = None ∧
    p ≠ rfd ∧ p ≠ wfd ∧ rfd ≠ wfd ∧
    sockets s !! u0 = None ∧ sockets s !! u1 = None ∧ u0 ≠ u1 ∧ 0 ≤ u0 ∧ 0 ≤ u1 ∧
    create_mailslot tolowerW name len max_msgsize_ read_timeout_ s
    = Done (Some p)
        (mailslot_built (name_key name len) max_msgsize_ read_timeout_ p rfd wfd u0 u1 s).
Proof.
  intros Href Hname Hmem Hfds.
  rewrite create_mailslot_binds by (done || lia).
  set (key := name_key name len).
  set (p := fresh (dom (heap s))).
  set (a := fresh (dom (sockets s))).
  set (b := fresh ({[a]} ∪ dom (sockets s))).
  set (m0 := blank_mailslot max_msgsize_ read_timeout_).
  set (h1 := <[p := named_mailslot key m0]> (heap s)).
  set (rfd := fresh (dom h1)).
  set (m1 := with_fd m0 (Some rfd)).
  set (h2 := <[rfd := anonymous_fd mailslot_fd_ops b p]> h1).
  set (h3 := put_body p (Mailslot m1) h2).
  set (wfd := fresh (dom h3)).
  assert (heap s !! p = None) as Hp by apply fresh_unallocated.
  assert (h1 !! rfd = None) as Hrfd by apply fresh_unallocated.
  assert (h3 !! wfd = None) as Hwfd by apply fresh_unallocated.
  assert (sockets s !! a = None) as Ha by apply not_elem_of_dom, is_fresh.
  assert (a ≠ b) as Hab by apply fresh_pair_ne.
  assert (sockets s !! b = None) as Hb.
  { apply not_elem_of_dom. pose proof (is_fresh ({[a]} ∪ dom (sockets s))) as Hf.
    fold b in Hf. set_solver. }
  assert (p ≠ rfd) as Hprfd.
  { intros Heq. rewrite <- Heq in Hrfd. unfold h1 in Hrfd.
    by rewrite lookup_insert_eq in Hrfd. }
  assert (p ≠ wfd) as Hpwfd.
  { intros Heq. rewrite <- Heq in Hwfd. unfold h3, h2, h1, put_body in Hwfd.
    by rewrite lookup_alter_eq, lookup_insert_ne, lookup_insert_eq in Hwfd. }
  assert (rfd ≠ wfd) as Hrw.
  { intros Heq. rewrite <- Heq in Hwfd. unfold h3, h2, put_body in Hwfd.
    by rewrite lookup_alter_ne, lookup_insert_eq in Hwfd. }
  exists p, rfd, wfd, a, b. split_and!; try done; try apply fresh_nonneg.
  { unfold h1 in Hrfd. by rewrite lookup_insert_ne in Hrfd. }
  { unfold h3, h2, h1, put_body in Hwfd.
    by rewrite lookup_alter_ne, !lookup_insert_ne in Hwfd. }
  apply wp_done_eq.
  apply wp_bind, wp_socketpair. unfold mailslot_bound at 1. state_simpl.
  destruct (fds_free s) as [|[|k]] eqn:Hk; [lia..|]. cbv zeta. fold a b.
  destruct (mem_free s) as [|[|[|n]]] eqn:Hn; [lia..|].
  apply wp_bind. eapply wp_fcntl_nonblock.
  { unfold mailslot_bound. state_simpl.
    rewrite lookup_insert_ne by done. apply lookup_insert_eq. }
  apply wp_bind. eapply wp_fcntl_nonblock.
  { unfold mailslot_bound. state_simpl.
    rewrite lookup_insert_ne by done. apply lookup_insert_eq. }
  cbn [sock_queued].
  apply wp_bind, wp_create_anonymous_fd.
  unfold mailslot_bound. state_simpl. rewrite Hn. cbn [pred]. fold key m0 h1 rfd h2.
  apply wp_bind, (wp_get_mailslot _ m0).
  { state_simpl. unfold h2, h1. apply mailslot_at_insert; [done|].
    apply mailslot_at_insert_eq. }
  apply wp_bind, (wp_put_mailslot _ m0).
  { state_simpl. unfold h2, h1. apply mailslot_at_insert; [done|].
    apply mailslot_at_insert_eq. }
  state_simpl. fold m1 h3.
  apply wp_bind, wp_create_anonymous_fd. state_simpl. fold wfd.
  assert (mailslot_at h3 p = Some m1) as Hm3.
  { unfold h3. eapply mailslot_at_put_eq. unfold h2, h1.
    apply mailslot_at_insert; [done|]. apply mailslot_at_insert_eq. }
  apply wp_bind, (wp_get_mailslot _ m1).
  { state_simpl. by apply mailslot_at_insert. }
  apply wp_bind, (wp_put_mailslot _ m1).
  { state_simpl. by apply mailslot_at_insert. }
  state_simpl. cbn [is_set andb]. apply wp_ret. split; [done|].
  apply server_eq; unfold mailslot_built; state_simpl; rewrite ?Hn, ?Hk;
    try done; try lia.
  - unfold h3, h2, h1, put_body, named_mailslot.
    apply map_eq. intros i.
    destruct (decide (i = p)) as [->|]; [|destruct (decide (i = rfd)) as [->|];
      [|destruct (decide (i = wfd)) as [->|]]]; simplify_map_eq; done.
  - apply map_eq. intros i. unfold fresh_socket.
    destruct (decide (i = a)) as [->|]; [|destruct (decide (i = b)) as [->|]];
      simplify_map_eq; done.
Qed.

Lemma bind_fault {A B} (m : M A) (k : A → M B) s f : m s = Fault f → bind m k s = Fault f.
Proof. unfold bind. by intros ->. Qed.

Lemma mem_free_closed u s : mem_free (closed u s) = mem_free s.
Proof. unfold closed. by destruct (sockets s !! u). Qed.

(** The last reference of a mailslot that lacks one of its two [struct fd]
    cannot be released: [mailslot_destroy] asserts both. *)
Lemma release_unfinished_mailslot p m s :
  mailslot_at (heap s) p = Some m → refcount_at (heap s) p = Some 1%nat →
  fd m = None ∨ write_fd m = None →
  release_mailslot p s = Fault AssertionFailed.
Proof.
  intros Hm Hrc Hnone. unfold release_mailslot.
  apply bind_outcome, (wp_get_mailslot _ m); [done|].
  pose proof Hrc as (o & Ho & Hn)%refcount_at_Some.
  unfold release_with. apply bind_outcome, (wp_deref _ o); [done|]. rewrite Hn.
  apply bind_outcome, wp_store. apply bind_fault.
  unfold mailslot_destroy. apply bind_outcome, (wp_get_mailslot _ m).
  { state_simpl. rewrite (insert_with_refcount _ _ _ _ Ho). heap_solve. }
  destruct (fd m) as [rfd|]; [|done].
  destruct (write_fd m) as [wfd|]; [|done].
  by destruct Hnone.
Qed.

(** X9.  [create_mailslot] has one clean way to fail once the name is good
    and free: when the mailslot object itself cannot be allocated, it
    returns NULL with STATUS_NO_MEMORY.  Every later failure (no room for
    the socket pair, or no memory for one of the two [struct fd]) goes to
    the common exit [release_object( mailslot )], which drops the only
    reference and runs [mailslot_destroy] on a mailslot whose [fd] or
    [write_fd] is still NULL: the assertion at the head of
    [mailslot_destroy] fails, and the function does not return. *)
Theorem create_mailslot_cleanup_asserts tolowerW name len max_msgsize_ read_timeout_ s :
  name_refused tolowerW name len = false →
  sync_namespace s !! name_key name len = None →
  (mem_free s = O →
   create_mailslot tolowerW name len max_msgsize_ read_timeout_ s
     = Done None (set_error_field STATUS_NO_MEMORY s)) ∧
  (mem_free s ≠ O → (mem_free s < 3)%nat ∨ (fds_free s < 2)%nat →
   create_mailslot tolowerW name len max_msgsize_ read_timeout_ s
     = Fault AssertionFailed).
Proof.
  intros Href Hname. split.
  { intros Hmem. apply wp_done_eq. unfold create_mailslot. rewrite Href.
    apply wp_bind. unfold create_named_object. rewrite (name_refused_len _ _ _ Href).
    apply wp_bind, wp_find_object. rewrite Hname.
    apply wp_bind, wp_alloc_object. rewrite Hmem. by do 2 apply wp_ret. }
  intros Hmem Hshort.
  rewrite create_mailslot_binds by done.
  set (key := name_key name len).
  set (p := fresh (dom (heap s))).
  set (m0 := blank_mailslot max_msgsize_ read_timeout_).
  set (sb := mailslot_bound key max_msgsize_ read_timeout_ p s).
  assert (heap s !! p = None) as Hp by apply fresh_unallocated.
  assert (mailslot_at (heap sb) p = Some m0) as Hm0 by apply mailslot_at_insert_eq.
  assert (refcount_at (heap sb) p = Some 1%nat) as Hrc0.
  { unfold sb, mailslot_bound, refcount_at. state_simpl. by rewrite lookup_insert_eq. }
  apply bind_outcome, wp_socketpair.
  replace (fds_free sb) with (fds_free s) by done.
  destruct (fds_free s) as [|[|k]] eqn:Hk.
  1,2: apply bind_outcome, wp_set_error; apply bind_fault;
       apply (release_unfinished_mailslot _ m0); by try left.
  cbv zeta.
  set (a := fresh (dom (sockets sb))).
  set (b := fresh ({[a]} ∪ dom (sockets sb))).
  assert (a ≠ b) as Hab by apply fresh_pair_ne.
  apply bind_outcome. eapply wp_fcntl_nonblock.
  { state_simpl. rewrite lookup_insert_ne by done. apply lookup_insert_eq. }
  apply bind_outcome. eapply wp_fcntl_nonblock.
  { state_simpl. rewrite lookup_insert_ne by done. apply lookup_insert_eq. }
  cbn [sock_queued]. state_simpl.
  apply bind_outcome, wp_create_anonymous_fd. state_simpl.
  replace (mem_free sb) with (pred (mem_free s)) by done.
  destruct (mem_free s) as [|[|[|n]]] eqn:Hn; [done| | |lia]; cbn [pred].
  - (* no memory for the first struct fd, nor for the second *)
    apply bind_outcome, (wp_get_mailslot _ m0).
    { by rewrite heap_closed. }
    apply bind_outcome, (wp_put_mailslot _ m0).
    { by rewrite heap_closed. }
    apply bind_outcome, wp_create_anonymous_fd. state_simpl.
    rewrite mem_free_closed. state_simpl.
    replace (mem_free sb) with (pred (mem_free s)) by done. rewrite Hn. cbn [pred].
    apply bind_outcome, (wp_get_mailslot _ (with_fd m0 None)).
    { rewrite heap_closed. state_simpl. eapply mailslot_at_put_eq.
      by rewrite heap_closed. }
    apply bind_outcome, (wp_put_mailslot _ (with_fd m0 None)).
    { rewrite heap_closed. state_simpl. eapply mailslot_at_put_eq.
      by rewrite heap_closed. }
    cbn [is_set andb]. apply bind_fault.
    apply (release_unfinished_mailslot _ (with_write_fd (with_fd m0 None) None)).
    + state_simpl. eapply mailslot_at_put_eq.
      rewrite heap_closed. state_simpl. eapply mailslot_at_put_eq.
      by rewrite heap_closed.
    + state_simpl. rewrite refcount_at_put_body, heap_closed. state_simpl.
      by rewrite refcount_at_put_body, heap_closed.
    + by left.
  - (* memory for the first struct fd, none for the second *)
    set (rfd := fresh (dom (heap sb))).
    assert (heap sb !! rfd = None) as Hrfd by apply fresh_unallocated.
    pose proof (mailslot_at_unallocated_ne _ _ _ _ Hrfd Hm0) as Hne.
    apply bind_outcome, (wp_get_mailslot _ m0); [heap_solve|].
    apply bind_outcome, (wp_put_mailslot _ m0); [heap_solve|]. state_simpl.
    apply bind_outcome, wp_create_anonymous_fd. state_simpl.
    apply bind_outcome, (wp_get_mailslot _ (with_fd m0 (Some rfd))).
    { rewrite heap_closed. heap_solve. }
    apply bind_outcome, (wp_put_mailslot _ (with_fd m0 (Some rfd))).
    { rewrite heap_closed. heap_solve. }
    cbn [is_set andb]. apply bind_fault.
    apply (release_unfinished_mailslot _ (with_write_fd (with_fd m0 (Some rfd)) None)).
    + state_simpl. eapply mailslot_at_put_eq. rewrite heap_closed. heap_solve.
    + state_simpl. rewrite refcount_at_put_body, heap_closed. state_simpl.
      by rewrite refcount_at_put_body, refcount_at_insert_ne.
    + by right.
Qed.

(** *** Releasing the last reference *)

Lemma closed_open u sock s :
  sockets s !! u = Some sock → closed u s = set_sockets (delete u) (S (fds_free s)) s.
Proof. unfold closed. by intros ->. Qed.

Lemma name_at_Some h p o : h !! p = Some o → name_at h p = obj_name o.
Proof. unfold name_at. by intros ->. Qed.

(** The last reference of a [struct fd] over an open descriptor. *)
Lemma fd_released_last p f sock s :
  fd_unix_fd f ≠ -1 → sockets s !! fd_unix_fd f = Some sock →
  name_at (heap s) p = None →
  fd_released p f 0 s
  = set_mem_free (S (mem_free s))
      (set_heap (delete p) (set_sockets (delete (fd_unix_fd f)) (S (fds_free s)) s)).
Proof.
  intros Hu Hs Hname. unfold fd_released.
  rewrite (proj2 (Z.eqb_neq _ _) Hu), Hname, (closed_open _ _ _ Hs).
  by apply server_eq.
Qed.

Lemma wp_mailslot_destroy p m rfd fr nr wfd fw nw s Q :
  mailslot_at (heap s) p = Some m →
  fd m = Some rfd → write_fd m = Some wfd → rfd ≠ wfd →
  fd_at (heap s) rfd = Some fr → fd_at (heap s) wfd = Some fw →
  refcount_at (heap s) rfd = Some (S nr) → refcount_at (heap s) wfd = Some (S nw) →
  Q tt (mailslot_destroyed p m rfd fr nr wfd fw nw s) →
  wp (mailslot_destroy p) s Q.
Proof.
  intros Hm Hrfd Hwfd Hne Hfr Hfw Hnr Hnw HQ.
  pose proof (fd_mailslot_ne _ _ _ _ _ Hfr Hm) as Hne1.
  pose proof (fd_mailslot_ne _ _ _ _ _ Hfw Hm) as Hne2.
  wp_step wp_get_mailslot. rewrite Hrfd, Hwfd.
  apply wp_bind, wp_ret. apply wp_bind, wp_ret.
  wp_step wp_async_terminate_queue.
  unfold mailslot_destroyed in HQ.
  set (s1 := queue_terminated _ _ _ _) in *.
  assert (refcount_at (heap s1) rfd = Some (S nr)) as Hnr1
    by (unfold s1; state_simpl; by rewrite refcount_at_put_body).
  assert (refcount_at (heap s1) wfd = Some (S nw)) as Hnw1
    by (unfold s1; state_simpl; by rewrite refcount_at_put_body).
  assert (fd_at (heap s1) rfd = Some fr) as Hfr1 by (unfold s1; heap_solve).
  assert (fd_at (heap s1) wfd = Some fw) as Hfw1 by (unfold s1; heap_solve).
  apply wp_bind, (wp_release_fd _ fr nr); [done..|].
  apply (wp_release_fd _ fw nw); [heap_solve| |done].
  by rewrite refcount_at_fd_released_ne.
Qed.

Lemma heap_mailslot_destroyed p m rfd fr nr wfd fw nw s q :
  q ≠ rfd → q ≠ wfd →
  heap (mailslot_destroyed p m rfd fr nr wfd fw nw s) !! q
  = heap (queue_terminated p m STATUS_CANCELLED s) !! q.
Proof.
  intros H1 H2. unfold mailslot_destroyed. rewrite !heap_fd_released.
  destruct nw, nr; unfold put_refcount;
    rewrite ?lookup_delete_ne, ?lookup_alter_ne by done;
    rewrite ?lookup_delete_ne, ?lookup_alter_ne by done; done.
Qed.

(** [release_object] on the last reference of a mailslot: the object is
    destroyed and then freed. *)
Lemma wp_release_mailslot_last p m rfd fr nr wfd fw nw s Q :
  mailslot_at (heap s) p = Some m → refcount_at (heap s) p = Some 1%nat →
  fd m = Some rfd → write_fd m = Some wfd → rfd ≠ wfd →
  fd_at (heap s) rfd = Some fr → fd_at (heap s) wfd = Some fw →
  refcount_at (heap s) rfd = Some (S nr) → refcount_at (heap s) wfd = Some (S nw) →
  Q tt (object_freed p
          (mailslot_destroyed p m rfd fr nr wfd fw nw (set_heap (put_refcount p 0) s))) →
  wp (release_mailslot p) s Q.
Proof.
  intros Hm Hrc Hrfd Hwfd Hne Hfr Hfw Hnr Hnw HQ.
  pose proof (fd_mailslot_ne _ _ _ _ _ Hfr Hm) as Hne1.
  pose proof (fd_mailslot_ne _ _ _ _ _ Hfw Hm) as Hne2.
  wp_step wp_get_mailslot.
  pose proof Hrc as (o & Ho & Hn)%refcount_at_Some.
  unfold release_with. apply wp_bind, (wp_deref _ o); [done|]. rewrite Hn.
  apply wp_bind, wp_store. unfold set_heap at 1.
  rewrite (insert_with_refcount _ _ _ _ Ho).
  change (wp (mailslot_destroy p ;;; free_object p) (set_heap (put_refcount p 0) s) Q).
  apply wp_bind, (wp_mailslot_destroy _ m rfd fr nr wfd fw nw); try done.
  1-3: heap_solve.
  1-2: state_simpl; by rewrite refcount_at_put_refcount, decide_False.
  set (s3 := mailslot_destroyed _ _ _ _ _ _ _ _ _) in *.
  assert (∃ o3, heap s3 !! p = Some o3 ∧ obj_name o3 = obj_name o) as (o3 & Ho3 & Hnm).
  { unfold s3. rewrite heap_mailslot_destroyed by done. unfold queue_terminated. state_simpl.
    unfold put_body, put_refcount. rewrite lookup_alter_eq, lookup_alter_eq, Ho.
    eexists. split; [done|]. done. }
  apply (wp_free_object _ o3); [done|].
  unfold object_freed in HQ. by rewrite (name_at_Some _ _ _ Ho3) in HQ.
Qed.

(** [alloc_handle], both ways. *)
Lemma wp_alloc_handle obj acc inherit k s Q :
  refcount_at (heap s) obj = Some k →
  match mem_free s with
  | O => Q 0 (set_error_field STATUS_NO_MEMORY s)
  | S n =>
      Q (index_to_handle (length (handles s)))
        (handle_added obj acc inherit
           (set_heap (put_refcount obj (S k)) (set_mem_free n s)))
  end →
  wp (alloc_handle obj acc inherit) s Q.
Proof.
  intros Hk HQ. apply wp_bind, wp_mem_alloc.
  destruct (mem_free s) as [|n]; [by apply wp_ret|].
  apply wp_bind, (wp_grab_object _ k); [done|].
  apply wp_bind, wp_get_state. apply wp_bind, wp_modify. by apply wp_ret.
Qed.

Lemma index_to_handle_nonzero i : index_to_handle i ≠ 0.
Proof.
  unfold index_to_handle. rewrite Z.shiftl_mul_pow2 by lia. lia.
Qed.

(** *** The create_mailslot request, as a whole *)

Lemma name_key_all (data : list WCHAR) : name_key data (get_req_data_size data) = data.
Proof.
  unfold name_key, get_req_data_size.
  rewrite Z.mul_comm, Z.div_mul, Nat2Z.id by done. by apply take_ge.
Qed.

(** X8.  With memory for three objects and room for two descriptors,
    [create_mailslot] on a good name that nothing bears does return the
    mailslot.  It is a new object, bound to the name, with the error
    cleared, and the creation disturbs nothing that exists: every object,
    every name, every open socket is as before, and so are the handle table
    and the completions delivered. *)
Theorem create_mailslot_succeeds tolowerW name len max_msgsize_ read_timeout_ s :
  name_refused tolowerW name len = false →
  sync_namespace s !! name_key name len = None →
  (3 ≤ mem_free s)%nat → (2 ≤ fds_free s)%nat →
  ∃ mailslot s',
    create_mailslot tolowerW name len max_msgsize_ read_timeout_ s
      = Done (Some mailslot) s' ∧
    heap s !! mailslot = None ∧
    sync_namespace s' = <[name_key name len := mailslot]> (sync_namespace s) ∧
    error s' = STATUS_SUCCESS ∧
    heap s ⊆ heap s' ∧ sockets s ⊆ sockets s' ∧
    handles s' = handles s ∧ apcs s' = apcs s ∧
    (mem_free s' + 3 = mem_free s)%nat ∧ (fds_free s' + 2 = fds_free s)%nat.
Proof.
  intros Href Hname Hmem Hfds.
  destruct (create_mailslot_total tolowerW name len max_msgsize_ read_timeout_ s)
    as (p & rfd & wfd & u0 & u1 & Hp & Hrfd & Hwfd & Hprfd & Hpwfd & Hrw
        & Hu0 & Hu1 & Hu & _ & _ & Hcreate); [done..|].
  eexists p, _. split; [exact Hcreate|].
  unfold mailslot_built. state_simpl. split_and!; try done; try lia.
  - apply insert_subseteq_r; [done|]. apply insert_subseteq_r; [done|].
    by apply insert_subseteq.
  - apply insert_subseteq_r; [done|]. by apply insert_subseteq.
Qed.

(** The create_mailslot request with memory for the three objects and the
    handle: the handle it returns and the state it leaves. *)
Lemma req_create_mailslot_total tolowerW req s :
  name_refused tolowerW (create_data req) (get_req_data_size (create_data req)) = false →
  sync_namespace s !! create_data req = None →
  (4 ≤ mem_free s)%nat → (2 ≤ fds_free s)%nat →
  ∃ mailslot rfd wfd u0 u1,
    heap s !! mailslot = None ∧ heap s !! rfd = None ∧ heap s !! wfd = None ∧
    mailslot ≠ rfd ∧ mailslot ≠ wfd ∧ rfd ≠ wfd ∧ u0 ≠ u1 ∧
    req_create_mailslot tolowerW req s
      = Done (index_to_handle (length (handles s)))
          (handle_added mailslot GENERIC_READ (create_inherit req)
             (set_mem_free (mem_free s - 4)
                (mailslot_built (create_data req) (create_max_msgsize req)
                   (create_read_timeout req) mailslot rfd wfd u0 u1 s))).
Proof.
  intros Href Hname Hmem Hfds.
  destruct (create_mailslot_total tolowerW (create_data req)
              (get_req_data_size (create_data req))
              (create_max_msgsize req) (create_read_timeout req) s)
    as (p & rfd & wfd & u0 & u1 & Hp & Hrfd & Hwfd & Hprfd & Hpwfd & Hrw
        & Hu0 & Hu1 & Hu & _ & _ & Hcreate); [done|by rewrite name_key_all|lia|done|].
  rewrite name_key_all in Hcreate.
  set (sb := mailslot_built _ _ _ _ _ _ _ _ _) in *.
  assert (refcount_at (heap sb) p = Some 1%nat) as Hrc.
  { unfold sb, mailslot_built, refcount_at. state_simpl. by simplify_map_eq. }
  assert (∃ m, mailslot_at (heap sb) p = Some m) as [m Hm].
  { eexists. unfold sb, mailslot_built. state_simpl.
    apply mailslot_at_insert.
    { rewrite !lookup_insert_ne by done. done. }
    apply mailslot_at_insert.
    { by rewrite lookup_insert_ne. }
    apply mailslot_at_insert_eq. }
  exists p, rfd, wfd, u0, u1. split_and!; try done.
  apply wp_done_eq. unfold req_create_mailslot.
  apply wp_bind, (wp_of_eq _ _ _ _ _ Hcreate).
  apply wp_bind, (wp_alloc_handle _ _ _ 1); [done|].
  replace (mem_free sb) with (mem_free s - 3)%nat by done.
  destruct (mem_free s - 3)%nat as [|n] eqn:Hn; [lia|].
  apply wp_bind, (wp_release_mailslot_keep _ m 0).
  { unfold handle_added. heap_solve. }
  { unfold handle_added. state_simpl. by apply (refcount_at_put_refcount_eq _ _ _ 1%nat). }
  apply wp_ret. split; [done|].
  apply server_eq; unfold handle_added; state_simpl; try done.
  - rewrite put_refcount_put_refcount. by apply put_refcount_same.
  - lia.
Qed.

(** X10.  With memory for the three objects and the handle, the
    create_mailslot request returns the next handle of the table, which is
    not null, and binds the name to the new mailslot.  The mailslot owns
    two distinct [struct fd] over the two ends of one socket pair, both
    non-blocking and empty: it reads through the one with the mailslot
    operations and is written through the one with the writer operations.
    The references balance: the request holds one from the creation, the
    handle takes one, the request gives its own back, and the handle is
    left holding the only reference of the mailslot; each [struct fd] has
    one reference, the mailslot's. *)
Theorem create_request_succeeds tolowerW req s :
  name_refused tolowerW (create_data req) (get_req_data_size (create_data req)) = false →
  sync_namespace s !! create_data req = None →
  (4 ≤ mem_free s)%nat → (2 ≤ fds_free s)%nat →
  ∃ mailslot rfd wfd u0 u1 s',
    req_create_mailslot tolowerW req s = Done (index_to_handle (length (handles s))) s' ∧
    index_to_handle (length (handles s)) ≠ 0 ∧
    heap s !! mailslot = None ∧
    handles s' = handles s ++ [{| entry_ptr := mailslot; entry_access := GENERIC_READ;
                                  entry_inherit := create_inherit req |}] ∧
    sync_namespace s' !! create_data req = Some mailslot ∧
    mailslot_at (heap s') mailslot
      = Some {| fd := Some rfd; write_fd := Some wfd;
                max_msgsize := create_max_msgsize req;
                read_timeout := create_read_timeout req; writers := []; read_q := [] |} ∧
    rfd ≠ wfd ∧ u0 ≠ u1 ∧
    fd_at (heap s') rfd
      = Some {| fd_fd_ops := mailslot_fd_ops; fd_unix_fd := u1; fd_user := Some mailslot;
                fd_poll_events := 0 |} ∧
    fd_at (heap s') wfd
      = Some {| fd_fd_ops := mail_writer_fd_ops; fd_unix_fd := u0; fd_user := Some mailslot;
                fd_poll_events := 0 |} ∧
    sockets s' !! u1 = Some {| sock_queued := []; sock_nonblock := true |} ∧
    sockets s' !! u0 = Some {| sock_queued := []; sock_nonblock := true |} ∧
    refcount_at (heap s') mailslot = Some 1%nat ∧
    refcount_at (heap s') rfd = Some 1%nat ∧ refcount_at (heap s') wfd = Some 1%nat ∧
    error s' = STATUS_SUCCESS ∧ (mem_free s' + 4 = mem_free s)%nat.
Proof.
  intros Href Hname Hmem Hfds.
  destruct (req_create_mailslot_total tolowerW req s)
    as (p & rfd & wfd & u0 & u1 & Hp & Hrfd & Hwfd & Hprfd & Hpwfd & Hrw & Hu & Hreq);
    [done..|].
  eexists p, rfd, wfd, u0, u1, _. split; [exact Hreq|].
  unfold handle_added, mailslot_built, fresh_socket. state_simpl.
  split_and!; try done.
  - apply index_to_handle_nonzero.
  - apply lookup_insert_eq.
  - unfold mailslot_at, body_at. by simplify_map_eq.
  - unfold fd_at, body_at. by simplify_map_eq.
  - unfold fd_at, body_at. by simplify_map_eq.
  - by simplify_map_eq.
  - by simplify_map_eq.
  - unfold refcount_at. by simplify_map_eq.
  - unfold refcount_at. by simplify_map_eq.
  - unfold refcount_at. by simplify_map_eq.
  - lia.
Qed.

(** X11.  When memory runs out just as the handle is to be allocated, the
    create_mailslot request undoes what it has built.  [release_object]
    drops the only reference of the mailslot, [mailslot_destroy] releases
    the two [struct fd], which closes both sockets, and the name leaves the
    directory: the request returns a null handle and STATUS_NO_MEMORY, and
    the server is otherwise exactly as it was before the request. *)
Theorem create_request_rolls_back tolowerW req s :
  name_refused tolowerW (create_data req) (get_req_data_size (create_data req)) = false →
  sync_namespace s !! create_data req = None →
  mem_free s = 3%nat → (2 ≤ fds_free s)%nat →
  req_create_mailslot tolowerW req s = Done 0 (set_error_field STATUS_NO_MEMORY s).
Proof.
  intros Href Hname Hmem Hfds.
  destruct (create_mailslot_total tolowerW (create_data req)
              (get_req_data_size (create_data req))
              (create_max_msgsize req) (create_read_timeout req) s)
    as (p & rfd & wfd & u0 & u1 & Hp & Hrfd & Hwfd & Hprfd & Hpwfd & Hrw
        & Hu0 & Hu1 & Hu & Hpos0 & Hpos1 & Hcreate);
    [done|by rewrite name_key_all|lia|done|].
  rewrite name_key_all in Hcreate.
  set (key := create_data req) in *.
  set (m := {| fd := Some rfd; write_fd := Some wfd;
               max_msgsize := create_max_msgsize req;
               read_timeout := create_read_timeout req; writers := []; read_q := [] |}).
  set (fr := {| fd_fd_ops := mailslot_fd_ops; fd_unix_fd := u1; fd_user := Some p;
                fd_poll_events := 0 |}).
  set (fw := {| fd_fd_ops := mail_writer_fd_ops; fd_unix_fd := u0; fd_user := Some p;
                fd_poll_events := 0 |}).
  set (sb := mailslot_built _ _ _ _ _ _ _ _ _) in *.
  assert (heap sb !! p = Some (named_mailslot key m)) as Hlp.
  { unfold sb, mailslot_built. state_simpl. by simplify_map_eq. }
  assert (heap sb !! rfd = Some (anonymous_fd mailslot_fd_ops u1 p)) as Hlr.
  { unfold sb, mailslot_built. state_simpl. by simplify_map_eq. }
  assert (heap sb !! wfd = Some (anonymous_fd mail_writer_fd_ops u0 p)) as Hlw.
  { unfold sb, mailslot_built. state_simpl. by rewrite lookup_insert_eq. }
  assert (refcount_at (heap sb) p = Some 1%nat) as Hrc
    by (unfold refcount_at; by rewrite Hlp).
  assert (mailslot_at (heap sb) p = Some m) as Hm
    by (unfold mailslot_at, body_at; by rewrite Hlp).
  assert (fd_at (heap sb) rfd = Some fr) as Hfr
    by (unfold fd_at, body_at; by rewrite Hlr).
  assert (fd_at (heap sb) wfd = Some fw) as Hfw
    by (unfold fd_at, body_at; by rewrite Hlw).
  apply wp_done_eq. unfold req_create_mailslot.
  apply wp_bind, (wp_of_eq _ _ _ _ _ Hcreate).
  apply wp_bind, (wp_alloc_handle _ _ _ 1); [done|].
  replace (mem_free sb) with (mem_free s - 3)%nat by done. rewrite Hmem. cbn [Nat.sub].
  apply wp_bind, (wp_release_mailslot_last _ m rfd fr 0 wfd fw 0);
    state_simpl; try done.
  1-2: unfold refcount_at; by rewrite ?Hlr, ?Hlw.
  apply wp_ret. split; [done|].
  (* the state that is left, field by field *)
  unfold mailslot_destroyed.
  rewrite queue_terminated_nil; [|heap_solve|done].
  rewrite (fd_released_last rfd fr fresh_socket); cycle 1.
  { cbn [fd_unix_fd fr]. lia. }
  { unfold sb, mailslot_built. state_simpl. cbn [fd_unix_fd fr]. apply lookup_insert_eq. }
  { state_simpl. unfold name_at, put_refcount. by rewrite lookup_alter_ne, Hlr. }
  rewrite (fd_released_last wfd fw fresh_socket); cycle 1.
  { cbn [fd_unix_fd fw]. lia. }
  { unfold sb, mailslot_built. state_simpl. cbn [fd_unix_fd fw fr].
    rewrite lookup_delete_ne, lookup_insert_ne by done. apply lookup_insert_eq. }
  { state_simpl. unfold name_at, put_refcount.
    by rewrite lookup_delete_ne, lookup_alter_ne, Hlw. }
  unfold object_freed. state_simpl.
  assert (name_at (delete wfd (delete rfd (put_refcount p 0 (heap sb)))) p = Some key) as ->.
  { unfold name_at, put_refcount.
    by rewrite !lookup_delete_ne, lookup_alter_eq, Hlp. }
  apply server_eq; state_simpl; unfold sb, mailslot_built; state_simpl;
    rewrite ?Hmem; try done.
  - unfold put_refcount. apply map_eq. intros i.
    destruct (decide (i = p)) as [->|]; [|destruct (decide (i = rfd)) as [->|];
      [|destruct (decide (i = wfd)) as [->|]]]; simplify_map_eq; done.
  - by rewrite delete_insert_eq, delete_id.
  - cbn [fd_unix_fd fr fw]. apply map_eq. intros i.
    destruct (decide (i = u0)) as [->|]; [|destruct (decide (i = u1)) as [->|]];
      simplify_map_eq; done.
  - lia.
Qed.

(** *** The steps of the open_mailslot request *)

Lemma wp_open_mailslot name len p m k s Q :
  sync_namespace s !! name_key name len = Some p →
  mailslot_at (heap s) p = Some m → refcount_at (heap s) p = Some k →
  Q (Some p) (set_heap (put_refcount p (S k)) s) →
  wp (open_mailslot name len) s Q.
Proof.
  intros Hname Hm Hk HQ. unfold open_mailslot.
  apply wp_bind, wp_find_object. rewrite Hname. exists k. split; [done|].
  pose proof Hm as (o & Ho & Hb)%mailslot_at_Some.
  apply wp_bind, (wp_deref _ (with_refcount o (S k))).
  { state_simpl. unfold put_refcount. by rewrite lookup_alter_eq, Ho. }
  unfold obj_ops. cbn [body with_refcount]. rewrite Hb, decide_True by done.
  by apply wp_ret.
Qed.

Lemma wp_create_mail_writer_refused mailslot m head others w0 acc shr s Q :
  mailslot_at (heap s) mailslot = Some m →
  writers m = head :: others → mail_writer_at (heap s) head = Some w0 →
  sharing_conflict acc shr w0 = true →
  Q None (set_error_field STATUS_SHARING_VIOLATION s) →
  wp (create_mail_writer mailslot acc shr) s Q.
Proof.
  intros Hm Hw Hhead Hc HQ. unfold create_mail_writer.
  wp_step wp_get_mailslot. rewrite Hw.
  apply wp_bind. wp_step wp_get_mail_writer. apply wp_ret. rewrite Hc.
  apply wp_bind, wp_set_error. by apply wp_ret.
Qed.

Lemma wp_create_mail_writer_admitted mailslot m k acc shr s Q :
  mailslot_at (heap s) mailslot = Some m → refcount_at (heap s) mailslot = Some k →
  admits (heap s) m acc shr →
  match mem_free s with
  | O => Q None (set_error_field STATUS_NO_MEMORY s)
  | S _ =>
      Q (Some (fresh (dom (heap s))))
        (writer_attached mailslot m k (fresh (dom (heap s))) acc shr s)
  end →
  wp (create_mail_writer mailslot acc shr) s Q.
Proof.
  intros Hm Hk Hadm HQ. unfold create_mail_writer.
  wp_step wp_get_mailslot.
  apply wp_bind with (Q := Q) (m := match writers m with
                                     | [] => ret false
                                     | head :: _ =>
                                         writer <- get_mail_writer head ;;
                                         ret (sharing_conflict acc shr writer)
                                     end).
  assert (wp (match writers m with
              | [] => ret false
              | head :: _ =>
                  writer <- get_mail_writer head ;; ret (sharing_conflict acc shr writer)
              end) s (fun r s' => r = false ∧ s' = s)) as Hhead.
  { unfold admits in Hadm. destruct (writers m) as [|head others]; [by apply wp_ret|].
    destruct Hadm as (w0 & Hw0 & Hc).
    apply wp_bind, (wp_get_mail_writer _ w0); [done|]. by apply wp_ret. }
  eapply wp_mono; [exact Hhead|]. intros r s' [-> ->].
  apply wp_bind, wp_alloc_object.
  destruct (mem_free s) as [|n] eqn:Hn; [by apply wp_ret|]. cbv zeta.
  set (writer := fresh (dom (heap s))) in *.
  assert (heap s !! writer = None) as Hfresh by apply fresh_unallocated.
  pose proof (mailslot_at_unallocated_ne _ _ _ _ Hfresh Hm) as Hne.
  apply wp_bind, (wp_grab_object _ k).
  { state_simpl. by rewrite refcount_at_insert_ne. }
  state_simpl.
  apply wp_bind, (wp_put_mail_writer _ (Build_struct_mail_writer None 0 0)).
  { state_simpl. apply mail_writer_at_put_refcount, mail_writer_at_insert_eq. }
  state_simpl.
  wp_step wp_get_mailslot. wp_step wp_put_mailslot. apply wp_ret.
  match goal with |- Q _ ?x => match type of HQ with Q _ ?y =>
    replace x with y; [done|] end end.
  apply server_eq; unfold writer_attached; state_simpl; rewrite ?Hn; try done.
  unfold put_body, put_refcount, new_mail_writer.
  apply map_eq. intros i.
  destruct (decide (i = mailslot)) as [->|]; [|destruct (decide (i = writer)) as [->|]];
    simplify_map_eq; done.
Qed.

Lemma wp_release_mail_writer_keep w wr k s Q :
  mail_writer_at (heap s) w = Some wr → refcount_at (heap s) w = Some (S (S k)) →
  Q tt (set_heap (put_refcount w (S k)) s) →
  wp (release_mail_writer w) s Q.
Proof.
  intros Hw Hk HQ. unfold release_mail_writer.
  wp_step wp_get_mail_writer. by apply (wp_release_keep _ _ k).
Qed.

(** [release_object] on the last reference of a writer whose mailslot has
    other references: [mail_writer_destroy] takes the writer out of the
    list and gives back its reference of the mailslot. *)
Lemma wp_release_mail_writer_last w wr p m k s Q :
  mail_writer_at (heap s) w = Some wr → writer_mailslot wr = Some p →
  refcount_at (heap s) w = Some 1%nat →
  mailslot_at (heap s) p = Some m → refcount_at (heap s) p = Some (S (S k)) →
  Q tt (object_freed w
          (set_heap (fun h => put_refcount p (S k)
                                (put_body p (Mailslot (without_writer w m))
                                   (put_refcount w 0 h))) s)) →
  wp (release_mail_writer w) s Q.
Proof.
  intros Hw Hp Hrc Hm Hk HQ.
  pose proof (mail_writer_mailslot_ne _ _ _ _ _ Hw Hm) as Hne.
  unfold release_mail_writer. wp_step wp_get_mail_writer.
  pose proof Hrc as (o & Ho & Hn)%refcount_at_Some.
  unfold release_with. apply wp_bind, (wp_deref _ o); [done|]. rewrite Hn.
  apply wp_bind, wp_store. unfold set_heap at 1.
  rewrite (insert_with_refcount _ _ _ _ Ho).
  change (wp (mail_writer_destroy w ;;; free_object w) (set_heap (put_refcount w 0) s) Q).
  apply wp_bind. unfold mail_writer_destroy.
  apply wp_bind, (wp_get_mail_writer _ wr); [heap_solve|]. rewrite Hp.
  apply wp_bind, wp_ret.
  apply wp_bind, (wp_get_mailslot _ m); [heap_solve|].
  apply wp_bind, (wp_put_mailslot _ m); [heap_solve|]. state_simpl.
  apply (wp_release_mailslot_keep _ (without_writer w m) k).
  { state_simpl. eapply mailslot_at_put_eq. heap_solve. }
  { state_simpl. rewrite refcount_at_put_body, refcount_at_put_refcount.
    by rewrite decide_False. }
  state_simpl.
  apply (wp_free_object _ (with_refcount o 0)).
  { state_simpl. unfold put_refcount, put_body.
    by rewrite !lookup_alter_ne, lookup_alter_eq, Ho by done. }
  unfold object_freed in HQ. state_simpl.
  erewrite name_at_Some in HQ; [exact HQ|].
  unfold put_refcount, put_body.
  by rewrite !lookup_alter_ne, lookup_alter_eq, Ho by done.
Qed.

Lemma filter_fresh_writer (w : ptr) (l : list ptr) :
  w ∉ l → filter (fun q => q ≠ w) (w :: l) = l.
Proof.
  intros Hw. rewrite filter_cons_False by (intros ?; done).
  induction l as [|q l IH]; [done|].
  apply not_elem_of_cons in Hw as [Hne Hw].
  rewrite filter_cons_True by done. by rewrite IH.
Qed.

(** *** The open_mailslot request, as a whole *)

(** The open_mailslot request on a mailslot that admits the writer, with
    memory for the writer and its handle: the handle it returns and the
    state it leaves. *)
Lemma req_open_mailslot_total s req mailslot m k :
  includes (open_sharing req) FILE_SHARE_READ →
  sync_namespace s !! open_data req = Some mailslot →
  mailslot_at (heap s) mailslot = Some m →
  refcount_at (heap s) mailslot = Some (S k) →
  admits (heap s) m (open_access req) (open_sharing req) →
  (2 ≤ mem_free s)%nat →
  req_open_mailslot req s
  = Done (index_to_handle (length (handles s)))
      (handle_added (fresh (dom (heap s))) (open_access req) (open_inherit req)
         (set_mem_free (mem_free s - 2)
            (writer_attached mailslot m (S k) (fresh (dom (heap s)))
               (open_access req) (open_sharing req) s))).
Proof.
  intros Hshare Hname Hm Hk Hadm Hmem.
  set (writer := fresh (dom (heap s))).
  assert (heap s !! writer = None) as Hfresh by apply fresh_unallocated.
  pose proof (mailslot_at_unallocated_ne _ _ _ _ Hfresh Hm) as Hne.
  apply wp_done_eq. unfold req_open_mailslot.
  rewrite (proj2 (nonzero_true _) Hshare). cbn [negb].
  apply wp_bind, (wp_open_mailslot _ _ mailslot m (S k));
    [by rewrite name_key_all|done..|].
  apply wp_bind, (wp_create_mail_writer_admitted _ m (S (S k))).
  { heap_solve. }
  { state_simpl. by apply (refcount_at_put_refcount_eq _ _ _ (S k)). }
  { unfold admits in *. destruct (writers m) as [|head others]; [done|].
    destruct Hadm as (w0 & Hw0 & Hc). exists w0. split; [|done]. heap_solve. }
  state_simpl. destruct (mem_free s) as [|[|n]] eqn:Hn; [lia..|].
  assert (fresh (dom (put_refcount mailslot (S (S k)) (heap s))) = writer) as ->.
  { unfold writer. f_equal. unfold put_refcount. apply dom_alter_L. }
  set (s1 := writer_attached _ _ _ _ _ _ _).
  assert (heap s1 = put_body mailslot (Mailslot (with_writers m (writer :: writers m)))
                      (put_refcount mailslot (S (S (S k)))
                         (<[writer := new_mail_writer mailslot (open_access req)
                                        (open_sharing req)]>
                            (put_refcount mailslot (S (S k)) (heap s))))) as Hh1 by done.
  assert (mem_free s1 = S n) as Hmem1.
  { unfold s1, writer_attached. state_simpl. by rewrite Hn. }
  assert (refcount_at (heap s1) writer = Some 1%nat) as Hrcw.
  { rewrite Hh1, refcount_at_put_body, refcount_at_put_refcount,
      decide_False by done. unfold refcount_at. by rewrite lookup_insert_eq. }
  assert (mail_writer_at (heap s1) writer
          = Some {| writer_mailslot := Some mailslot; access := open_access req;
                    sharing := open_sharing req |}) as Hw1.
  { rewrite Hh1. apply mail_writer_at_put_ne; [done|].
    apply mail_writer_at_put_refcount, mail_writer_at_insert_eq. }
  assert (mailslot_at (heap s1) mailslot
          = Some (with_writers m (writer :: writers m))) as Hm1.
  { rewrite Hh1. eapply mailslot_at_put_eq. apply mailslot_at_put_refcount.
    apply mailslot_at_insert; [|heap_solve].
    unfold put_refcount. by rewrite lookup_alter_ne. }
  assert (refcount_at (heap s1) mailslot = Some (S (S (S k)))) as Hrcm.
  { rewrite Hh1, refcount_at_put_body.
    apply (refcount_at_put_refcount_eq _ _ _ (S (S k))).
    rewrite refcount_at_insert_ne by done.
    by apply (refcount_at_put_refcount_eq _ _ _ (S k)). }
  apply wp_bind, wp_bind, (wp_alloc_handle _ _ _ 1); [done|]. rewrite Hmem1.
  apply wp_bind. eapply (wp_release_mail_writer_keep _ _ 0).
  { unfold handle_added. state_simpl. by apply mail_writer_at_put_refcount. }
  { unfold handle_added. state_simpl.
    by apply (refcount_at_put_refcount_eq _ _ _ 1%nat). }
  apply wp_ret. unfold handle_added. state_simpl.
  apply wp_bind, (wp_release_mailslot_keep _ (with_writers m (writer :: writers m)) (S k)).
  { state_simpl. by do 2 apply mailslot_at_put_refcount. }
  { state_simpl. rewrite !refcount_at_put_refcount, !decide_False by done. done. }
  apply wp_ret. split; [done|].
  pose proof Hk as (o & Ho & Hrco)%refcount_at_Some.
  apply server_eq; state_simpl; try done.
  - rewrite Hh1. unfold writer_attached. state_simpl.
    unfold put_refcount, put_body, new_mail_writer. apply map_eq. intros i.
    destruct (decide (i = mailslot)) as [->|];
      [|destruct (decide (i = writer)) as [->|]]; simplify_map_eq; done.
  - lia.
Qed.

(** X12.  The open_mailslot request on the name of a mailslot that admits
    the writer, with memory for the writer and for its handle, returns the
    next handle of the table, which is not null and carries the access that
    the request asked for.  The new writer is first in the list of the
    mailslot and remembers the requested access and sharing.  The
    references balance: the handle holds the one reference of the writer,
    and the mailslot has gained exactly one, the writer's. *)
Theorem open_request_admits_writer s req mailslot m k :
  includes (open_sharing req) FILE_SHARE_READ →
  sync_namespace s !! open_data req = Some mailslot →
  mailslot_at (heap s) mailslot = Some m →
  refcount_at (heap s) mailslot = Some (S k) →
  admits (heap s) m (open_access req) (open_sharing req) →
  (2 ≤ mem_free s)%nat →
  ∃ writer s',
    req_open_mailslot req s = Done (index_to_handle (length (handles s))) s' ∧
    index_to_handle (length (handles s)) ≠ 0 ∧
    heap s !! writer = None ∧
    handles s' = handles s ++ [{| entry_ptr := writer; entry_access := open_access req;
                                  entry_inherit := open_inherit req |}] ∧
    mail_writer_at (heap s') writer
      = Some {| writer_mailslot := Some mailslot; access := open_access req;
                sharing := open_sharing req |} ∧
    mailslot_at (heap s') mailslot = Some (with_writers m (writer :: writers m)) ∧
    refcount_at (heap s') writer = Some 1%nat ∧
    refcount_at (heap s') mailslot = Some (S (S k)) ∧
    error s' = error s ∧ (mem_free s' + 2 = mem_free s)%nat.
Proof.
  intros Hshare Hname Hm Hk Hadm Hmem.
  set (writer := fresh (dom (heap s))).
  assert (heap s !! writer = None) as Hfresh by apply fresh_unallocated.
  pose proof (mailslot_at_unallocated_ne _ _ _ _ Hfresh Hm) as Hne.
  eexists writer, _. split; [by apply (req_open_mailslot_total _ _ mailslot m k)|].
  fold writer. unfold handle_added, writer_attached. state_simpl.
  split_and!; try done.
  - apply index_to_handle_nonzero.
  - apply mail_writer_at_put_ne; [done|].
    apply mail_writer_at_put_refcount, mail_writer_at_insert_eq.
  - eapply mailslot_at_put_eq. apply mailslot_at_put_refcount. heap_solve.
  - rewrite refcount_at_put_body, refcount_at_put_refcount, decide_False by done.
    unfold refcount_at. by rewrite lookup_insert_eq.
  - rewrite refcount_at_put_body. apply (refcount_at_put_refcount_eq _ _ _ (S k)).
    by rewrite refcount_at_insert_ne.
  - lia.
Qed.

(** X13.  When the writer at the head of the list conflicts with the
    request, the open_mailslot request returns a null handle and
    STATUS_SHARING_VIOLATION, this time from [create_mail_writer].  The
    reference that the lookup took on the mailslot is given back, no writer
    is made and the list is as it was: only the error changes. *)
Theorem open_request_sharing_conflict s req mailslot m k head others w0 :
  includes (open_sharing req) FILE_SHARE_READ →
  sync_namespace s !! open_data req = Some mailslot →
  mailslot_at (heap s) mailslot = Some m →
  refcount_at (heap s) mailslot = Some (S k) →
  writers m = head :: others → mail_writer_at (heap s) head = Some w0 →
  includes (open_access req) GENERIC_WRITE ∨ includes (access w0) GENERIC_WRITE →
  ¬ (includes (open_sharing req) FILE_SHARE_WRITE ∧ includes (sharing w0) FILE_SHARE_WRITE) →
  req_open_mailslot req s = Done 0 (set_error_field STATUS_SHARING_VIOLATION s).
Proof.
  intros Hshare Hname Hm Hk Hw Hhead Hacc Hshr.
  assert (sharing_conflict (open_access req) (open_sharing req) w0 = true) as Hc
    by by apply sharing_conflict_spec.
  apply wp_done_eq. unfold req_open_mailslot.
  rewrite (proj2 (nonzero_true _) Hshare). cbn [negb].
  apply wp_bind, (wp_open_mailslot _ _ mailslot m (S k));
    [by rewrite name_key_all|done..|].
  apply wp_bind, (wp_create_mail_writer_refused _ m head others w0); [heap_solve..|done|].
  apply wp_bind, wp_ret.
  apply wp_bind, (wp_release_mailslot_keep _ m k).
  { heap_solve. }
  { state_simpl. by apply (refcount_at_put_refcount_eq _ _ _ (S k)). }
  apply wp_ret. split; [done|].
  apply server_eq; state_simpl; try done.
  rewrite put_refcount_put_refcount. by apply put_refcount_same.
Qed.

(** X14.  When memory runs out, the open_mailslot request leaves no trace
    but the error.  Without memory for the writer, the reference of the
    mailslot is given back.  With memory for the writer but none for its
    handle, [release_object( writer )] drops the only reference of the new
    writer: [mail_writer_destroy] takes it out of the list again and gives
    back the reference it held, and the state is what it was. *)
Theorem open_request_rolls_back s req mailslot m k :
  includes (open_sharing req) FILE_SHARE_READ →
  sync_namespace s !! open_data req = Some mailslot →
  mailslot_at (heap s) mailslot = Some m →
  refcount_at (heap s) mailslot = Some (S k) →
  admits (heap s) m (open_access req) (open_sharing req) →
  (∀ w, w ∈ writers m → is_Some (heap s !! w)) →
  (mem_free s < 2)%nat →
  req_open_mailslot req s = Done 0 (set_error_field STATUS_NO_MEMORY s).
Proof.
  intros Hshare Hname Hm Hk Hadm Hlist Hmem.
  set (writer := fresh (dom (heap s))).
  assert (heap s !! writer = None) as Hfresh by apply fresh_unallocated.
  pose proof (mailslot_at_unallocated_ne _ _ _ _ Hfresh Hm) as Hne.
  assert (writer ∉ writers m) as Hnotin.
  { intros [o Ho]%Hlist. congruence. }
  apply wp_done_eq. unfold req_open_mailslot.
  rewrite (proj2 (nonzero_true _) Hshare). cbn [negb].
  apply wp_bind, (wp_open_mailslot _ _ mailslot m (S k));
    [by rewrite name_key_all|done..|].
  apply wp_bind, (wp_create_mail_writer_admitted _ m (S (S k))).
  { heap_solve. }
  { state_simpl. by apply (refcount_at_put_refcount_eq _ _ _ (S k)). }
  { unfold admits in *. destruct (writers m) as [|head others]; [done|].
    destruct Hadm as (w0 & Hw0 & Hc). exists w0. split; [|done]. heap_solve. }
  state_simpl. destruct (mem_free s) as [|[|n]] eqn:Hn; [| |lia].
  - (* no memory for the writer *)
    apply wp_bind, wp_ret.
    apply wp_bind, (wp_release_mailslot_keep _ m k).
    { heap_solve. }
    { state_simpl. by apply (refcount_at_put_refcount_eq _ _ _ (S k)). }
    apply wp_ret. split; [done|].
    apply server_eq; state_simpl; try done.
    rewrite put_refcount_put_refcount. by apply put_refcount_same.
  - (* memory for the writer, none for the handle *)
    assert (fresh (dom (put_refcount mailslot (S (S k)) (heap s))) = writer) as ->.
    { unfold writer. f_equal. unfold put_refcount. apply dom_alter_L. }
    set (wr := {| writer_mailslot := Some mailslot; access := open_access req;
                  sharing := open_sharing req |}).
    set (m1 := with_writers m (writer :: writers m)).
    set (s1 := writer_attached _ _ _ _ _ _ _).
    assert (heap s1 = put_body mailslot (Mailslot m1)
                        (put_refcount mailslot (S (S (S k)))
                           (<[writer := new_mail_writer mailslot (open_access req)
                                          (open_sharing req)]>
                              (put_refcount mailslot (S (S k)) (heap s))))) as Hh1 by done.
    assert (mem_free s1 = O) as Hmem1.
    { unfold s1, writer_attached. state_simpl. by rewrite Hn. }
    assert (refcount_at (heap s1) writer = Some 1%nat) as Hrcw.
    { rewrite Hh1, refcount_at_put_body, refcount_at_put_refcount,
        decide_False by done. unfold refcount_at. by rewrite lookup_insert_eq. }
    assert (mail_writer_at (heap s1) writer = Some wr) as Hw1.
    { rewrite Hh1. apply mail_writer_at_put_ne; [done|].
      apply mail_writer_at_put_refcount, mail_writer_at_insert_eq. }
    assert (mailslot_at (heap s1) mailslot = Some m1) as Hm1.
    { rewrite Hh1. eapply mailslot_at_put_eq. apply mailslot_at_put_refcount.
      apply mailslot_at_insert; [|heap_solve].
      unfold put_refcount. by rewrite lookup_alter_ne. }
    assert (refcount_at (heap s1) mailslot = Some (S (S (S k)))) as Hrcm.
    { rewrite Hh1, refcount_at_put_body.
      apply (refcount_at_put_refcount_eq _ _ _ (S (S k))).
      rewrite refcount_at_insert_ne by done.
      by apply (refcount_at_put_refcount_eq _ _ _ (S k)). }
    assert (without_writer writer m1 = m) as Hback.
    { unfold without_writer, m1. cbn [writers with_writers].
      rewrite filter_fresh_writer by done. by destruct m. }
    apply wp_bind, wp_bind, (wp_alloc_handle _ _ _ 1); [done|]. rewrite Hmem1.
    apply wp_bind, (wp_release_mail_writer_last _ wr mailslot m1 (S k)); [heap_solve..| |].
    { done. }
    rewrite Hback. apply wp_ret.
    apply wp_bind, (wp_release_mailslot_keep _ m k).
    { unfold object_freed. state_simpl. unfold mailslot_at.
      rewrite body_at_delete, decide_False by done. fold (mailslot_at
        (put_refcount mailslot (S (S k))
           (put_body mailslot (Mailslot m) (put_refcount writer 0 (heap s1)))) mailslot).
      apply mailslot_at_put_refcount. eapply mailslot_at_put_eq. heap_solve. }
    { unfold object_freed. state_simpl. unfold refcount_at.
      rewrite lookup_delete_ne by done.
      fold (refcount_at (put_refcount mailslot (S (S k))
           (put_body mailslot (Mailslot m) (put_refcount writer 0 (heap s1)))) mailslot).
      apply (refcount_at_put_refcount_eq _ _ _ (S (S (S k)))).
      by rewrite refcount_at_put_body, refcount_at_put_refcount, decide_False. }
    apply wp_ret. split; [done|].
    pose proof Hm as (o & Ho & Hb)%mailslot_at_Some.
    pose proof Hk as (o' & Ho' & Hrco)%refcount_at_Some.
    assert (o' = o) as -> by congruence.
    unfold object_freed. state_simpl. rewrite Hmem1.
    assert (name_at (put_refcount mailslot (S (S k))
              (put_body mailslot (Mailslot m) (put_refcount writer 0 (heap s1)))) writer
            = None) as ->.
    { unfold name_at, put_refcount, put_body. rewrite !lookup_alter_ne by done.
      rewrite lookup_alter_eq, Hh1. unfold put_refcount, put_body.
      rewrite !lookup_alter_ne by done. by rewrite lookup_insert_eq. }
    apply server_eq; state_simpl; rewrite ?Hn; try done.
    rewrite Hh1. unfold put_refcount, put_body. apply map_eq. intros i.
    destruct (decide (i = mailslot)) as [->|];
      [|destruct (decide (i = writer)) as [->|]]; simplify_map_eq; try done.
    f_equal. destruct o as [rc nm bd]. cbn in Hb, Hrco.
    cbv [with_refcount with_body refcount obj_name body]. by rewrite Hb, Hrco.
Qed.

(** X15.  A writer that goes leaves its mailslot in order:
    [release_object] on its last reference runs [mail_writer_destroy],
    which takes that writer, and no other, out of the list and gives back
    the reference it held on the mailslot; the writer is then freed.  The
    mailslot itself is not told: the reads that wait on it keep waiting, and
    no socket, handle or completion is touched. *)
Theorem release_mail_writer_unlinks s writer wr mailslot m k :
  mail_writer_at (heap s) writer = Some wr → writer_mailslot wr = Some mailslot →
  refcount_at (heap s) writer = Some 1%nat →
  mailslot_at (heap s) mailslot = Some m →
  refcount_at (heap s) mailslot = Some (S (S k)) →
  ∃ s', release_mail_writer writer s = Done tt s' ∧
        heap s' !! writer = None ∧
        mailslot_at (heap s') mailslot
          = Some (with_writers m (filter (fun w => w ≠ writer) (writers m))) ∧
        refcount_at (heap s') mailslot = Some (S k) ∧
        mem_free s' = S (mem_free s) ∧
        error s' = error s ∧ apcs s' = apcs s ∧ sockets s' = sockets s ∧
        handles s' = handles s.
Proof.
  intros Hw Hp Hrc Hm Hk.
  pose proof (mail_writer_mailslot_ne _ _ _ _ _ Hw Hm) as Hne.
  apply wp_done_unit.
  apply (wp_release_mail_writer_last _ wr mailslot m k); [done..|].
  unfold object_freed. state_simpl. split_and!; try done.
  - apply lookup_delete_eq.
  - unfold mailslot_at. rewrite body_at_delete, decide_False by done.
    fold (mailslot_at (put_refcount mailslot (S k)
            (put_body mailslot (Mailslot (without_writer writer m))
               (put_refcount writer 0 (heap s)))) mailslot).
    apply mailslot_at_put_refcount. eapply mailslot_at_put_eq. heap_solve.
  - unfold refcount_at. rewrite lookup_delete_ne by done.
    fold (refcount_at (put_refcount mailslot (S k)
            (put_body mailslot (Mailslot (without_writer writer m))
               (put_refcount writer 0 (heap s)))) mailslot).
    apply (refcount_at_put_refcount_eq _ _ _ (S (S k))).
    by rewrite refcount_at_put_body, refcount_at_put_refcount, decide_False.
Qed.

Lemma apcs_mailslot_destroyed p m rfd fr nr wfd fw nw s :
  apcs (mailslot_destroyed p m rfd fr nr wfd fw nw s)
  = apcs s ++ map (fun a => (a, STATUS_CANCELLED)) (read_q m).
Proof. unfold mailslot_destroyed. by rewrite !apcs_fd_released. Qed.

Lemma name_at_put_body h p b q : name_at (put_body p b h) q = name_at h q.
Proof.
  unfold name_at, put_body. destruct (decide (p = q)) as [->|].
  - rewrite lookup_alter_eq. by destruct (h !! q).
  - by rewrite lookup_alter_ne.
Qed.

Lemma name_at_put_refcount h p n q : name_at (put_refcount p n h) q = name_at h q.
Proof.
  unfold name_at, put_refcount. destruct (decide (p = q)) as [->|].
  - rewrite lookup_alter_eq. by destruct (h !! q).
  - by rewrite lookup_alter_ne.
Qed.

(** X16.  A mailslot lives as long as one of its writers does, and no
    longer than the last of them once its own handle is gone.  When a
    writer holds the only reference of its mailslot and goes itself,
    [mail_writer_destroy] releases that reference and [mailslot_destroy]
    runs: the reads that wait are cancelled, each of the two [struct fd]
    loses a reference, the name of the mailslot leaves the directory, and
    the mailslot and the writer leave the heap. *)
Theorem last_writer_destroys_mailslot s writer wr mailslot m rfd fr nr wfd fw nw :
  mail_writer_at (heap s) writer = Some wr → writer_mailslot wr = Some mailslot →
  refcount_at (heap s) writer = Some 1%nat →
  mailslot_at (heap s) mailslot = Some m →
  refcount_at (heap s) mailslot = Some 1%nat →
  fd m = Some rfd → write_fd m = Some wfd → rfd ≠ wfd →
  fd_at (heap s) rfd = Some fr → fd_at (heap s) wfd = Some fw →
  refcount_at (heap s) rfd = Some (S nr) → refcount_at (heap s) wfd = Some (S nw) →
  let dropped (n : nat) := match n with O => None | S k => Some (S k) end in
  ∃ s', release_mail_writer writer s = Done tt s' ∧
        heap s' !! writer = None ∧ heap s' !! mailslot = None ∧
        apcs s' = apcs s ++ map (fun a => (a, STATUS_CANCELLED)) (read_q m) ∧
        (∀ nm, name_at (heap s) mailslot = Some nm → sync_namespace s' !! nm = None) ∧
        refcount_at (heap s') rfd = dropped nr ∧
        refcount_at (heap s') wfd = dropped nw ∧
        (mem_free s' ≥ 2 + length (read_q m) + mem_free s)%nat.
Proof.
  intros Hw Hp Hrc Hm Hk Hrfd Hwfd Hne Hfr Hfw Hnr Hnw dropped.
  pose proof (mail_writer_mailslot_ne _ _ _ _ _ Hw Hm) as Hne0.
  pose proof (fd_mailslot_ne _ _ _ _ _ Hfr Hm) as Hne1.
  pose proof (fd_mailslot_ne _ _ _ _ _ Hfw Hm) as Hne2.
  pose proof (mail_writer_fd_ne _ _ _ _ _ Hw Hfr) as Hne3.
  pose proof (mail_writer_fd_ne _ _ _ _ _ Hw Hfw) as Hne4.
  apply wp_done_unit.
  unfold release_mail_writer. wp_step wp_get_mail_writer.
  pose proof Hrc as (o & Ho & Hn)%refcount_at_Some.
  unfold release_with. apply wp_bind, (wp_deref _ o); [done|]. rewrite Hn.
  apply wp_bind, wp_store. unfold set_heap at 1.
  rewrite (insert_with_refcount _ _ _ _ Ho).
  change (wp (mail_writer_destroy writer ;;; free_object writer)
            (set_heap (put_refcount writer 0) s)
            (fun _ s' =>
               heap s' !! writer = None ∧ heap s' !! mailslot = None ∧
               apcs s' = apcs s ++ map (fun a => (a, STATUS_CANCELLED)) (read_q m) ∧
               (∀ nm, name_at (heap s) mailslot = Some nm →
                      sync_namespace s' !! nm = None) ∧
               refcount_at (heap s') rfd = dropped nr ∧
               refcount_at (heap s') wfd = dropped nw ∧
               (mem_free s' ≥ 2 + length (read_q m) + mem_free s)%nat)).
  apply wp_bind. unfold mail_writer_destroy.
  apply wp_bind, (wp_get_mail_writer _ wr); [heap_solve|]. rewrite Hp.
  apply wp_bind, wp_ret.
  apply wp_bind, (wp_get_mailslot _ m); [heap_solve|].
  apply wp_bind, (wp_put_mailslot _ m); [heap_solve|]. state_simpl.
  set (m' := with_writers m _).
  set (hA := put_body mailslot (Mailslot m') (put_refcount writer 0 (heap s))).
  assert (hA !! writer = Some (with_refcount o 0)) as HwA.
  { unfold hA, put_body, put_refcount.
    by rewrite lookup_alter_ne, lookup_alter_eq, Ho. }
  apply (wp_release_mailslot_last _ m' rfd fr nr wfd fw nw); state_simpl; fold hA;
    try done.
  { unfold hA. eapply mailslot_at_put_eq. heap_solve. }
  { unfold hA. by rewrite refcount_at_put_body, refcount_at_put_refcount, decide_False. }
  1-2: unfold hA; heap_solve.
  1-2: unfold hA; by rewrite refcount_at_put_body, refcount_at_put_refcount, decide_False.
  set (sB := mailslot_destroyed _ _ _ _ _ _ _ _ _).
  assert (heap sB !! writer = Some (with_refcount o 0)) as HwB.
  { unfold sB. rewrite heap_mailslot_destroyed by done.
    unfold queue_terminated. state_simpl. unfold put_body, put_refcount.
    rewrite !lookup_alter_ne by done. by rewrite lookup_alter_eq, Ho. }
  apply (wp_free_object _ (with_refcount o 0)).
  { unfold object_freed. state_simpl. by rewrite lookup_delete_ne. }
  unfold object_freed. state_simpl.
  assert (refcount_at (heap sB) rfd = dropped nr ∧ refcount_at (heap sB) wfd = dropped nw)
    as [HrB HwfB].
  { unfold sB, mailslot_destroyed. split.
    - rewrite refcount_at_fd_released_ne by done.
      apply refcount_at_fd_released_eq. unfold queue_terminated. state_simpl.
      rewrite refcount_at_put_body, refcount_at_put_refcount, decide_False by done.
      unfold hA. by rewrite refcount_at_put_body, refcount_at_put_refcount, decide_False.
    - apply refcount_at_fd_released_eq. rewrite refcount_at_fd_released_ne by done.
      unfold queue_terminated. state_simpl.
      rewrite refcount_at_put_body, refcount_at_put_refcount, decide_False by done.
      unfold hA. by rewrite refcount_at_put_body, refcount_at_put_refcount, decide_False. }
  split_and!.
  - apply lookup_delete_eq.
  - rewrite lookup_delete_ne by done. apply lookup_delete_eq.
  - unfold sB. by rewrite apcs_mailslot_destroyed.
  - intros nm Hnm.
    assert (name_at (heap sB) mailslot = Some nm) as ->.
    { unfold name_at, sB. rewrite heap_mailslot_destroyed by done.
      unfold queue_terminated. state_simpl.
      change (name_at (put_body mailslot (Mailslot (with_read_q m' []))
                         (put_refcount mailslot 0 hA)) mailslot = Some nm).
      rewrite name_at_put_body, name_at_put_refcount. unfold hA.
      by rewrite name_at_put_body, name_at_put_refcount. }
    destruct (obj_name (with_refcount o 0)); [apply lookup_delete_None; right|];
      apply lookup_delete_eq.
  - unfold refcount_at. rewrite !lookup_delete_ne by done. exact HrB.
  - unfold refcount_at. rewrite !lookup_delete_ne by done. exact HwfB.
  - unfold sB, mailslot_destroyed, fd_released, queue_terminated.
    destruct nw, nr; state_simpl;
      repeat match goal with
             | |- context [mem_free (if ?b then _ else _)] => destruct b
             end;
      rewrite ?mem_free_closed; state_simpl; rewrite ?mem_free_closed; state_simpl;
      cbn [read_q m' with_writers]; lia.
Qed.

(** *** Handles *)

Lemma handle_entry_of_index s i e :
  handles s !! i = Some e → handle_entry_of s (index_to_handle i) = Some e.
Proof.
  intros Hi. unfold handle_entry_of, index_to_handle.
  rewrite Z.shiftr_shiftl_l by lia. change (2 - 2) with 0. rewrite Z.shiftl_0_r.
  rewrite (proj2 (Z.leb_le _ _)) by lia.
  by replace (Z.to_nat (Z.of_nat i + 1 - 1)) with i by lia.
Qed.

Lemma index_to_handle_inj i j : index_to_handle i = index_to_handle j → i = j.
Proof.
  unfold index_to_handle. rewrite !Z.shiftl_mul_pow2 by lia. lia.
Qed.

(** X17.  What create_mailslot binds, open_mailslot finds.  On a server
    with memory for it, a create_mailslot request for a good, free name
    followed by an open_mailslot request for the same name that shares
    reading yields two distinct handles, none of them null: the first
    denotes the mailslot with GENERIC_READ, the second the first writer of
    that mailslot, with the access the opener asked for.  The first writer
    is let in whatever access and sharing it asks for besides, since there
    is no writer to conflict with.  The mailslot ends with two references,
    its handle's and its writer's. *)
Theorem create_then_open tolowerW creq oreq s :
  name_refused tolowerW (create_data creq) (get_req_data_size (create_data creq)) = false →
  sync_namespace s !! create_data creq = None →
  open_data oreq = create_data creq →
  includes (open_sharing oreq) FILE_SHARE_READ →
  (6 ≤ mem_free s)%nat → (2 ≤ fds_free s)%nat →
  ∃ rh s1 wh s2 mailslot writer rfd wfd,
    req_create_mailslot tolowerW creq s = Done rh s1 ∧
    req_open_mailslot oreq s1 = Done wh s2 ∧
    rh ≠ 0 ∧ wh ≠ 0 ∧ rh ≠ wh ∧ mailslot ≠ writer ∧
    handle_entry_of s2 rh
      = Some {| entry_ptr := mailslot; entry_access := GENERIC_READ;
                entry_inherit := create_inherit creq |} ∧
    handle_entry_of s2 wh
      = Some {| entry_ptr := writer; entry_access := open_access oreq;
                entry_inherit := open_inherit oreq |} ∧
    mailslot_at (heap s2) mailslot
      = Some {| fd := Some rfd; write_fd := Some wfd;
                max_msgsize := create_max_msgsize creq;
                read_timeout := create_read_timeout creq;
                writers := [writer]; read_q := [] |} ∧
    mail_writer_at (heap s2) writer
      = Some {| writer_mailslot := Some mailslot; access := open_access oreq;
                sharing := open_sharing oreq |} ∧
    refcount_at (heap s2) mailslot = Some 2%nat ∧
    refcount_at (heap s2) writer = Some 1%nat.
Proof.
  intros Href Hname Hsame Hshare Hmem Hfds.
  destruct (req_create_mailslot_total tolowerW creq s)
    as (p & rfd & wfd & u0 & u1 & Hp & Hrfd & Hwfd & Hprfd & Hpwfd & Hrw & Hu & Hreq);
    [done|done|lia|done|].
  set (m := {| fd := Some rfd; write_fd := Some wfd;
               max_msgsize := create_max_msgsize creq;
               read_timeout := create_read_timeout creq; writers := []; read_q := [] |}).
  set (s1 := handle_added _ _ _ _) in Hreq.
  assert (heap s1 = <[wfd := anonymous_fd mail_writer_fd_ops u0 p]>
                      (<[rfd := anonymous_fd mailslot_fd_ops u1 p]>
                         (<[p := named_mailslot (create_data creq) m]> (heap s)))) as Hh1
    by done.
  assert (heap s1 !! p = Some (named_mailslot (create_data creq) m)) as Hlp
    by (rewrite Hh1; by simplify_map_eq).
  assert (mailslot_at (heap s1) p = Some m) as Hm1
    by (unfold mailslot_at, body_at; by rewrite Hlp).
  assert (refcount_at (heap s1) p = Some 1%nat) as Hrc1
    by (unfold refcount_at; by rewrite Hlp).
  assert (sync_namespace s1 !! open_data oreq = Some p) as Hname1.
  { rewrite Hsame. unfold s1, handle_added, mailslot_built. state_simpl.
    apply lookup_insert_eq. }
  assert (mem_free s1 = (mem_free s - 4)%nat) as Hmem1 by done.
  assert (handles s1 = handles s ++ [{| entry_ptr := p; entry_access := GENERIC_READ;
                                        entry_inherit := create_inherit creq |}]) as Hhd1
    by done.
  pose proof (req_open_mailslot_total s1 oreq p m 0 Hshare Hname1 Hm1 Hrc1 I) as Hopen.
  rewrite Hmem1 in Hopen. specialize (Hopen ltac:(lia)).
  set (writer := fresh (dom (heap s1))) in *.
  assert (heap s1 !! writer = None) as Hfresh by apply fresh_unallocated.
  pose proof (mailslot_at_unallocated_ne _ _ _ _ Hfresh Hm1) as Hne.
  eexists _, s1, _, _, p, writer, rfd, wfd.
  split; [exact Hreq|]. split; [exact Hopen|].
  unfold handle_added at 1 2 3 4 5 6, writer_attached. state_simpl.
  split_and!.
  - apply index_to_handle_nonzero.
  - apply index_to_handle_nonzero.
  - intros Heq%index_to_handle_inj. rewrite Hhd1, length_app in Heq. simpl in Heq. lia.
  - done.
  - apply handle_entry_of_index. state_simpl. rewrite Hhd1.
    rewrite <- app_assoc. by apply list_lookup_middle.
  - apply handle_entry_of_index. state_simpl. by apply list_lookup_middle.
  - eapply mailslot_at_put_eq. apply mailslot_at_put_refcount. heap_solve.
  - apply mail_writer_at_put_ne; [done|].
    apply mail_writer_at_put_refcount, mail_writer_at_insert_eq.
  - rewrite refcount_at_put_body. apply (refcount_at_put_refcount_eq _ _ _ 1%nat).
    by rewrite refcount_at_insert_ne.
  - rewrite refcount_at_put_body, refcount_at_put_refcount, decide_False by done.
    unfold refcount_at. by rewrite lookup_insert_eq.
Qed.

Lemma preserves_poll {B} (proj : server → B) u events : preserves proj (poll u events).
Proof.
  intros s r s'. unfold poll. destruct (sockets s !! u) as [sock|]; [|by intros [= <- <-]].
  destruct (sock_queued sock); [by intros [= <- <-]|].
  destruct (Z.eqb _ _); by intros [= <- <-].
Qed.

Lemma preserves_recv {B} (proj : server → B) u len flags :
  (∀ g n s, proj (set_sockets g n s) = proj s) → preserves proj (recv u len flags).
Proof.
  intros Hp s r s'. unfold recv. destruct (sockets s !! u) as [sock|]; [|by intros [= <- <-]].
  destruct (sock_queued sock).
  - destruct (sock_nonblock sock); [by intros [= <- <-]|done].
  - destruct (Z.eqb (Z.land flags MSG_PEEK) 0); intros [= <- <-]; first [done | apply Hp].
Qed.

Lemma preserves_mem_alloc {B} (proj : server → B) :
  (∀ e s, proj (set_error_field e s) = proj s) → (∀ n s, proj (set_mem_free n s) = proj s) →
  preserves proj mem_alloc.
Proof.
  intros He Hm s r s'. unfold mem_alloc.
  destruct (mem_free s); intros [= <- <-]; [apply He|apply Hm].
Qed.

Lemma alloc_object_handles ops : preserves handles (alloc_object ops).
Proof.
  unfold alloc_object. apply preserves_bind; [by apply preserves_mem_alloc|].
  intros []; preserves_tac.
Qed.

Lemma release_mail_writer_handles writer : preserves handles (release_mail_writer writer).
Proof.
  unfold release_mail_writer, release_with, mail_writer_destroy. preserves_tac.
  all: apply release_mailslot_handles.
Qed.

Lemma release_object_handles obj : preserves handles (release_object obj).
Proof.
  unfold release_object, release_with, mail_writer_destroy. preserves_tac.
  all: first [apply mailslot_destroy_handles | apply release_mailslot_handles].
Qed.

Lemma find_object_handles name len : preserves handles (find_object name len).
Proof. unfold find_object, grab_object. preserves_tac. Qed.

Lemma create_anonymous_fd_handles ops u user :
  preserves handles (create_anonymous_fd ops u user).
Proof.
  unfold create_anonymous_fd. apply preserves_bind; [apply alloc_object_handles|].
  intros []; preserves_tac.
Qed.

Lemma create_mailslot_handles tolowerW name len max_msgsize_ read_timeout_ :
  preserves handles (create_mailslot tolowerW name len max_msgsize_ read_timeout_).
Proof.
  unfold create_mailslot. destruct (name_refused _ _ _); [preserves_tac|].
  apply preserves_bind.
  { unfold create_named_object. destruct (Z.eqb len 0); [apply alloc_object_handles|].
    apply preserves_bind; [apply find_object_handles|]. intros [obj|].
    - apply preserves_bind; [apply preserves_deref|]. intros o. case_decide.
      + preserves_tac.
      + apply preserves_bind; [apply release_object_handles|]. intros _. preserves_tac.
    - apply preserves_bind; [apply alloc_object_handles|]. intros []; preserves_tac. }
  intros [mailslot|]; [|preserves_tac].
  apply preserves_bind; [by intros s e s' [= <- <-]|]. intros e. case_decide.
  { apply preserves_bind; [apply release_mailslot_handles|]. intros _. preserves_tac. }
  apply preserves_bind; [preserves_tac|]. intros _.
  apply preserves_bind; [by apply preserves_socketpair|]. intros [[fds0 fds1]|].
  2: { unfold file_set_error. apply preserves_bind; [preserves_tac|]. intros _.
       apply preserves_bind; [apply release_mailslot_handles|]. intros _. preserves_tac. }
  apply preserves_bind; [by apply preserves_fcntl_nonblock|]. intros _.
  apply preserves_bind; [by apply preserves_fcntl_nonblock|]. intros _.
  apply preserves_bind; [apply create_anonymous_fd_handles|]. intros rfd.
  apply preserves_bind; [preserves_tac|]. intros m.
  apply preserves_bind; [preserves_tac|]. intros _.
  apply preserves_bind; [apply create_anonymous_fd_handles|]. intros wfd.
  apply preserves_bind; [preserves_tac|]. intros m'.
  apply preserves_bind; [preserves_tac|]. intros _.
  destruct (is_set rfd && is_set wfd); [preserves_tac|].
  apply preserves_bind; [apply release_mailslot_handles|]. intros _. preserves_tac.
Qed.

Lemma open_mailslot_handles name len : preserves handles (open_mailslot name len).
Proof.
  unfold open_mailslot. apply preserves_bind; [apply find_object_handles|].
  intros [obj|]; [|preserves_tac].
  apply preserves_bind; [apply preserves_deref|]. intros o. case_decide; [preserves_tac|].
  apply preserves_bind; [apply release_object_handles|]. intros _. preserves_tac.
Qed.

Lemma create_mail_writer_handles mailslot acc shr :
  preserves handles (create_mail_writer mailslot acc shr).
Proof.
  unfold create_mail_writer. apply preserves_bind; [preserves_tac|]. intros m.
  apply preserves_bind; [preserves_tac|]. intros [|]; [preserves_tac|].
  apply preserves_bind; [apply alloc_object_handles|]. intros [writer|]; [|preserves_tac].
  unfold grab_object. preserves_tac.
Qed.

Lemma alloc_handle_grows obj acc inherit s handle s' :
  alloc_handle obj acc inherit s = Done handle s' →
  handles s' = handles s ∨
  handles s' = handles s ++ [{| entry_ptr := obj; entry_access := acc;
                                entry_inherit := inherit |}].
Proof.
  cbv [alloc_handle bind mem_alloc grab_object deref store modify get_state ret].
  destruct (mem_free s); [intros [= <- <-]; by left|].
  state_simpl. destruct (heap s !! obj) as [o|] eqn:Ho; [|done].
  intros [= <- <-]. by right.
Qed.

(** X18.  No request of the file takes a handle away or changes what it
    denotes: a handle that denotes an entry of the table before a
    create_mailslot, an open_mailslot or a set_mailslot_info request denotes
    the same entry (the same object, access and inheritance) after it.  The
    first two add at most one entry, at the end of the table; the third
    adds none. *)
Theorem requests_keep_handles tolowerW s handle entry :
  handle_entry_of s handle = Some entry →
  (∀ req r s', req_create_mailslot tolowerW req s = Done r s' →
     handle_entry_of s' handle = Some entry ∧
     (length (handles s') ≤ S (length (handles s)))%nat) ∧
  (∀ req r s', req_open_mailslot req s = Done r s' →
     handle_entry_of s' handle = Some entry ∧
     (length (handles s') ≤ S (length (handles s)))%nat) ∧
  (∀ req r s', req_set_mailslot_info req s = Done r s' → handles s' = handles s).
Proof.
  intros Hentry.
  assert (∀ s' e, handles s' = handles s ∨ handles s' = handles s ++ [e] →
            handle_entry_of s' handle = Some entry ∧
            (length (handles s') ≤ S (length (handles s)))%nat) as Hgrow.
  { intros s' e Hs'. unfold handle_entry_of in *.
    destruct (Z.leb 1 (Z.shiftr handle 2)); [|done].
    destruct Hs' as [->| ->]; [split; [done|lia]|].
    split; [by apply lookup_app_l_Some|]. rewrite length_app. simpl. lia. }
  split_and!.
  - intros req r s'. unfold req_create_mailslot, bind.
    destruct (create_mailslot _ _ _ _ _ s) as [[mailslot|] s1|] eqn:Hcreate;
      [| |done].
    2: { intros [= <- <-]. apply (Hgrow _ entry). left.
         by apply (create_mailslot_handles _ _ _ _ _ _ _ _ Hcreate). }
    destruct (alloc_handle _ _ _ s1) as [h2 s2|] eqn:Halloc; cbv beta iota delta [ret]; [|done].
    destruct (release_mailslot mailslot s2) as [[] s3|] eqn:Hrelease; cbv beta iota delta [ret]; [|done].
    intros [= <- <-].
    pose proof (create_mailslot_handles _ _ _ _ _ _ _ _ Hcreate) as H1.
    pose proof (release_mailslot_handles _ _ _ _ Hrelease) as H3.
    apply alloc_handle_grows in Halloc. rewrite H1, <- H3 in Halloc.
    by eapply Hgrow.
  - intros req r s'. unfold req_open_mailslot.
    destruct (negb _).
    { intros [= <- <-]. apply (Hgrow _ entry). by left. }
    unfold bind.
    destruct (open_mailslot _ _ s) as [[mailslot|] s1|] eqn:Hopen; [| |done].
    2: { intros [= <- <-]. apply (Hgrow _ entry). left.
         by apply (open_mailslot_handles _ _ _ _ _ Hopen). }
    pose proof (open_mailslot_handles _ _ _ _ _ Hopen) as H1.
    destruct (create_mail_writer _ _ _ s1) as [[writer|] s2|] eqn:Hwriter; cbv beta iota delta [ret]; [| |done].
    + pose proof (create_mail_writer_handles _ _ _ _ _ _ Hwriter) as H2.
      destruct (alloc_handle _ _ _ s2) as [h3 s3|] eqn:Halloc; cbv beta iota delta [ret]; [|done].
      destruct (release_mail_writer writer s3) as [[] s4|] eqn:Hrelw; cbv beta iota delta [ret]; [|done].
      destruct (release_mailslot mailslot s4) as [[] s5|] eqn:Hrelm; cbv beta iota delta [ret]; [|done].
      intros [= <- <-].
      pose proof (release_mail_writer_handles _ _ _ _ Hrelw) as H4.
      pose proof (release_mailslot_handles _ _ _ _ Hrelm) as H5.
      apply alloc_handle_grows in Halloc. rewrite H2, H1, <- H4, <- H5 in Halloc.
      by eapply Hgrow.
    + pose proof (create_mail_writer_handles _ _ _ _ _ _ Hwriter) as H2.
      destruct (release_mailslot mailslot s2) as [[] s5|] eqn:Hrelm; cbv beta iota delta [ret]; [|done].
      intros [= <- <-].
      pose proof (release_mailslot_handles _ _ _ _ Hrelm) as H5.
      apply (Hgrow _ entry). left. congruence.
  - intros req r s' Hreq.
    assert (preserves handles (req_set_mailslot_info req)) as Hpres; [|by eapply Hpres].
    unfold req_set_mailslot_info, get_mailslot_obj, get_handle_obj.
    apply preserves_bind.
    { apply preserves_bind.
      { intros s0 e s0'. unfold get_handle. by destruct (Z.leb _ _); intros [= <- <-]. }
      intros [e|]; [|preserves_tac].
      destruct (negb _); [preserves_tac|].
      apply preserves_bind; [apply preserves_deref|]. intros o.
      case_decide; [|preserves_tac]. unfold grab_object. preserves_tac. }
    intros [mailslot|]; [|preserves_tac].
    apply preserves_bind; [preserves_tac|]. intros m.
    apply preserves_bind; [preserves_tac|]. intros rfd.
    apply preserves_bind; [unfold get_unix_fd; preserves_tac|]. intros u.
    apply preserves_bind.
    { destruct (nonzero _); preserves_tac. }
    intros _. apply preserves_bind; [preserves_tac|]. intros m'.
    apply preserves_bind.
    { unfold mailslot_message_count, get_unix_fd.
      apply preserves_bind; [preserves_tac|]. intros m2.
      apply preserves_bind; [preserves_tac|]. intros rfd2.
      apply preserves_bind; [preserves_tac|]. intros u2.
      apply preserves_bind; [apply preserves_poll|]. intros r2. preserves_tac. }
    intros n. apply preserves_bind; [by apply preserves_recv|]. intros size.
    apply preserves_bind; [apply release_mailslot_handles|]. intros _. preserves_tac.
Qed.

(** *** What the fd operations leave alone, and the order of service *)

(** X19.  The server never reads a mailslot itself.  The operations that
    the fd layer calls on the reading end ([mailslot_queue_async],
    [mailslot_poll_event], [mailslot_cancel_async]) and the two queries
    ([mailslot_get_poll_events], [mailslot_message_count]) leave every
    socket as it is, with all its datagrams, and touch neither the handle
    table nor the directory of names: completing a read is a notification,
    and the datagram stays where the client will read it. *)
Theorem fd_operations_leave_sockets afd s s' :
  let untouched := sockets s' = sockets s ∧ fds_free s' = fds_free s ∧
                   handles s' = handles s ∧ sync_namespace s' = sync_namespace s in
  (∀ apc user iosb type count,
     mailslot_queue_async afd apc user iosb type count s = Done tt s' → untouched) ∧
  (∀ event, mailslot_poll_event afd event s = Done tt s' → untouched) ∧
  (mailslot_cancel_async afd s = Done tt s' → untouched) ∧
  (∀ events, mailslot_get_poll_events afd s = Done events s' → untouched) ∧
  (∀ mailslot n, mailslot_message_count mailslot s = Done n s' → untouched).
Proof.
  set (proj := fun s : server => (sockets s, fds_free s, handles s, sync_namespace s)).
  assert (∀ A (c : M A) (a : A), preserves proj c → c s = Done a s' →
            sockets s' = sockets s ∧ fds_free s' = fds_free s ∧
            handles s' = handles s ∧ sync_namespace s' = sync_namespace s) as Huse.
  { intros A c a Hc Heq. specialize (Hc _ _ _ Heq). unfold proj in Hc.
    by injection Hc as -> -> -> ->. }
  assert (∀ fd0, preserves proj (mailslot_get_poll_events fd0)) as Hevents.
  { intros fd0. unfold mailslot_get_poll_events, get_fd_user, assert_mailslot_ops.
    preserves_tac. }
  assert (∀ fd0 e, preserves proj (set_fd_events fd0 e)) as Harm.
  { intros fd0 e. unfold set_fd_events. preserves_tac. }
  assert (∀ fd0 event, preserves proj (mailslot_poll_event fd0 event)) as Hpoll.
  { intros fd0 event. unfold mailslot_poll_event, get_fd_user.
    apply preserves_bind; [preserves_tac|]. intros mailslot.
    apply preserves_bind; [preserves_tac|]. intros m.
    apply preserves_bind.
    { destruct (read_q m); [preserves_tac|]. destruct (nonzero _); preserves_tac. }
    intros _. apply preserves_bind; [apply Hevents|]. intros e. apply Harm. }
  assert (∀ mailslot, preserves proj (mailslot_message_count mailslot)) as Hcount.
  { intros mailslot. unfold mailslot_message_count, get_unix_fd.
    apply preserves_bind; [preserves_tac|]. intros m.
    apply preserves_bind; [preserves_tac|]. intros rfd.
    apply preserves_bind; [preserves_tac|]. intros u.
    apply preserves_bind; [apply preserves_poll|]. intros r. preserves_tac. }
  intros untouched. unfold untouched. split_and!.
  - intros apc user iosb type count. apply Huse.
    unfold mailslot_queue_async, get_fd_user, assert_mailslot_ops.
    apply preserves_bind; [preserves_tac|]. intros mailslot.
    apply preserves_bind; [preserves_tac|]. intros _.
    destruct (negb _); [preserves_tac|].
    apply preserves_bind; [preserves_tac|]. intros m.
    apply preserves_bind.
    { destruct (writers m); [preserves_tac|].
      apply preserves_bind; [apply Hcount|]. intros n. preserves_tac. }
    intros [|]; [preserves_tac|].
    apply preserves_bind; [preserves_tac|]. intros s0.
    apply preserves_bind.
    { unfold create_async. apply preserves_bind; [by apply preserves_mem_alloc|].
      intros [|]; preserves_tac. }
    intros [a|]; [|preserves_tac].
    apply preserves_bind; [apply Hevents|]. intros interest0.
    apply preserves_bind.
    { unfold check_fd_events. apply preserves_bind; [preserves_tac|]. intros f0.
      destruct (Z.eqb _ _); [preserves_tac|].
      apply preserves_bind; [apply preserves_poll|]. intros r.
      destruct (Z.leb _ _); preserves_tac. }
    intros events. destruct (nonzero events); [apply Hpoll|].
    apply preserves_bind; [apply Hevents|]. intros e. apply Harm.
  - intros event. apply Huse, Hpoll.
  - apply Huse. unfold mailslot_cancel_async, get_fd_user, assert_mailslot_ops.
    preserves_tac.
  - intros events. apply Huse, Hevents.
  - intros mailslot n. apply Huse, Hcount.
Qed.

(** X21.  Reads are served in the order in which they were queued: [n]
    successive events with POLLIN on the reading end complete the first [n]
    requests of the queue, oldest first, each with STATUS_ALERTED, and
    leave the others queued in their order; the descriptor stays armed for
    POLLIN as long as a request is left. *)
Theorem poll_events_serve_in_order afd mailslot event (n : nat) : ∀ s f m,
  fd_at (heap s) afd = Some f → fd_user f = Some mailslot →
  mailslot_at (heap s) mailslot = Some m →
  Z.land POLLIN event ≠ 0 →
  (n ≤ length (read_q m))%nat →
  ∃ s', repeat_M n (mailslot_poll_event afd event) s = Done tt s' ∧
        apcs s' = apcs s ++ map (fun a => (a, STATUS_ALERTED)) (take n (read_q m)) ∧
        mailslot_at (heap s') mailslot = Some (with_read_q m (drop n (read_q m))) ∧
        (n ≠ O →
         fd_at (heap s') afd = Some (with_poll_events f (interest (drop n (read_q m))))).
Proof.
  induction n as [|n IH]; intros s f m Hf Hu Hm Hev Hlen.
  - exists s. cbn [repeat_M take drop]. rewrite app_nil_r, with_read_q_same. by split_and!.
  - destruct (read_q m) as [|a rest] eqn:Hq; [simpl in Hlen; lia|].
    pose proof (fd_mailslot_ne _ _ _ _ _ Hf Hm) as Hne.
    set (s1 := set_heap (put_body afd (Fd (with_poll_events f (interest rest))))
                 (head_completed mailslot m a rest STATUS_ALERTED s)).
    assert (mailslot_poll_event afd event s = Done tt s1) as Hstep.
    { apply wp_done_eq. eapply wp_mailslot_poll_event; [done..|].
      rewrite Hq, (proj2 (nonzero_true _) Hev). done. }
    destruct (IH s1 (with_poll_events f (interest rest)) (with_read_q m rest))
      as (s' & Hrun & Hapcs & Hm' & Hfd'); [unfold s1; heap_solve..|done| |].
    { cbn [read_q with_read_q]. simpl in Hlen. lia. }
    exists s'. cbn [repeat_M take drop]. split_and!.
    + unfold bind. by rewrite Hstep.
    + rewrite Hapcs. unfold s1. state_simpl. cbn [read_q with_read_q map].
      by rewrite <- app_assoc.
    + by rewrite Hm'.
    + intros _. destruct n as [|n'].
      * cbn [repeat_M] in Hrun. injection Hrun as <-. cbn [drop]. unfold s1. heap_solve.
      * by rewrite Hfd'.
Qed.

(** X22.  The third way in which [mailslot_queue_async] ends on a read
    request: with a writer attached and a datagram waiting, but no memory
    for the request, [create_async] fails and the function returns at
    once.  Nothing is queued, no completion is delivered and the
    descriptor is not armed; the error is the allocator's. *)
Theorem queue_async_out_of_memory s afd f mailslot m sock apc user iosb count :
  fd_at (heap s) afd = Some f → fd_user f = Some mailslot →
  mailslot_at (heap s) mailslot = Some m → fd m = Some afd →
  fd_unix_fd f ≠ -1 → sockets s !! fd_unix_fd f = Some sock →
  writers m ≠ [] → sock_queued sock ≠ [] → mem_free s = O →
  mailslot_queue_async afd apc user iosb ASYNC_TYPE_READ count s
    = Done tt (set_error_field STATUS_NO_MEMORY s).
Proof.
  intros Hf Hu Hm Hrfd Hunix Hs Hw Hq Hmem. apply wp_done_eq.
  eapply wp_mailslot_queue_async; [done..|].
  rewrite bool_decide_false by done.
  unfold readable. destruct (sock_queued sock); [done|]. cbn [negb orb].
  by rewrite Hmem.
Qed.

(** *** The set_mailslot_info request, exactly *)

Lemma put_refcount_put_body_put_refcount h p b n k :
  refcount_at h p = Some n →
  put_refcount p n (put_body p b (put_refcount p k h)) = put_body p b h.
Proof.
  intros (o & Ho & Hn)%refcount_at_Some. unfold put_refcount, put_body.
  apply map_eq. intros i. destruct (decide (i = p)) as [->|]; simplify_map_eq; done.
Qed.

Lemma req_set_mailslot_info_exact s req entry m k rfd f sock :
  handle_entry_of s (info_handle req) = Some entry →
  mailslot_at (heap s) (entry_ptr entry) = Some m →
  refcount_at (heap s) (entry_ptr entry) = Some (S k) →
  fd m = Some rfd → fd_at (heap s) rfd = Some f →
  sockets s !! fd_unix_fd f = Some sock → sock_nonblock sock = true →
  let set := nonzero (Z.land (info_flags req) MAILSLOT_SET_READ_TIMEOUT) in
  let timeout := if set then info_read_timeout req else read_timeout m in
  req_set_mailslot_info req s
  = Done {| reply_max_msgsize := max_msgsize m;
            reply_read_timeout := timeout;
            reply_msg_count := if readable sock then 1 else 0;
            reply_next_msgsize := match sock_queued sock with
                                  | [] => MAILSLOT_NO_MESSAGE
                                  | size :: _ => Z.of_N size
                                  end |}
      (if set
       then set_heap (put_body (entry_ptr entry)
                        (Mailslot (with_read_timeout m (info_read_timeout req)))) s
       else s).
Proof.
  intros He Hm Hk Hrfd Hf Hs Hnb set timeout.
  pose proof (fd_mailslot_ne _ _ _ _ _ Hf Hm) as Hne.
  set (mailslot := entry_ptr entry) in *.
  apply wp_done_eq.
  apply wp_bind, (wp_get_mailslot_obj _ entry m (S k)); [done..|]. fold mailslot.
  wp_step wp_get_mailslot. rewrite Hrfd. apply wp_bind, wp_ret.
  wp_step wp_get_unix_fd. fold set.
  set (s0 := set_heap (put_refcount mailslot (S (S k))) s).
  set (s1 := if set then set_heap (put_body mailslot
                                     (Mailslot (with_read_timeout m (info_read_timeout req))))
                           s0
             else s0).
  assert (with_read_timeout m (read_timeout m) = m) as Hsame by by destruct m.
  assert (mailslot_at (heap s1) mailslot = Some (with_read_timeout m timeout) ∧
          fd_at (heap s1) rfd = Some f ∧
          refcount_at (heap s1) mailslot = Some (S (S k)) ∧
          sockets s1 = sockets s) as (Hm1 & Hf1 & Hk1 & Hs1).
  { unfold s1, s0, timeout. destruct set; state_simpl.
    - split_and!; try heap_solve.
      rewrite refcount_at_put_body. by apply (refcount_at_put_refcount_eq _ _ _ (S k)).
    - rewrite Hsame. split_and!; try heap_solve.
      by apply (refcount_at_put_refcount_eq _ _ _ (S k)). }
  apply wp_bind with (Q := fun r t => _) (s := s0)
    (m := if set then put_mailslot mailslot (with_read_timeout m (info_read_timeout req))
          else ret tt).
  apply (wp_mono _ _ (fun _ t => t = s1)).
  { unfold s1. destruct set; [|by apply wp_ret].
    eapply wp_put_mailslot; [unfold s0; heap_solve|done]. }
  intros [] ? ->.
  wp_step wp_get_mailslot.
  apply wp_bind, (wp_mailslot_message_count _ (with_read_timeout m timeout) rfd f sock);
    [done..|by rewrite Hs1|].
  apply wp_bind, (wp_recv_peek _ _ sock); [by rewrite Hs1|done|].
  apply wp_bind, (wp_release_mailslot_keep _ (with_read_timeout m timeout) k); [done..|].
  apply wp_ret. split.
  - cbn [max_msgsize read_timeout with_read_timeout]. f_equal.
    destruct (sock_queued sock) as [|size ?]; [done|].
    by rewrite (proj2 (Z.ltb_ge _ _) (N2Z.is_nonneg size)).
  - unfold s1, s0. destruct set.
    + apply server_eq; state_simpl; try done.
      by apply put_refcount_put_body_put_refcount.
    + by apply grab_release_same.
Qed.

(** X20.  The set_mailslot_info request, to the last field.  Without
    MAILSLOT_SET_READ_TIMEOUT among its flags it is a pure query: the
    server is left exactly as it was, error and reference counts included.
    With the flag, the one difference is the read timeout of the mailslot.
    Either way, asking again changes nothing more and gets the same
    answer. *)
Theorem set_info_is_idempotent s req entry m k rfd f sock :
  handle_entry_of s (info_handle req) = Some entry →
  mailslot_at (heap s) (entry_ptr entry) = Some m →
  refcount_at (heap s) (entry_ptr entry) = Some (S k) →
  fd m = Some rfd → fd_at (heap s) rfd = Some f →
  sockets s !! fd_unix_fd f = Some sock → sock_nonblock sock = true →
  ∃ reply s',
    req_set_mailslot_info req s = Done reply s' ∧
    (Z.land (info_flags req) MAILSLOT_SET_READ_TIMEOUT = 0 → s' = s) ∧
    (Z.land (info_flags req) MAILSLOT_SET_READ_TIMEOUT ≠ 0 →
     s' = set_heap (put_body (entry_ptr entry)
                      (Mailslot (with_read_timeout m (info_read_timeout req)))) s) ∧
    req_set_mailslot_info req s' = Done reply s'.
Proof.
  intros He Hm Hk Hrfd Hf Hs Hnb.
  pose proof (fd_mailslot_ne _ _ _ _ _ Hf Hm) as Hne.
  pose proof (req_set_mailslot_info_exact s req entry m k rfd f sock
                He Hm Hk Hrfd Hf Hs Hnb) as Hrun.
  cbv zeta in Hrun.
  destruct (nonzero (Z.land (info_flags req) MAILSLOT_SET_READ_TIMEOUT)) eqn:Hflag.
  - apply nonzero_true in Hflag as Hnz.
    eexists _, _. split; [exact Hrun|]. split_and!; [done|done|].
    set (m' := with_read_timeout m (info_read_timeout req)).
    set (s' := set_heap (put_body (entry_ptr entry) (Mailslot m')) s).
    pose proof (req_set_mailslot_info_exact s' req entry m' k rfd f sock) as Hagain.
    cbv zeta in Hagain. rewrite Hflag in Hagain.
    rewrite Hagain; [| |unfold s'; heap_solve| |done|unfold s'; heap_solve|done..].
    + f_equal. unfold s'. apply server_eq; state_simpl; try done.
      by rewrite put_body_put_body.
    + done.
    + unfold s'. state_simpl. by rewrite refcount_at_put_body.
  - apply nonzero_false in Hflag as Hz.
    eexists _, _. split; [exact Hrun|]. by split_and!.
Qed.

(** X23.  The timeout that the set_mailslot_info request writes is the
    deadline of the reads that are queued afterwards: a read accepted by
    [mailslot_queue_async] after the request carries the new timeout, and
    carries no deadline at all when the timeout is MAILSLOT_WAIT_FOREVER.
    The reads that were queued before keep the deadline they had. *)
Theorem timeout_set_then_used s req entry m k rfd f sock apc user iosb count :
  handle_entry_of s (info_handle req) = Some entry →
  mailslot_at (heap s) (entry_ptr entry) = Some m →
  refcount_at (heap s) (entry_ptr entry) = Some (S k) →
  fd m = Some rfd → fd_at (heap s) rfd = Some f →
  fd_user f = Some (entry_ptr entry) → fd_unix_fd f ≠ -1 →
  sockets s !! fd_unix_fd f = Some sock → sock_nonblock sock = true →
  Z.land (info_flags req) MAILSLOT_SET_READ_TIMEOUT ≠ 0 →
  writers m ≠ [] → sock_queued sock ≠ [] → mem_free s ≠ O →
  let deadline := if Z.eqb (info_read_timeout req) MAILSLOT_WAIT_FOREVER
                  then None else Some (info_read_timeout req) in
  let request := {| async_thread := current s; async_apc := apc; async_user := user;
                    async_sb := iosb; async_timeout := deadline |} in
  ∃ reply s1 s2 a rest,
    req_set_mailslot_info req s = Done reply s1 ∧
    mailslot_queue_async rfd apc user iosb ASYNC_TYPE_READ count s1 = Done tt s2 ∧
    read_q m ++ [request] = a :: rest ∧
    mailslot_at (heap s2) (entry_ptr entry)
      = Some (with_read_q (with_read_timeout m (info_read_timeout req)) rest) ∧
    apcs s2 = apcs s ++ [(a, STATUS_ALERTED)].
Proof.
  intros He Hm Hk Hrfd Hf Hu Hunix Hs Hnb Hflag Hw Hq Hmem deadline request.
  pose proof (fd_mailslot_ne _ _ _ _ _ Hf Hm) as Hne.
  pose proof (req_set_mailslot_info_exact s req entry m k rfd f sock
                He Hm Hk Hrfd Hf Hs Hnb) as Hrun.
  cbv zeta in Hrun. rewrite (proj2 (nonzero_true _) Hflag) in Hrun.
  set (mailslot := entry_ptr entry) in *.
  set (m1 := with_read_timeout m (info_read_timeout req)) in *.
  set (s1 := set_heap (put_body mailslot (Mailslot m1)) s) in *.
  assert (new_async s1 m1 apc user iosb = request) as Hnew.
  { unfold new_async, request, deadline. cbn [read_timeout m1 with_read_timeout].
    f_equal. by destruct (Z.eqb _ _). }
  destruct (read_q m ++ [request]) as [|a rest] eqn:Hqueue.
  { by destruct (read_q m). }
  eexists _, s1.
  cut (wp (mailslot_queue_async rfd apc user iosb ASYNC_TYPE_READ count) s1
         (fun _ s2 =>
            mailslot_at (heap s2) mailslot = Some (with_read_q m1 rest) ∧
            apcs s2 = apcs s ++ [(a, STATUS_ALERTED)])).
  { intros ([] & s2 & Heq & ? & ?)%wp_done. exists s2, a, rest. by split_and!. }
  apply (wp_mailslot_queue_async _ f mailslot m1 sock); try done.
  1-2: unfold s1; heap_solve.
  rewrite bool_decide_false by done.
  unfold readable. destruct (sock_queued sock); [done|]. cbn [negb orb].
  unfold s1 at 1. state_simpl. destruct (mem_free s) as [|free]; [done|].
  intros a' rest'. rewrite Hnew. cbn [read_q m1 with_read_timeout]. rewrite Hqueue.
  intros [= <- <-]. state_simpl. split; [|done].
  apply mailslot_at_put_ne; [done|]. eapply mailslot_at_put_eq.
  eapply mailslot_at_put_eq. unfold s1. heap_solve.
Qed.

(** ** The further properties on the small server states *)

Lemma queue_async_rejects_other_types_witness :
  mailslot_queue_async 2%positive 11 12 13 2 0 (demo_server [] [42%N])
    = Done tt (set_error_field STATUS_INVALID_PARAMETER (demo_server [] [42%N])).
Proof.
  apply (queue_async_rejects_other_types (demo_server [] [42%N]) 2%positive demo_read_fd
           1%positive (demo_mailslot []) 11 12 13 2 0);
    vm_compute; first [reflexivity | discriminate].
Defined.

Lemma poll_event_without_input_witness :
  let s := demo_server [demo_async_1] [] in
  let m := demo_mailslot [demo_async_1] in
  ∃ s', mailslot_poll_event 2%positive POLLERR s = Done tt s' ∧
        s' = set_heap (put_body 2%positive
                         (Fd (with_poll_events demo_read_fd (interest (read_q m))))) s ∧
        apcs s' = apcs s ∧
        mailslot_at (heap s') 1%positive = Some m ∧
        fd_at (heap s') 2%positive
          = Some (with_poll_events demo_read_fd
                    (match read_q m with [] => 0 | _ :: _ => POLLIN end)).
Proof.
  apply (poll_event_without_input (demo_server [demo_async_1] []) 2%positive demo_read_fd
           1%positive (demo_mailslot [demo_async_1]) POLLERR);
    first [by right | vm_compute; reflexivity].
Defined.

Lemma cancel_async_is_idempotent_witness :
  let s := demo_server [demo_async_1; demo_async_2] [] in
  ∃ s', mailslot_cancel_async 2%positive s = Done tt s' ∧
        apcs s' = apcs s ++ map (fun a => (a, STATUS_CANCELLED))
                              (read_q (demo_mailslot [demo_async_1; demo_async_2])) ∧
        mailslot_cancel_async 2%positive s' = Done tt s'.
Proof.
  apply (cancel_async_is_idempotent (demo_server [demo_async_1; demo_async_2] [])
           2%positive demo_read_fd 1%positive (demo_mailslot [demo_async_1; demo_async_2]));
    vm_compute; reflexivity.
Defined.

Lemma message_count_is_a_flag_witness :
  mailslot_message_count 1%positive (demo_server [] [42%N; 7%N])
    = Done 1 (demo_server [] [42%N; 7%N]).
Proof.
  apply (message_count_is_a_flag (demo_server [] [42%N; 7%N]) 1%positive (demo_mailslot [])
           2%positive demo_read_fd (demo_socket [42%N; 7%N]));
    vm_compute; reflexivity.
Defined.

Lemma create_mailslot_name_collision_witness :
  create_mailslot ascii_tolowerW demo_name 20 5 5 (demo_server [] [])
    = Done None (set_error_field STATUS_OBJECT_NAME_COLLISION (demo_server [] [])).
Proof.
  apply (create_mailslot_name_collision ascii_tolowerW demo_name 20 5 5 (demo_server [] [])
           1%positive (demo_mailslot []) 1%nat);
    vm_compute; reflexivity.
Defined.

Lemma open_request_needs_share_read_witness :
  req_open_mailslot demo_open_unshared (demo_server [] [])
    = Done 0 (set_error_field STATUS_SHARING_VIOLATION (demo_server [] [])).
Proof.
  apply (open_request_needs_share_read (demo_server [] []) demo_open_unshared).
  reflexivity.
Defined.

Lemma set_info_refuses_other_handles_witness :
  get_mailslot_obj 8 0 (demo_server [] [])
    = Done None (set_error_field STATUS_OBJECT_TYPE_MISMATCH (demo_server [] [])) ∧
  req_set_mailslot_info demo_info_of_writer (demo_server [] [])
    = Done {| reply_max_msgsize := 0; reply_read_timeout := 0;
              reply_msg_count := 0; reply_next_msgsize := 0 |}
        (set_error_field STATUS_OBJECT_TYPE_MISMATCH (demo_server [] [])).
Proof.
  apply (proj2 (set_info_refuses_other_handles (demo_server [] []) demo_info_of_writer)
           {| entry_ptr := 4%positive; entry_access := GENERIC_WRITE; entry_inherit := false |}
           {| refcount := 1; obj_name := None; body := MailWriter demo_writer |});
    vm_compute; first [reflexivity | discriminate].
Defined.

Lemma create_mailslot_succeeds_witness :
  let s := startup 20 10 7 in
  ∃ mailslot s',
    create_mailslot ascii_tolowerW demo_name 20 100 0 s = Done (Some mailslot) s' ∧
    heap s !! mailslot = None ∧
    sync_namespace s' = <[name_key demo_name 20 := mailslot]> (sync_namespace s) ∧
    error s' = STATUS_SUCCESS ∧
    heap s ⊆ heap s' ∧ sockets s ⊆ sockets s' ∧
    handles s' = handles s ∧ apcs s' = apcs s ∧
    (mem_free s' + 3 = mem_free s)%nat ∧ (fds_free s' + 2 = fds_free s)%nat.
Proof.
  apply (create_mailslot_succeeds ascii_tolowerW demo_name 20 100 0 (startup 20 10 7));
    vm_compute; first [reflexivity | lia].
Defined.

Lemma create_mailslot_cleanup_asserts_witness :
  create_mailslot ascii_tolowerW demo_name 20 100 0 (startup 20 1 7) = Fault AssertionFailed ∧
  create_mailslot ascii_tolowerW demo_name 20 100 0 (startup 2 10 7) = Fault AssertionFailed ∧
  create_mailslot ascii_tolowerW demo_name 20 100 0 (startup 0 10 7)
    = Done None (set_error_field STATUS_NO_MEMORY (startup 0 10 7)).
Proof.
  split_and!.
  - apply (create_mailslot_cleanup_asserts ascii_tolowerW demo_name 20 100 0
             (startup 20 1 7));
      vm_compute; first [reflexivity | discriminate | lia].
  - apply (create_mailslot_cleanup_asserts ascii_tolowerW demo_name 20 100 0
             (startup 2 10 7));
      vm_compute; first [reflexivity | discriminate | lia].
  - apply (create_mailslot_cleanup_asserts ascii_tolowerW demo_name 20 100 0
             (startup 0 10 7));
      vm_compute; reflexivity.
Defined.

Lemma create_request_succeeds_witness :
  let s := startup 20 10 7 in
  ∃ mailslot rfd wfd u0 u1 s',
    req_create_mailslot ascii_tolowerW demo_create s
      = Done (index_to_handle (length (handles s))) s' ∧
    index_to_handle (length (handles s)) ≠ 0 ∧
    heap s !! mailslot = None ∧
    handles s' = handles s ++ [{| entry_ptr := mailslot; entry_access := GENERIC_READ;
                                  entry_inherit := create_inherit demo_create |}] ∧
    sync_namespace s' !! create_data demo_create = Some mailslot ∧
    mailslot_at (heap s') mailslot
      = Some {| fd := Some rfd; write_fd := Some wfd;
                max_msgsize := create_max_msgsize demo_create;
                read_timeout := create_read_timeout demo_create;
                writers := []; read_q := [] |} ∧
    rfd ≠ wfd ∧ u0 ≠ u1 ∧
    fd_at (heap s') rfd
      = Some {| fd_fd_ops := mailslot_fd_ops; fd_unix_fd := u1; fd_user := Some mailslot;
                fd_poll_events := 0 |} ∧
    fd_at (heap s') wfd
      = Some {| fd_fd_ops := mail_writer_fd_ops; fd_unix_fd := u0; fd_user := Some mailslot;
                fd_poll_events := 0 |} ∧
    sockets s' !! u1 = Some {| sock_queued := []; sock_nonblock := true |} ∧
    sockets s' !! u0 = Some {| sock_queued := []; sock_nonblock := true |} ∧
    refcount_at (heap s') mailslot = Some 1%nat ∧
    refcount_at (heap s') rfd = Some 1%nat ∧ refcount_at (heap s') wfd = Some 1%nat ∧
    error s' = STATUS_SUCCESS ∧ (mem_free s' + 4 = mem_free s)%nat.
Proof.
  apply (create_request_succeeds ascii_tolowerW demo_create (startup 20 10 7));
    vm_compute; first [reflexivity | lia].
Defined.

Lemma create_request_rolls_back_witness :
  req_create_mailslot ascii_tolowerW demo_create (startup 3 10 7)
    = Done 0 (set_error_field STATUS_NO_MEMORY (startup 3 10 7)).
Proof.
  apply (create_request_rolls_back ascii_tolowerW demo_create (startup 3 10 7));
    vm_compute; first [reflexivity | lia].
Defined.

Lemma open_request_admits_writer_witness :
  let s := demo_created 20 in
  ∃ writer s',
    req_open_mailslot demo_open s = Done (index_to_handle (length (handles s))) s' ∧
    index_to_handle (length (handles s)) ≠ 0 ∧
    heap s !! writer = None ∧
    handles s' = handles s ++ [{| entry_ptr := writer; entry_access := open_access demo_open;
                                  entry_inherit := open_inherit demo_open |}] ∧
    mail_writer_at (heap s') writer
      = Some {| writer_mailslot := Some 1%positive; access := open_access demo_open;
                sharing := open_sharing demo_open |} ∧
    mailslot_at (heap s') 1%positive
      = Some (with_writers demo_new_mailslot (writer :: writers demo_new_mailslot)) ∧
    refcount_at (heap s') writer = Some 1%nat ∧
    refcount_at (heap s') 1%positive = Some 2%nat ∧
    error s' = error s ∧ (mem_free s' + 2 = mem_free s)%nat.
Proof.
  apply (open_request_admits_writer (demo_created 20) demo_open 1%positive
           demo_new_mailslot 0);
    vm_compute; first [reflexivity | discriminate | lia | exact I].
Defined.

Lemma open_request_sharing_conflict_witness :
  req_open_mailslot demo_open (demo_server [] [])
    = Done 0 (set_error_field STATUS_SHARING_VIOLATION (demo_server [] [])).
Proof.
  apply (open_request_sharing_conflict (demo_server [] []) demo_open 1%positive
           (demo_mailslot []) 1%nat 4%positive [] demo_writer);
    first [ by left; vm_compute
          | by intros [_ Hshare]; apply Hshare
          | vm_compute; first [reflexivity | discriminate] ].
Defined.

Lemma open_request_rolls_back_witness :
  req_open_mailslot demo_open (demo_created 5)
    = Done 0 (set_error_field STATUS_NO_MEMORY (demo_created 5)).
Proof.
  apply (open_request_rolls_back (demo_created 5) demo_open 1%positive
           demo_new_mailslot 0);
    first [ by intros w Hw; apply elem_of_nil in Hw
          | vm_compute; first [reflexivity | discriminate | lia | exact I] ].
Defined.

Lemma release_mail_writer_unlinks_witness :
  let s := demo_server [demo_async_1] [] in
  let m := demo_mailslot [demo_async_1] in
  ∃ s', release_mail_writer 4%positive s = Done tt s' ∧
        heap s' !! 4%positive = None ∧
        mailslot_at (heap s') 1%positive
          = Some (with_writers m (filter (fun w => w ≠ 4%positive) (writers m))) ∧
        refcount_at (heap s') 1%positive = Some 1%nat ∧
        mem_free s' = S (mem_free s) ∧
        error s' = error s ∧ apcs s' = apcs s ∧ sockets s' = sockets s ∧
        handles s' = handles s.
Proof.
  apply (release_mail_writer_unlinks (demo_server [demo_async_1] []) 4%positive demo_writer
           1%positive (demo_mailslot [demo_async_1]) 0);
    vm_compute; reflexivity.
Defined.

Lemma last_writer_destroys_mailslot_witness :
  let s := demo_reader_gone [demo_async_1] in
  let dropped (n : nat) := match n with O => None | S k => Some (S k) end in
  ∃ s', release_mail_writer 4%positive s = Done tt s' ∧
        heap s' !! 4%positive = None ∧ heap s' !! 1%positive = None ∧
        apcs s' = apcs s ++ map (fun a => (a, STATUS_CANCELLED))
                              (read_q (demo_mailslot [demo_async_1])) ∧
        (∀ nm, name_at (heap s) 1%positive = Some nm → sync_namespace s' !! nm = None) ∧
        refcount_at (heap s') 2%positive = dropped 0%nat ∧
        refcount_at (heap s') 3%positive = dropped 0%nat ∧
        (mem_free s' ≥ 2 + length (read_q (demo_mailslot [demo_async_1])) + mem_free s)%nat.
Proof.
  apply (last_writer_destroys_mailslot (demo_reader_gone [demo_async_1]) 4%positive
           demo_writer 1%positive (demo_mailslot [demo_async_1])
           2%positive demo_read_fd 0 3%positive demo_write_fd 0);
    vm_compute; first [reflexivity | discriminate].
Defined.

Lemma create_then_open_witness :
  let s := startup 20 10 7 in
  ∃ rh s1 wh s2 mailslot writer rfd wfd,
    req_create_mailslot ascii_tolowerW demo_create s = Done rh s1 ∧
    req_open_mailslot demo_open s1 = Done wh s2 ∧
    rh ≠ 0 ∧ wh ≠ 0 ∧ rh ≠ wh ∧ mailslot ≠ writer ∧
    handle_entry_of s2 rh
      = Some {| entry_ptr := mailslot; entry_access := GENERIC_READ;
                entry_inherit := create_inherit demo_create |} ∧
    handle_entry_of s2 wh
      = Some {| entry_ptr := writer; entry_access := open_access demo_open;
                entry_inherit := open_inherit demo_open |} ∧
    mailslot_at (heap s2) mailslot
      = Some {| fd := Some rfd; write_fd := Some wfd;
                max_msgsize := create_max_msgsize demo_create;
                read_timeout := create_read_timeout demo_create;
                writers := [writer]; read_q := [] |} ∧
    mail_writer_at (heap s2) writer
      = Some {| writer_mailslot := Some mailslot; access := open_access demo_open;
                sharing := open_sharing demo_open |} ∧
    refcount_at (heap s2) mailslot = Some 2%nat ∧
    refcount_at (heap s2) writer = Some 1%nat.
Proof.
  apply (create_then_open ascii_tolowerW demo_create demo_open (startup 20 10 7));
    vm_compute; first [reflexivity | discriminate | lia].
Defined.

Lemma requests_keep_handles_witness :
  let s := demo_server [] [] in
  let entry := {| entry_ptr := 1%positive; entry_access := GENERIC_READ;
                  entry_inherit := false |} in
  (∀ req r s', req_create_mailslot ascii_tolowerW req s = Done r s' →
     handle_entry_of s' 4 = Some entry ∧
     (length (handles s') ≤ S (length (handles s)))%nat) ∧
  (∀ req r s', req_open_mailslot req s = Done r s' →
     handle_entry_of s' 4 = Some entry ∧
     (length (handles s') ≤ S (length (handles s)))%nat) ∧
  (∀ req r s', req_set_mailslot_info req s = Done r s' → handles s' = handles s).
Proof.
  apply (requests_keep_handles ascii_tolowerW (demo_server [] []) 4
           {| entry_ptr := 1%positive; entry_access := GENERIC_READ;
              entry_inherit := false |}).
  vm_compute. reflexivity.
Defined.

Lemma set_info_is_idempotent_witness :
  let s := demo_server [demo_async_1] [42%N] in
  ∃ reply s',
    req_set_mailslot_info demo_set_info s = Done reply s' ∧
    (Z.land (info_flags demo_set_info) MAILSLOT_SET_READ_TIMEOUT = 0 → s' = s) ∧
    (Z.land (info_flags demo_set_info) MAILSLOT_SET_READ_TIMEOUT ≠ 0 →
     s' = set_heap (put_body 1%positive
                      (Mailslot (with_read_timeout (demo_mailslot [demo_async_1])
                                   (info_read_timeout demo_set_info)))) s) ∧
    req_set_mailslot_info demo_set_info s' = Done reply s'.
Proof.
  apply (set_info_is_idempotent (demo_server [demo_async_1] [42%N]) demo_set_info
           {| entry_ptr := 1%positive; entry_access := GENERIC_READ; entry_inherit := false |}
           (demo_mailslot [demo_async_1]) 1%nat 2%positive demo_read_fd (demo_socket [42%N]));
    vm_compute; reflexivity.
Defined.

Lemma poll_events_serve_in_order_witness :
  let s := demo_server [demo_async_1; demo_async_2] [] in
  let m := demo_mailslot [demo_async_1; demo_async_2] in
  ∃ s', repeat_M 2 (mailslot_poll_event 2%positive POLLIN) s = Done tt s' ∧
        apcs s' = apcs s ++ map (fun a => (a, STATUS_ALERTED)) (take 2 (read_q m)) ∧
        mailslot_at (heap s') 1%positive = Some (with_read_q m (drop 2 (read_q m))) ∧
        (2%nat ≠ O →
         fd_at (heap s') 2%positive
           = Some (with_poll_events demo_read_fd (interest (drop 2 (read_q m))))).
Proof.
  apply (poll_events_serve_in_order 2%positive 1%positive POLLIN 2
           (demo_server [demo_async_1; demo_async_2] []) demo_read_fd
           (demo_mailslot [demo_async_1; demo_async_2]));
    vm_compute; first [reflexivity | discriminate | lia].
Defined.

Lemma queue_async_out_of_memory_witness :
  let s := set_mem_free 0 (demo_server [] [42%N]) in
  mailslot_queue_async 2%positive 11 12 13 ASYNC_TYPE_READ 0 s
    = Done tt (set_error_field STATUS_NO_MEMORY s).
Proof.
  apply (queue_async_out_of_memory (set_mem_free 0 (demo_server [] [42%N])) 2%positive
           demo_read_fd 1%positive (demo_mailslot []) (demo_socket [42%N]) 11 12 13 0);
    vm_compute; first [reflexivity | discriminate].
Defined.

Lemma timeout_set_then_used_witness :
  let s := demo_server [demo_async_1] [42%N] in
  let m := demo_mailslot [demo_async_1] in
  let request := {| async_thread := 7; async_apc := 21; async_user := 22; async_sb := 23;
                    async_timeout := Some 5 |} in
  ∃ reply s1 s2 a rest,
    req_set_mailslot_info demo_set_info s = Done reply s1 ∧
    mailslot_queue_async 2%positive 21 22 23 ASYNC_TYPE_READ 0 s1 = Done tt s2 ∧
    read_q m ++ [request] = a :: rest ∧
    mailslot_at (heap s2) 1%positive = Some (with_read_q (with_read_timeout m 5) rest) ∧
    apcs s2 = apcs s ++ [(a, STATUS_ALERTED)].
Proof.
  apply (timeout_set_then_used (demo_server [demo_async_1] [42%N]) demo_set_info
           {| entry_ptr := 1%positive; entry_access := GENERIC_READ; entry_inherit := false |}
           (demo_mailslot [demo_async_1]) 1%nat 2%positive demo_read_fd (demo_socket [42%N])
           21 22 23 0);
    vm_compute; first [reflexivity | discriminate].
Defined.
